(** * tRPC client: request execution, cancellable requests, subscription loop

    A shallow embedding of [packages/client/src/createTRPCClient.ts].

    JavaScript values are a small JSON-like datatype; a thrown value is either
    an instance of [TRPCClientError] or any other value.  Asynchronous code is
    modelled by state machines driven by the events of the host: the transport
    delivers the outcome of the request in flight, a timer fires, the caller
    invokes [cancel] or [unsubscribe].  A delivery runs [executeRequest] and
    the continuations waiting for it up to their next suspension point, as one
    step; for the promise returned by [request] the two jobs of a delivery
    are also available one by one ([Settling]), so that a [cancel] can fall
    between them.  Every step returns the new state together with the effects
    it performs, in program order.  Request logging and [requestCounter] have
    no influence on the behaviour studied here and are left out. *)

From Stdlib Require Import ZArith String Ascii List Bool Lia DecimalString.
From stdpp Require Import base option gmap strings.
Import ListNotations.
Local Open Scope Z_scope.
Local Open Scope list_scope.
Set Warnings "-register-all".

(** ** JavaScript values *)

(** Numbers are restricted to the integers a JavaScript number holds exactly
    (magnitude below 2^53), which [JSON.stringify] prints digit by digit;
    strings are byte strings (UTF-8), objects are association lists in
    property order. *)
Inductive value : Type :=
  | VUndef
  | VNull
  | VBool (b : bool)
  | VNum (z : Z)
  | VStr (s : string)
  | VArr (items : list value)
  | VObj (fields : list (string * value)).

(** [v == null]: true for [undefined] and [null] only. *)
Definition nullish (v : value) : bool :=
  match v with
  | VUndef | VNull => true
  | _ => false
  end.

(** [typeof v !== 'undefined'] *)
Definition defined (v : value) : bool :=
  match v with
  | VUndef => false
  | _ => true
  end.

(** ToBoolean *)
Definition truthy (v : value) : bool :=
  match v with
  | VUndef | VNull => false
  | VBool b => b
  | VNum z => negb (z =? 0)
  | VStr s => negb (String.eqb s EmptyString)
  | VArr _ | VObj _ => true
  end.

(** [v === n] for a number literal [n] *)
Definition strict_eq_num (v : value) (n : Z) : bool :=
  match v with
  | VNum z => z =? n
  | _ => false
  end.

Fixpoint lookup_field (k : string) (fields : list (string * value)) : value :=
  match fields with
  | [] => VUndef
  | (k', v) :: rest => if String.eqb k k' then v else lookup_field k rest
  end.

(** Reading property [k] of a value that is neither [undefined] nor [null]:
    own properties of objects; [undefined] for everything else (none of the
    properties read by the client exist on primitives or arrays). *)
Definition prop (v : value) (k : string) : value :=
  match v with
  | VObj fields => lookup_field k fields
  | _ => VUndef
  end.

(** [v?.k] *)
Definition optchain (v : value) (k : string) : value :=
  if nullish v then VUndef else prop v k.

Definition TypeError (msg : string) : value :=
  VObj [("name"%string, VStr "TypeError"); ("message"%string, VStr msg)].

(** ** Responses and client errors *)

(** Three types that refer to each other.  [Response] is a transport
    response: its status and what [res.json()] resolves to ([inl]) or the
    value it rejects with ([inr], an unparseable or aborted body).
    [TRPCClientError] is [class TRPCClientError extends Error], which keeps
    the response.  [exn] is a thrown value: [instanceof TRPCClientError] or
    anything else. *)
Inductive Response : Type :=
  | Build_Response (res_status : Z) (res_json : value + exn)
with TRPCClientError : Type :=
  | Build_TRPCClientError (message : value) (res : option Response) (json : value)
      (originalError : option value) (shape : value)
with exn : Type :=
  | ExnClient (e : TRPCClientError)
  | ExnValue (v : value).

Definition res_status (r : Response) : Z :=
  match r with Build_Response s _ => s end.

Definition res_json (r : Response) : value + exn :=
  match r with Build_Response _ j => j end.

Definition message (e : TRPCClientError) : value :=
  match e with Build_TRPCClientError m _ _ _ _ => m end.

Definition res (e : TRPCClientError) : option Response :=
  match e with Build_TRPCClientError _ r _ _ _ => r end.

Definition json (e : TRPCClientError) : value :=
  match e with Build_TRPCClientError _ _ j _ _ => j end.

Definition originalError (e : TRPCClientError) : option value :=
  match e with Build_TRPCClientError _ _ _ o _ => o end.

Definition shape (e : TRPCClientError) : value :=
  match e with Build_TRPCClientError _ _ _ _ s => s end.

(** [new TRPCClientError(message, { res, json, originalError })] *)
Definition new_TRPCClientError (msg : value) (r : option Response) (j : value)
    (orig : option value) : TRPCClientError :=
  Build_TRPCClientError msg r j orig (optchain j "error").

(** Completion of a synchronous computation. *)
Inductive completion (A : Type) : Type :=
  | Returns (a : A)
  | Throws (e : exn).
Arguments Returns {A} a.
Arguments Throws {A} e.

(** [v.k]: throws a TypeError when [v] is [undefined] or [null]. *)
Definition get (v : value) (k : string) : completion value :=
  if nullish v
  then Throws (ExnValue (TypeError "Cannot read properties of undefined or null"))
  else Returns (prop v k).

(** The outcome of [await this.fetch(url, opts)]. *)
Inductive fetch_outcome : Type :=
  | FetchRejects (e : exn)
  | FetchResolves (r : Response).

(** The transport fails: [fetch] rejects or the body cannot be read. *)
Definition fetch_fails (fo : fetch_outcome) : bool :=
  match fo with
  | FetchRejects _ => true
  | FetchResolves r =>
      match res_json r with
      | inr _ => true
      | inl _ => false
      end
  end.

(** ** Configuration *)

(** [serialize] is taken to return; [deserialize] may throw. *)
Record DataTransformer : Type := {
  serialize : value -> value;
  deserialize : value -> completion value
}.

(** A callback returning nothing: [None] when it returns, [Some e] when it
    throws [e]. *)
Definition callback (A : Type) : Type := A -> option exn.

(** [getHeaders] is the map the callback of that name returns; the callback
    is taken to return, and to return the same map each time it is called. *)
Record CreateTRPCClientOptions : Type := {
  url : string;
  getHeaders : option (gmap string (option string));
  onSuccess : option (callback value);
  onError : option (callback TRPCClientError);
  opt_transformer : option DataTransformer
}.

Definition identity_transformer : DataTransformer :=
  {| serialize := fun data => data;
     deserialize := fun data => Returns data |}.

(** [class TRPCClient]: [AC] tells whether [getAbortController] found an
    abort controller ([this.AC] is a constructor or [null]). *)
Record TRPCClient : Type := {
  opts : CreateTRPCClientOptions;
  AC : bool;
  transformer : DataTransformer
}.

Definition createTRPCClient (o : CreateTRPCClientOptions) (ac : bool) : TRPCClient :=
  {| opts := o;
     AC := ac;
     transformer := match opt_transformer o with
                    | Some t => t
                    | None => identity_transformer
                    end |}.

Inductive ProcedureType : Type := query | mutation | subscription.

Record RequestInit : Type := {
  method : string;
  body : option string;
  signal : bool;
  headers : gmap string (option string)
}.

(** ** Effects *)

(** [Fetch]: the transport is called.  [AbortSignal]: the signal of the
    controller is raised.  [HookOnSuccess], [HookOnError]: the hooks of the
    client options.  [Resolve], [Reject]: the promise returned by [request]
    settles.  [OnceResolve], [OnceReject]: the promise returned by
    [subscriptionOnce] settles.  [OnData], [OnError]: the callbacks passed to
    [subscription].  [SetTimeout]: a retry of [input] is scheduled. *)
Inductive effect : Type :=
  | Fetch (u : string) (init : RequestInit)
  | AbortSignal
  | HookOnSuccess (envelope : value)
  | HookOnError (e : TRPCClientError)
  | Resolve (data : value)
  | Reject (e : TRPCClientError)
  | OnceResolve (data : value)
  | OnceReject (e : TRPCClientError)
  | OnData (data : value)
  | OnError (e : exn)
  | SetTimeout (ms : Z) (input : value).

(** [retryDelay] *)
Definition retryDelay (attemptIndex : nat) : Z :=
  if Nat.eqb attemptIndex 0 then 0
  else Z.min (1000 * 2 ^ Z.of_nat attemptIndex) 30000.

(** [err.json?.statusCode === 408]: the server asks to reconnect. *)
Definition is_reconnect (err : TRPCClientError) : bool :=
  strict_eq_num (optchain (json err) "statusCode") 408.

(** Result of [executeRequest]. *)
Inductive LocalResult : Type :=
  | LOk (data : value)
  | LErr (error : TRPCClientError).

Section Executor.
Variable client : TRPCClient.

(** Invoke an optional hook ([hook && hook(arg)]). *)
Definition call_hook {A : Type} (hook : option (callback A)) (mark : A -> effect)
    (arg : A) : list effect * option exn :=
  match hook with
  | None => ([], None)
  | Some h => ([mark arg], h arg)
  end.

(** The [catch] block of [executeRequest], entered with the current values
    of [res] and [json], the effects performed so far and the caught value. *)
Definition executeRequest_catch (r : option Response) (j : value)
    (done_so_far : list effect) (caught : exn)
    : list effect * completion LocalResult :=
  let wrapped :=
    match caught with
    | ExnClient e => Returns e
    | ExnValue v =>
        match get v "message" with
        | Throws t => Throws t
        | Returns m =>
            Returns (new_TRPCClientError m r
                       (if truthy (optchain j "ok") then VNull else j)
                       (Some v))
        end
    end in
  match wrapped with
  | Throws t => (done_so_far, Throws t)
  | Returns error =>
      match call_hook (onError (opts client)) HookOnError error with
      | (effs, Some t) => (done_so_far ++ effs, Throws t)
      | (effs, None) => (done_so_far ++ effs, Returns (LErr error))
      end
  end.

(** [executeRequest], as a function of what the transport does. *)
Definition executeRequest (fo : fetch_outcome) : list effect * completion LocalResult :=
  match fo with
  | FetchRejects e => executeRequest_catch None VNull [] e
  | FetchResolves r =>
      match res_json r with
      | inr e => executeRequest_catch (Some r) VNull [] e
      | inl rawJson =>
          match deserialize (transformer client) rawJson with
          | Throws e => executeRequest_catch (Some r) VNull [] e
          | Returns j =>
              match get j "ok" with
              | Throws e => executeRequest_catch (Some r) j [] e
              | Returns ok =>
                  if truthy ok then
                    match call_hook (onSuccess (opts client)) HookOnSuccess j with
                    | (effs, Some e) => executeRequest_catch (Some r) j effs e
                    | (effs, None) => (effs, Returns (LOk (prop j "data")))
                    end
                  else
                    match get (prop j "error") "message" with
                    | Throws e => executeRequest_catch (Some r) j [] e
                    | Returns m =>
                        ([], Returns (LErr (new_TRPCClientError m (Some r) j None)))
                    end
              end
          end
      end
  end.
End Executor.

(** ** Built-ins of the host *)

(** [JSON.stringify] (which returns [undefined], here [None], for a value that
    has no JSON text) and [encodeURIComponent]. *)
Class Platform : Type := {
  JSON_stringify : value -> option string;
  encodeURIComponent : string -> string
}.

(** String conversion of the result of [JSON.stringify] in a call or a
    template literal. *)
Definition to_text (s : option string) : string :=
  match s with
  | Some t => t
  | None => "undefined"
  end.

(** A reference implementation of the two built-ins on the value model. *)
Definition hex_digit (upper : bool) (n : nat) : ascii :=
  if Nat.ltb n 10 then ascii_of_nat (48 + n)
  else ascii_of_nat ((if upper then 55 else 87) + n).

Definition hex_byte (upper : bool) (c : ascii) : string :=
  let n := nat_of_ascii c in
  String (hex_digit upper (Nat.div n 16))
    (String (hex_digit upper (Nat.modulo n 16)) EmptyString).

Definition uri_unreserved (c : ascii) : bool :=
  let n := nat_of_ascii c in
  (Nat.leb 65 n && Nat.leb n 90) || (Nat.leb 97 n && Nat.leb n 122)
  || (Nat.leb 48 n && Nat.leb n 57)
  || existsb (Nat.eqb n) [45; 95; 46; 33; 126; 42; 39; 40; 41]%nat.

Fixpoint percent_encode (s : string) : string :=
  match s with
  | EmptyString => EmptyString
  | String c rest =>
      if uri_unreserved c then String c (percent_encode rest)
      else String.append (String "%" (hex_byte true c)) (percent_encode rest)
  end.

Definition dquote : string := String (ascii_of_nat 34) EmptyString.
Definition backslash : string := String (ascii_of_nat 92) EmptyString.

Definition json_escape_char (c : ascii) : string :=
  let n := nat_of_ascii c in
  if Nat.eqb n 34 then String.append backslash dquote
  else if Nat.eqb n 92 then String.append backslash backslash
  else if Nat.eqb n 8 then String.append backslash "b"
  else if Nat.eqb n 12 then String.append backslash "f"
  else if Nat.eqb n 10 then String.append backslash "n"
  else if Nat.eqb n 13 then String.append backslash "r"
  else if Nat.eqb n 9 then String.append backslash "t"
  else if Nat.ltb n 32 then String.append backslash (String.append "u00" (hex_byte false c))
  else String c EmptyString.

Fixpoint json_escape (s : string) : string :=
  match s with
  | EmptyString => EmptyString
  | String c rest => String.append (json_escape_char c) (json_escape rest)
  end.

Definition json_quote (s : string) : string :=
  String.append dquote (String.append (json_escape s) dquote).

Definition json_number (z : Z) : string :=
  NilZero.string_of_int (Z.to_int z).

Fixpoint stringify (v : value) : option string :=
  match v with
  | VUndef => None
  | VNull => Some "null"%string
  | VBool true => Some "true"%string
  | VBool false => Some "false"%string
  | VNum z => Some (json_number z)
  | VStr s => Some (json_quote s)
  | VArr items =>
      let texts :=
        (fix go (l : list value) : list string :=
           match l with
           | [] => []
           | i :: rest =>
               match stringify i with
               | Some t => t
               | None => "null"%string
               end :: go rest
           end) items in
      Some (String.append "[" (String.append (String.concat "," texts) "]"))
  | VObj fields =>
      let texts :=
        (fix go (l : list (string * value)) : list string :=
           match l with
           | [] => []
           | (k, i) :: rest =>
               match stringify i with
               | Some t => String.append (json_quote k) (String.append ":" t) :: go rest
               | None => go rest
               end
           end) fields in
      Some (String.append "{" (String.append (String.concat "," texts) "}"))
  end.

Definition reference_platform : Platform :=
  {| JSON_stringify := stringify;
     encodeURIComponent := percent_encode |}.

(** ** Request builder, cancellable request, subscriptions *)

Inductive promise_state (A E : Type) : Type :=
  | Pending
  | Resolved (a : A)
  | Rejected (e : E).
Arguments Pending {A E}.
Arguments Resolved {A E} a.
Arguments Rejected {A E} e.

(** [type ReqOpts] *)
Record ReqOpts : Type := {
  ro_method : string;
  ro_body : option string;
  ro_url : string
}.

(** The promise returned by [request], with the variables its closures
    share: the controller [ac] ([None] when there is none, otherwise whether
    its signal is raised), [aborted], [settled], and whether the promise of
    [executeRequest] is still pending. *)
Record Request : Type := {
  req_url : string;
  req_init : RequestInit;
  ac : option bool;
  aborted : bool;
  settled : bool;
  in_flight : bool;
  responsePromise : promise_state value TRPCClientError
}.

(** The promise returned by [subscriptionOnce] with [stopped] and
    [currentRequest]. *)
Record Once : Type := {
  once_path : string;
  once_input : value;
  once_stopped : bool;
  currentRequest : option Request;
  once_promise : promise_state value TRPCClientError
}.

(** The [opts] argument of [subscription]. *)
Record SubscriptionOpts : Type := {
  initialInput : value;
  sub_onError : option (callback exn);
  sub_onData : option (callback value);
  nextInput : value -> completion value
}.

(** The variables of one [subscription] call.  [cycle] is the promise created
    by the latest activation of [exec] (the one it awaits); [currentPromise]
    is either [null] or a reference to that same promise, which
    [has_currentPromise] records.  [timer] is the input captured by the
    scheduled retry, if one is pending. *)
Record Loop : Type := {
  sub_path : string;
  stopped : bool;
  attemptIndex : nat;
  has_currentPromise : bool;
  cycle : Once;
  timer : option value
}.

Inductive request_event : Type :=
  | ReqOutcome (fo : fetch_outcome)
  | ReqCancel.

(** The promise returned by [request], job by job.  [executeRequest] is an
    async function: when it returns, its promise is fulfilled and the
    callback passed to [then] is queued; that callback runs as a job of its
    own, after whatever the host runs first.  [fulfilled] is the result the
    queued callback will receive. *)
Record Settling : Type := {
  pending_request : Request;
  fulfilled : option LocalResult
}.

(** [Delivered]: the transport delivers its outcome and [executeRequest]
    runs to its end.  [ThenJob]: the callback passed to [then] runs.
    [CancelCall]: [cancel] is called, by the caller or from a hook of the
    client. *)
Inductive settling_event : Type :=
  | Delivered (fo : fetch_outcome)
  | ThenJob
  | CancelCall.

Inductive once_event : Type :=
  | OnceOutcome (fo : fetch_outcome)
  | OnceCancel.

Inductive loop_event : Type :=
  | Outcome (fo : fetch_outcome)
  | Unsubscribe
  | TimerFires.

Section Client.
Context {platform : Platform}.
Variable client : TRPCClient.

(** [serializeInput] *)
Definition serializeInput (input : value) : value :=
  if defined input then serialize (transformer client) input else input.

(** [{ ...base, ...ext }]: the properties of [ext] win. *)
Definition spread (base ext : gmap string (option string)) : gmap string (option string) :=
  ext ∪ base.

(** [this.opts.getHeaders ? this.opts.getHeaders() : {}] *)
Definition caller_headers : gmap string (option string) :=
  match getHeaders (opts client) with
  | Some h => h
  | None => ∅
  end.

(** [getHeaders] of the client. *)
Definition client_getHeaders : gmap string (option string) :=
  spread {[ "content-type"%string := Some "application/json"%string ]} caller_headers.

(** [reqOptsMap[type]()] *)
Definition reqOptsMap (type : ProcedureType) (input : value) (path : string) : ReqOpts :=
  let base := url (opts client) +:+ "/" +:+ path in
  match type with
  | query =>
      {| ro_method := "GET";
         ro_body := None;
         ro_url := base +:+
                   (if negb (nullish input)
                    then "?input=" +:+
                         encodeURIComponent (to_text (JSON_stringify (serializeInput input)))
                    else EmptyString) |}
  | mutation =>
      {| ro_method := "POST";
         ro_body := JSON_stringify (VObj [("input"%string, serializeInput input)]);
         ro_url := base |}
  | subscription =>
      {| ro_method := "PATCH";
         ro_body := JSON_stringify (VObj [("input"%string, serializeInput input)]);
         ro_url := base |}
  end.

(** [request]: builds the options, allocates the controller and starts
    [executeRequest], which calls the transport at once. *)
Definition request (type : ProcedureType) (input : value) (path : string)
    : Request * list effect :=
  let ro := reqOptsMap type input path in
  let init := {| method := ro_method ro;
                 body := ro_body ro;
                 signal := AC client;
                 headers := client_getHeaders |} in
  ({| req_url := ro_url ro;
      req_init := init;
      ac := if AC client then Some false else None;
      aborted := false;
      settled := false;
      in_flight := true;
      responsePromise := Pending |},
   [Fetch (ro_url ro) init]).

(** [ac?.abort()]: raises the signal unless it is raised already. *)
Definition abort (a : option bool) : option bool * list effect :=
  match a with
  | None => (None, [])
  | Some false => (Some true, [AbortSignal])
  | Some true => (Some true, [])
  end.

(** [responsePromise.cancel] *)
Definition Request_cancel (r : Request) : Request * list effect :=
  if settled r then (r, [])
  else
    let (a, effs) := abort (ac r) in
    ({| req_url := req_url r; req_init := req_init r; ac := a; aborted := true;
        settled := settled r; in_flight := in_flight r;
        responsePromise := responsePromise r |}, effs).

(** The promise of [executeRequest] is no longer pending: [settled] and the
    promise of [request] become [s] and [p]. *)
Definition Request_finished (r : Request) (s : bool)
    (p : promise_state value TRPCClientError) : Request :=
  {| req_url := req_url r; req_init := req_init r; ac := ac r; aborted := aborted r;
     settled := s; in_flight := false; responsePromise := p |}.

(** The transport delivers its outcome and [executeRequest] runs to its end:
    its promise is fulfilled with the result it returns (third component), or
    rejected with what it throws, which nothing handles. *)
Definition Request_executed (r : Request) (fo : fetch_outcome)
    : Request * list effect * option LocalResult :=
  if in_flight r then
    match executeRequest client fo with
    | (effs, Throws _) => (Request_finished r (settled r) (responsePromise r), effs, None)
    | (effs, Returns lr) =>
        (Request_finished r (settled r) (responsePromise r), effs, Some lr)
    end
  else (r, [], None).

(** The callback passed to [then]:
    [settled = true; res.ok ? resolve(res.data) : reject(res.error)].  The
    third component is the settlement. *)
Definition Request_then (r : Request) (lr : LocalResult)
    : Request * list effect * (value + TRPCClientError) :=
  match lr with
  | LOk data => (Request_finished r true (Resolved data), [Resolve data], inl data)
  | LErr error => (Request_finished r true (Rejected error), [Reject error], inr error)
  end.

(** A delivery with nothing between its two jobs: [executeRequest] runs to
    its end and, when it returns, the callback passed to [then] settles the
    promise.  The third component is the settlement, if any. *)
Definition Request_outcome (r : Request) (fo : fetch_outcome)
    : Request * list effect * option (value + TRPCClientError) :=
  let '(r1, effs1, result) := Request_executed r fo in
  match result with
  | None => (r1, effs1, None)
  | Some lr =>
      let '(r2, effs2, settlement) := Request_then r1 lr in
      (r2, effs1 ++ effs2, Some settlement)
  end.

Definition Request_step (r : Request) (ev : request_event) : Request * list effect :=
  match ev with
  | ReqOutcome fo => let '(r', effs, _) := Request_outcome r fo in (r', effs)
  | ReqCancel => Request_cancel r
  end.

Fixpoint Request_run (r : Request) (evs : list request_event) : Request * list effect :=
  match evs with
  | [] => (r, [])
  | ev :: rest =>
      let (r1, effs1) := Request_step r ev in
      let (r2, effs2) := Request_run r1 rest in
      (r2, effs1 ++ effs2)
  end.

(** The transport honours the abort signal along a run: once the signal is
    raised, the outcome it delivers is a failure. *)
Fixpoint honours_abort (r : Request) (evs : list request_event) : Prop :=
  match evs with
  | [] => True
  | ev :: rest =>
      match ev with
      | ReqOutcome fo => ac r = Some true -> in_flight r = true -> fetch_fails fo = true
      | ReqCancel => True
      end
      /\ honours_abort (fst (Request_step r ev)) rest
  end.

(** The same request, job by job. *)
Definition settling (r : Request) : Settling :=
  {| pending_request := r; fulfilled := None |}.

Definition Settling_step (s : Settling) (ev : settling_event) : Settling * list effect :=
  match ev with
  | Delivered fo =>
      if in_flight (pending_request s) then
        let '(r, effs, result) := Request_executed (pending_request s) fo in
        ({| pending_request := r; fulfilled := result |}, effs)
      else (s, [])
  | ThenJob =>
      match fulfilled s with
      | None => (s, [])
      | Some lr =>
          let '(r, effs, _) := Request_then (pending_request s) lr in
          ({| pending_request := r; fulfilled := None |}, effs)
      end
  | CancelCall =>
      let (r, effs) := Request_cancel (pending_request s) in
      ({| pending_request := r; fulfilled := fulfilled s |}, effs)
  end.

Fixpoint Settling_run (s : Settling) (evs : list settling_event) : Settling * list effect :=
  match evs with
  | [] => (s, [])
  | ev :: rest =>
      let (s1, effs1) := Settling_step s ev in
      let (s2, effs2) := Settling_run s1 rest in
      (s2, effs1 ++ effs2)
  end.


(** [query] and [mutation] *)
Definition client_query (path : string) (input : value) : Request * list effect :=
  request query input path.

Definition client_mutation (path : string) (input : value) : Request * list effect :=
  request mutation input path.

Definition set_once (o : Once) (st : bool) (cur : option Request)
    (p : promise_state value TRPCClientError) : Once :=
  {| once_path := once_path o; once_input := once_input o; once_stopped := st;
     currentRequest := cur; once_promise := p |}.

(** [exec] of [subscriptionOnce], up to its [await]. *)
Definition Once_exec (o : Once) : Once * list effect :=
  if once_stopped o then (o, [])
  else
    let (r, effs) := request subscription (once_input o) (once_path o) in
    (set_once o (once_stopped o) (Some r) (once_promise o), effs).

(** [subscriptionOnce] *)
Definition subscriptionOnce (path : string) (input : value) : Once * list effect :=
  Once_exec {| once_path := path; once_input := input; once_stopped := false;
               currentRequest := None; once_promise := Pending |}.

(** [promise.cancel] of [subscriptionOnce]; its [clearTimeout(nextTry)]
    clears nothing, as [nextTry] is never assigned. *)
Definition Once_cancel (o : Once) : Once * list effect :=
  match currentRequest o with
  | None => (set_once o true None (once_promise o), [])
  | Some r =>
      let (r', effs) := Request_cancel r in
      (set_once o true (Some r') (once_promise o), effs)
  end.

(** [exec] of [subscriptionOnce], resumed by the settlement of
    [currentRequest]. *)
Definition Once_outcome (o : Once) (fo : fetch_outcome)
    : Once * list effect * option (value + TRPCClientError) :=
  match currentRequest o with
  | None => (o, [], None)
  | Some r =>
      let '(r', effs, settlement) := Request_outcome r fo in
      let o1 := set_once o (once_stopped o) (Some r') (once_promise o) in
      match settlement with
      | None => (o1, effs, None)
      | Some (inl data) =>
          (set_once o1 (once_stopped o1) (currentRequest o1) (Resolved data),
           effs ++ [OnceResolve data], Some (inl data))
      | Some (inr err) =>
          if is_reconnect err then
            let (o2, effs2) := Once_exec o1 in
            (o2, effs ++ effs2, None)
          else
            (set_once o1 (once_stopped o1) (currentRequest o1) (Rejected err),
             effs ++ [OnceReject err], Some (inr err))
      end
  end.

(** The request of [o] is still in flight. *)
Definition Once_in_flight (o : Once) : bool :=
  match currentRequest o with
  | Some r => in_flight r
  | None => false
  end.

Definition Once_step (o : Once) (ev : once_event) : Once * list effect :=
  match ev with
  | OnceOutcome fo => let '(o', effs, _) := Once_outcome o fo in (o', effs)
  | OnceCancel => Once_cancel o
  end.

Fixpoint Once_run (o : Once) (evs : list once_event) : Once * list effect :=
  match evs with
  | [] => (o, [])
  | ev :: rest =>
      let (o1, effs1) := Once_step o ev in
      let (o2, effs2) := Once_run o1 rest in
      (o2, effs1 ++ effs2)
  end.

Variable sopts : SubscriptionOpts.

Definition set_loop (l : Loop) (st : bool) (n : nat) (cur : bool) (c : Once)
    (t : option value) : Loop :=
  {| sub_path := sub_path l; stopped := st; attemptIndex := n;
     has_currentPromise := cur; cycle := c; timer := t |}.

(** [exec(input)] of [subscription], up to its [await]. *)
Definition Loop_exec (l : Loop) (input : value) : Loop * list effect :=
  let (o, effs) := subscriptionOnce (sub_path l) input in
  (set_loop l (stopped l) (attemptIndex l) true o (timer l), effs).

(** The [catch] block of [exec], for the activation called with [input]. *)
Definition Loop_catch (l : Loop) (input : value) (err : exn) : Loop * list effect :=
  if stopped l then (l, [])
  else
    match call_hook (sub_onError sopts) OnError err with
    | (effs, Some _) => (l, effs)
    | (effs, None) =>
        let n := S (attemptIndex l) in
        (set_loop l (stopped l) n (has_currentPromise l) (cycle l) (Some input),
         effs ++ [SetTimeout (retryDelay n) input])
    end.

(** [exec] of [subscription], resumed by the settlement of [currentPromise]. *)
Definition Loop_outcome (l : Loop) (fo : fetch_outcome) : Loop * list effect :=
  let input := once_input (cycle l) in
  let '(o, effs, settlement) := Once_outcome (cycle l) fo in
  let l1 := set_loop l (stopped l) (attemptIndex l) (has_currentPromise l) o (timer l) in
  match settlement with
  | None => (l1, effs)
  | Some (inl data) =>
      let l2 := set_loop l1 (stopped l1) 0 (has_currentPromise l1) (cycle l1) (timer l1) in
      match call_hook (sub_onData sopts) OnData data with
      | (effs1, Some e) =>
          let (l3, effs2) := Loop_catch l2 input e in
          (l3, effs ++ effs1 ++ effs2)
      | (effs1, None) =>
          match nextInput sopts data with
          | Throws e =>
              let (l3, effs2) := Loop_catch l2 input e in
              (l3, effs ++ effs1 ++ effs2)
          | Returns next =>
              let (l3, effs2) := Loop_exec l2 next in
              (l3, effs ++ effs1 ++ effs2)
          end
      end
  | Some (inr err) =>
      let (l2, effs1) := Loop_catch l1 input (ExnClient err) in
      (l2, effs ++ effs1)
  end.

(** [unsubscribe] *)
Definition Loop_unsubscribe (l : Loop) : Loop * list effect :=
  let (o, effs) := if has_currentPromise l then Once_cancel (cycle l) else (cycle l, []) in
  (set_loop l true (attemptIndex l) false o (timer l), effs).

(** The callback passed to [setTimeout]. *)
Definition Loop_timer (l : Loop) : Loop * list effect :=
  match timer l with
  | None => (l, [])
  | Some input =>
      Loop_exec (set_loop l (stopped l) (attemptIndex l) (has_currentPromise l) (cycle l) None)
                input
  end.

(** [subscription] *)
Definition client_subscription (path : string) : Loop * list effect :=
  Loop_exec {| sub_path := path; stopped := false; attemptIndex := 0;
               has_currentPromise := false;
               cycle := {| once_path := path; once_input := initialInput sopts;
                           once_stopped := false; currentRequest := None;
                           once_promise := Pending |};
               timer := None |}
            (initialInput sopts).

Definition Loop_step (l : Loop) (ev : loop_event) : Loop * list effect :=
  match ev with
  | Outcome fo => Loop_outcome l fo
  | Unsubscribe => Loop_unsubscribe l
  | TimerFires => Loop_timer l
  end.

Fixpoint Loop_run (l : Loop) (evs : list loop_event) : Loop * list effect :=
  match evs with
  | [] => (l, [])
  | ev :: rest =>
      let (l1, effs1) := Loop_step l ev in
      let (l2, effs2) := Loop_run l1 rest in
      (l2, effs1 ++ effs2)
  end.

End Client.

(** ** Assumptions on the environment *)

(** The configured hooks return (they do not throw). *)
Definition hooks_return (client : TRPCClient) : Prop :=
  (forall h x, onSuccess (opts client) = Some h -> h x = None)
  /\ (forall h e, onError (opts client) = Some h -> h e = None).

(** The value thrown by the transport, by [res.json()] or by [deserialize],
    if one of them fails. *)
Definition stage_failure (client : TRPCClient) (fo : fetch_outcome) : option exn :=
  match fo with
  | FetchRejects e => Some e
  | FetchResolves r =>
      match res_json r with
      | inr e => Some e
      | inl rawJson =>
          match deserialize (transformer client) rawJson with
          | Throws e => Some e
          | Returns _ => None
          end
      end
  end.


(** The effects of the error hook on [error]. *)
Definition onError_effects (client : TRPCClient) (error : TRPCClientError) : list effect :=
  match onError (opts client) with
  | Some _ => [HookOnError error]
  | None => []
  end.

(** The effects of the callbacks of [subscription]. *)
Definition sub_onError_effects (sopts : SubscriptionOpts) (e : exn) : list effect :=
  match sub_onError sopts with
  | Some _ => [OnError e]
  | None => []
  end.

Definition sub_onData_effects (sopts : SubscriptionOpts) (data : value) : list effect :=
  match sub_onData sopts with
  | Some _ => [OnData data]
  | None => []
  end.

(** [onData] throws [e] on [data], or it returns (or is absent) and
    [nextInput] throws [e]. *)
Definition callback_throws (sopts : SubscriptionOpts) (data : value) (e : exn) : Prop :=
  (exists h, sub_onData sopts = Some h /\ h data = Some e)
  \/ ((forall h, sub_onData sopts = Some h -> h data = None)
      /\ nextInput sopts data = Throws e).

(** ** Invariants *)

(** An unsettled request has a pending promise. *)
Definition unsettled_pending (r : Request) : Prop :=
  settled r = false -> responsePromise r = Pending.

(** The settlements still to come: one while [executeRequest] is running or
    its result is queued, none afterwards. *)
Definition may_settle (s : Settling) : nat :=
  if in_flight (pending_request s) then 1
  else match fulfilled s with
       | Some _ => 1
       | None => 0
       end.

(** Job by job: while [executeRequest] is running no result is queued, and
    while it is running or its result is queued the promise is pending and
    [settled] is false. *)
Definition Settling_consistent (s : Settling) : Prop :=
  (in_flight (pending_request s) = true -> fulfilled s = None)
  /\ (in_flight (pending_request s) = true \/ fulfilled s <> None ->
      settled (pending_request s) = false
      /\ responsePromise (pending_request s) = Pending)
  /\ (fulfilled s <> None -> in_flight (pending_request s) = false).

(** A one-shot subscription whose request is in flight has a pending promise. *)
Definition in_flight_pending (o : Once) : Prop :=
  Once_in_flight o = true -> once_promise o = Pending.

(** A retry is pending only while no request of the loop is in flight: the
    loop has a single chain of activations of [exec]. *)
Definition single_chain (l : Loop) : Prop :=
  timer l <> None -> Once_in_flight (cycle l) = false.

(** A result of [executeRequest] that the one-shot subscription passes on:
    data, or an error that is not a reconnect signal. *)
Definition passes_on (lr : LocalResult) : bool :=
  match lr with
  | LOk _ => true
  | LErr err => negb (is_reconnect err)
  end.

(** ** Observations on effects *)

Definition is_hook (e : effect) : bool :=
  match e with
  | HookOnSuccess _ | HookOnError _ => true
  | _ => false
  end.

Definition is_abort (e : effect) : bool :=
  match e with
  | AbortSignal => true
  | _ => false
  end.

(** The promise of [request] settles. *)
Definition is_settle (e : effect) : bool :=
  match e with
  | Resolve _ | Reject _ => true
  | _ => false
  end.

(** The promise of [subscriptionOnce] settles. *)
Definition is_once_settle (e : effect) : bool :=
  match e with
  | OnceResolve _ | OnceReject _ => true
  | _ => false
  end.

(** The settlement that goes with a result of [executeRequest]: [resolve]
    with the data of [{ok: true}], [reject] with the error of [{ok: false}]. *)
Definition settlement_of (lr : LocalResult) : effect :=
  match lr with
  | LOk data => Resolve data
  | LErr error => Reject error
  end.

Definition promise_of (lr : LocalResult) : promise_state value TRPCClientError :=
  match lr with
  | LOk data => Resolved data
  | LErr error => Rejected error
  end.

Definition once_settlement_of (lr : LocalResult) : effect :=
  match lr with
  | LOk data => OnceResolve data
  | LErr error => OnceReject error
  end.



Definition is_fetch (e : effect) : bool :=
  match e with
  | Fetch _ _ => true
  | _ => false
  end.

(** A callback of [subscription] is called. *)
Definition is_subscriber_call (e : effect) : bool :=
  match e with
  | OnData _ | OnError _ => true
  | _ => false
  end.

Definition count (p : effect -> bool) (effs : list effect) : nat :=
  length (List.filter p effs).

(** ** Sample configurations and transport outcomes *)

Definition sample_options : CreateTRPCClientOptions :=
  {| url := "http://localhost/trpc";
     getHeaders := Some {[ "authorization"%string := Some "Bearer t"%string ]};
     onSuccess := Some (fun _ => None);
     onError := Some (fun _ => None);
     opt_transformer := None |}.

(** A client with an abort controller and one without. *)
Definition sample_client : TRPCClient := createTRPCClient sample_options true.
Definition legacy_client : TRPCClient := createTRPCClient sample_options false.

(** A transformer that boxes what it serializes, and a client that uses it
    and supplies two headers. *)
Definition boxing_transformer : DataTransformer :=
  {| serialize := fun data => VObj [("boxed"%string, data)];
     deserialize := fun data => Returns (prop data "boxed") |}.

Definition boxing_client : TRPCClient :=
  createTRPCClient
    {| url := "http://localhost/trpc";
       getHeaders := Some {[ "authorization"%string := Some "Bearer t"%string;
                             "x-trace"%string := None ]};
       onSuccess := None;
       onError := None;
       opt_transformer := Some boxing_transformer |} true.

(** A client whose [getHeaders] supplies a [content-type] of its own. *)
Definition plain_text_client : TRPCClient :=
  createTRPCClient
    {| url := "http://localhost/trpc";
       getHeaders := Some {[ "content-type"%string := Some "text/plain"%string ]};
       onSuccess := None;
       onError := None;
       opt_transformer := None |} true.

Definition success_envelope (data : value) : value :=
  VObj [("ok"%string, VBool true); ("statusCode"%string, VNum 200); ("data"%string, data)].

(** A failure envelope as the server sends it: [statusCode] next to [ok]. *)
Definition failure_envelope (status : Z) (msg : string) : value :=
  VObj [("ok"%string, VBool false); ("statusCode"%string, VNum status);
        ("error"%string, VObj [("message"%string, VStr msg)])].

(** A failure envelope with [statusCode] inside [error] only. *)
Definition nested_failure_envelope (status : Z) (msg : string) : value :=
  VObj [("ok"%string, VBool false);
        ("error"%string, VObj [("message"%string, VStr msg); ("statusCode"%string, VNum status)])].

Definition responds (status : Z) (envelope : value) : fetch_outcome :=
  FetchResolves (Build_Response status (inl envelope)).

Definition network_error : exn :=
  ExnValue (VObj [("name"%string, VStr "TypeError"); ("message"%string, VStr "Failed to fetch")]).

Definition abort_error : exn :=
  ExnValue (VObj [("name"%string, VStr "AbortError"); ("message"%string, VStr "The operation was aborted")]).

(** A subscription whose cursor function throws. *)
Definition cursor_error : exn :=
  ExnValue (VObj [("name"%string, VStr "Error"); ("message"%string, VStr "bad cursor")]).

Definition fragile_subscription : SubscriptionOpts :=
  {| initialInput := VNum 0;
     sub_onError := Some (fun _ => None);
     sub_onData := Some (fun _ => None);
     nextInput := fun _ => Throws cursor_error |}.

(** The client error built from the failure envelope [envelope] received
    with HTTP status [status]. *)
Definition envelope_error (status : Z) (msg : string) (envelope : value) : TRPCClientError :=
  new_TRPCClientError (VStr msg)
    (Some (Build_Response status (inl envelope))) envelope None.

Definition sample_subscription : SubscriptionOpts :=
  {| initialInput := VNum 0;
     sub_onError := Some (fun _ => None);
     sub_onData := Some (fun _ => None);
     nextInput := fun data => match data with
                              | VArr items => Returns (VNum (Z.of_nat (length items)))
                              | _ => Returns VUndef
                              end |}.

(** ** Further observations *)

(** The effects of the success hook on [envelope]. *)
Definition onSuccess_effects (client : TRPCClient) (envelope : value) : list effect :=
  match onSuccess (opts client) with
  | Some _ => [HookOnSuccess envelope]
  | None => []
  end.

Definition is_timeout (e : effect) : bool :=
  match e with
  | SetTimeout _ _ => true
  | _ => false
  end.

(** The delays of the retries scheduled by a list of effects, in order. *)
Fixpoint timeouts (effs : list effect) : list Z :=
  match effs with
  | [] => []
  | SetTimeout ms _ :: rest => ms :: timeouts rest
  | _ :: rest => timeouts rest
  end.

(** No stage and no hook throws an instance of [TRPCClientError]. *)
Definition throws_no_client_error (client : TRPCClient) (fo : fetch_outcome) : Prop :=
  (forall e, stage_failure client fo <> Some (ExnClient e))
  /\ (forall h j e, onSuccess (opts client) = Some h -> h j <> Some (ExnClient e)).

(** [settled] tells whether the promise of [request] is settled, and a
    settled request has no executor running. *)
Definition Request_consistent (r : Request) : Prop :=
  (settled r = true <-> responsePromise r <> Pending)
  /\ (settled r = true -> in_flight r = false).

(** While the loop is not stopped, [currentPromise] refers to the promise of
    the latest cycle. *)
Definition current_while_running (l : Loop) : Prop :=
  stopped l = false -> has_currentPromise l = true.

(** An effect below the subscription loop: anything but a call of its
    callbacks or the scheduling of a retry. *)
Definition below_loop (e : effect) : bool :=
  match e with
  | OnData _ | OnError _ | SetTimeout _ _ => false
  | _ => true
  end.

Definition is_onError (e : effect) : bool :=
  match e with
  | OnError _ => true
  | _ => false
  end.

(** Nothing is pending in the loop: no request in flight, no retry scheduled. *)
Definition Loop_idle (l : Loop) : Prop :=
  Once_in_flight (cycle l) = false /\ timer l = None.

(** [n] rounds of a cycle that is answered by [fo] and the timer firing. *)
Fixpoint failing_rounds (fo : fetch_outcome) (n : nat) : list loop_event :=
  match n with
  | O => []
  | S k => Outcome fo :: TimerFires :: failing_rounds fo k
  end.

(** ** Further sample configurations *)


Definition throwing_onError_client : TRPCClient :=
  createTRPCClient
    {| url := "http://localhost/trpc";
       getHeaders := None;
       onSuccess := None;
       onError := Some (fun _ => Some cursor_error);
       opt_transformer := None |} true.

(** A subscription whose [onError] throws. *)
Definition throwing_onError_subscription : SubscriptionOpts :=
  {| initialInput := VNum 0;
     sub_onError := Some (fun _ => Some cursor_error);
     sub_onData := Some (fun _ => None);
     nextInput := fun data => Returns data |}.

(** A body that is not an envelope, with and without a reconnect status. *)
Definition bare_failure : value := VObj [("ok"%string, VBool false)].


Definition own_client_error : TRPCClientError :=
  new_TRPCClientError (VStr "offline") None VNull None.


(** * Properties *)

(** ** Values and built-ins *)

Example stringify_object :
  stringify (VObj [("id"%string, VNum 1); ("name"%string, VStr "A"); ("skip"%string, VUndef)])
  = Some (String.append "{" (String.append dquote (String.append "id"
      (String.append dquote (String.append ":1," (String.append dquote (String.append "name"
      (String.append dquote (String.append ":" (String.append dquote (String.append "A"
      (String.append dquote "}")))))))))))).
Proof. reflexivity. Qed.

Example percent_encode_object :
  percent_encode (to_text (stringify (VObj [("id"%string, VNum 1)]))) = "%7B%22id%22%3A1%7D"%string.
Proof. reflexivity. Qed.

(** ** Request builder *)

Section BuilderFacts.
Context {platform : Platform}.
Variable client : TRPCClient.

Lemma length_append (s t : string) :
  String.length (s +:+ t) = (String.length s + String.length t)%nat.
Proof. induction s as [|c s IH]; simpl; [reflexivity | now rewrite IH]. Qed.

Lemma append_nonempty_neq (s t : string) : t <> EmptyString -> (s +:+ t)%string <> s.
Proof.
  intros Ht Heq. apply Ht.
  assert (Hlen : String.length (s +:+ t) = String.length s) by (rewrite Heq; reflexivity).
  rewrite length_append in Hlen.
  destruct t; [reflexivity | simpl in Hlen; lia].
Qed.

Lemma append_empty_r (s : string) : (s +:+ EmptyString)%string = s.
Proof.
  induction s as [|c s IH]; [reflexivity |].
  change (String c (s +:+ EmptyString) = String c s). now rewrite IH.
Qed.

Lemma serializeInput_present (input : value) :
  nullish input = false -> serializeInput client input = serialize (transformer client) input.
Proof. destruct input; simpl; intros; congruence || reflexivity. Qed.

Lemma serializeInput_undefined : serializeInput client VUndef = VUndef.
Proof. reflexivity. Qed.

Lemma client_getHeaders_caller (k : string) (v : option string) :
  caller_headers client !! k = Some v -> client_getHeaders client !! k = Some v.
Proof.
  intros Hk. unfold client_getHeaders, spread.
  now apply lookup_union_Some_l.
Qed.

Lemma client_getHeaders_default (k : string) :
  caller_headers client !! k = None ->
  client_getHeaders client !! k
  = ({[ "content-type"%string := Some "application/json"%string ]} : gmap string (option string)) !! k.
Proof.
  intros Hk. unfold client_getHeaders, spread.
  now apply lookup_union_r.
Qed.

(** C7 (amended): for a query the [?input=] parameter is omitted exactly when
    the input is [undefined] or [null]; for every other input the URL is
    base/path followed by [?input=] and the percent-encoded JSON text of the
    transformer-serialized input. *)
Theorem C7_query_param_omitted_iff_nullish (path : string) (input : value) :
  let base := (url (opts client) +:+ "/" +:+ path)%string in
  (ro_url (reqOptsMap client query input path) = base <-> nullish input = true)
  /\ (nullish input = false ->
      ro_url (reqOptsMap client query input path)
      = (base +:+ "?input=" +:+
         encodeURIComponent
           (to_text (JSON_stringify (serialize (transformer client) input))))%string).
Proof.
  intros base. unfold reqOptsMap. cbn [ro_url]. fold base.
  destruct (nullish input) eqn:Hn; cbn [negb].
  - split; [| discriminate].
    split; [reflexivity | intros _; apply append_empty_r].
  - rewrite (serializeInput_present input Hn).
    split; [| reflexivity].
    split; [| discriminate].
    intros Heq. exfalso. revert Heq. apply append_nonempty_neq. discriminate.
Qed.

(** The headers of a request, name by name: what the caller supplies under
    that name if anything, else the default [content-type]. *)
Lemma client_getHeaders_lookup (k : string) :
  client_getHeaders client !! k
  = match (match getHeaders (opts client) with
           | Some h => h !! k
           | None => None
           end) with
    | Some v => Some v
    | None => if String.eqb k "content-type"
              then Some (Some "application/json"%string)
              else None
    end.
Proof.
  assert (Hdefault :
    ({[ "content-type"%string := Some "application/json"%string ]}
       : gmap string (option string)) !! k
    = if String.eqb k "content-type" then Some (Some "application/json"%string) else None).
  { destruct (String.eqb_spec k "content-type") as [-> | Hne].
    - apply lookup_singleton_eq.
    - apply lookup_singleton_ne. congruence. }
  destruct (caller_headers client !! k) as [v|] eqn:Hc.
  - rewrite (client_getHeaders_caller k v Hc).
    unfold caller_headers in Hc. destruct (getHeaders (opts client)) as [h|].
    + now rewrite Hc.
    + rewrite lookup_empty in Hc. discriminate.
  - rewrite (client_getHeaders_default k Hc), Hdefault.
    unfold caller_headers in Hc. destruct (getHeaders (opts client)) as [h|].
    + now rewrite Hc.
    + reflexivity.
Qed.

(** C8 (amended): the request built for a call is the one handed to the
    transport; it uses GET, POST or PATCH by procedure kind; a query has no
    body and carries its input in the URL only (nothing for [undefined] and
    [null]); a mutation or subscription goes to base/path and posts the JSON
    text of the object whose [input] property is the transformer-serialized
    input, the transformer not being called for [undefined]; every header
    name holds what [getHeaders] supplies under it, and where [getHeaders]
    supplies nothing [content-type] is [application/json] and every other
    name is absent. *)
Theorem C8_wire_contract (type : ProcedureType) (path : string) (input : value) :
  let base := (url (opts client) +:+ "/" +:+ path)%string in
  let r := fst (request client type input path) in
  snd (request client type input path) = [Fetch (req_url r) (req_init r)]
  /\ method (req_init r)
     = match type with
       | query => "GET"%string
       | mutation => "POST"%string
       | subscription => "PATCH"%string
       end
  /\ match type with
     | query =>
         body (req_init r) = None
         /\ req_url r
            = (base +:+
               (if nullish input then EmptyString
                else "?input=" +:+
                     encodeURIComponent
                       (to_text (JSON_stringify (serialize (transformer client) input)))))%string
     | _ =>
         req_url r = base
         /\ body (req_init r)
            = JSON_stringify
                (VObj [("input"%string,
                        if defined input then serialize (transformer client) input
                        else VUndef)])
     end
  /\ (forall k,
      headers (req_init r) !! k
      = match (match getHeaders (opts client) with
               | Some h => h !! k
               | None => None
               end) with
        | Some v => Some v
        | None => if String.eqb k "content-type"
                  then Some (Some "application/json"%string)
                  else None
        end).
Proof.
  intros base r. subst r. unfold request. cbn [fst snd req_url req_init method body headers].
  split; [reflexivity |].
  split; [destruct type; reflexivity |].
  split; [| exact client_getHeaders_lookup].
  destruct type; cbn [reqOptsMap ro_body ro_url]; fold base.
  - split; [reflexivity |]. destruct (nullish input) eqn:Hn; cbn [negb]; [reflexivity |].
    now rewrite (serializeInput_present input Hn).
  - split; [reflexivity |]. unfold serializeInput. destruct input; reflexivity.
  - split; [reflexivity |]. unfold serializeInput. destruct input; reflexivity.
Qed.

End BuilderFacts.

(** ** Request executor *)

Section ExecutorFacts.
Variable client : TRPCClient.
Hypothesis Hhooks : hooks_return client.

Lemma call_onError_returns (error : TRPCClientError) :
  call_hook (onError (opts client)) HookOnError error = (onError_effects client error, None).
Proof.
  unfold call_hook, onError_effects. destruct (onError (opts client)) as [h|] eqn:Hh; [| reflexivity].
  now rewrite (proj2 Hhooks h error Hh).
Qed.

Lemma call_onSuccess_returns (j : value) :
  call_hook (onSuccess (opts client)) HookOnSuccess j
  = (match onSuccess (opts client) with Some _ => [HookOnSuccess j] | None => [] end, None).
Proof.
  unfold call_hook. destruct (onSuccess (opts client)) as [h|] eqn:Hh; [| reflexivity].
  now rewrite (proj1 Hhooks h j Hh).
Qed.





(** A failing stage leads straight to the [catch] block, entered with
    [json] still [null]. *)
Lemma executeRequest_stage_failure (fo : fetch_outcome) (e : exn) :
  stage_failure client fo = Some e ->
  executeRequest client fo
  = executeRequest_catch client
      (match fo with FetchRejects _ => None | FetchResolves r => Some r end) VNull [] e.
Proof.
  intros Hs. destruct fo as [x|r]; cbn [executeRequest stage_failure] in *.
  - now inversion Hs.
  - destruct (res_json r) as [rawJson|x]; [| now inversion Hs].
    destruct (deserialize (transformer client) rawJson) as [j|x]; [discriminate |].
    now inversion Hs.
Qed.



(** With hooks that return, one call of [executeRequest] fires at most one
    hook: the success hook on a success envelope, the error hook in the
    [catch] block. *)
Lemma executeRequest_one_hook (fo : fetch_outcome) :
  let effs := fst (executeRequest client fo) in
  effs = [] \/ (exists j, effs = [HookOnSuccess j]) \/ (exists e, effs = [HookOnError e]).
Proof.
  assert (Hcatch : forall r j caught,
             let effs := fst (executeRequest_catch client r j [] caught) in
             effs = [] \/ (exists j, effs = [HookOnSuccess j]) \/ (exists e, effs = [HookOnError e])).
  { intros r j caught. unfold executeRequest_catch.
    destruct caught as [e|v].
    - rewrite call_onError_returns. unfold onError_effects.
      destruct (onError (opts client)); cbn; eauto.
    - destruct (get v "message"); cbn; [| now left].
      rewrite call_onError_returns. unfold onError_effects.
      destruct (onError (opts client)); cbn; eauto. }
  destruct fo as [e|r]; cbn [executeRequest]; [apply Hcatch |].
  destruct (res_json r) as [rawJson|v]; [| apply Hcatch].
  destruct (deserialize (transformer client) rawJson) as [j|e]; [| apply Hcatch].
  destruct (get j "ok") as [ok|e]; [| apply Hcatch].
  destruct (truthy ok).
  - rewrite call_onSuccess_returns. destruct (onSuccess (opts client)); cbn; eauto.
  - destruct (get (prop j "error") "message"); [cbn; now left | apply Hcatch].
Qed.

(** A well-formed failure envelope is returned as an error without any hook
    being called: this path leaves [executeRequest] before the [catch] block. *)
Lemma executeRequest_failure_envelope (r : Response) (rawJson j m : value) :
  res_json r = inl rawJson ->
  deserialize (transformer client) rawJson = Returns j ->
  nullish j = false ->
  truthy (prop j "ok") = false ->
  get (prop j "error") "message" = Returns m ->
  executeRequest client (FetchResolves r)
  = ([], Returns (LErr (new_TRPCClientError m (Some r) j None))).
Proof.
  intros Hr Hd Hn Hok Hm. cbn [executeRequest]. rewrite Hr, Hd.
  unfold get at 1. rewrite Hn, Hok, Hm. reflexivity.
Qed.

End ExecutorFacts.

(** ** Cancellable request *)

Section RequestFacts.
Context {platform : Platform}.
Variable client : TRPCClient.

Lemma count_app (p : effect -> bool) (a b : list effect) :
  count p (a ++ b) = (count p a + count p b)%nat.
Proof. unfold count. now rewrite List.filter_app, List.length_app. Qed.

Lemma count_hooks (p : effect -> bool) (effs : list effect) :
  (forall e, is_hook e = true -> p e = false) ->
  Forall (fun e => is_hook e = true) effs -> count p effs = 0%nat.
Proof.
  intros Hp Hall. unfold count. induction Hall as [|e l He _ IH]; [reflexivity |].
  cbn. now rewrite (Hp e He).
Qed.

Lemma call_hook_effects {A : Type} (hook : option (callback A)) (mark : A -> effect) (arg : A) :
  (forall a, is_hook (mark a) = true) ->
  Forall (fun e => is_hook e = true) (fst (call_hook hook mark arg)).
Proof.
  intros Hm. unfold call_hook. destruct hook; cbn; [| constructor].
  constructor; [apply Hm | constructor].
Qed.

Lemma executeRequest_catch_effects (r : option Response) (j : value) (pre : list effect)
    (caught : exn) :
  Forall (fun e => is_hook e = true) pre ->
  Forall (fun e => is_hook e = true) (fst (executeRequest_catch client r j pre caught)).
Proof.
  intros Hpre. unfold executeRequest_catch.
  set (w := match caught with
            | ExnClient e => Returns e
            | ExnValue v => _
            end).
  destruct w as [error|t]; [| exact Hpre].
  pose proof (call_hook_effects (onError (opts client)) HookOnError error (fun _ => eq_refl)) as Hc.
  destruct (call_hook (onError (opts client)) HookOnError error) as [effs [t|]];
    cbn in *; apply Forall_app; split; assumption.
Qed.

(** [executeRequest] performs hook calls only. *)
Lemma executeRequest_effects_hooks (fo : fetch_outcome) :
  Forall (fun e => is_hook e = true) (fst (executeRequest client fo)).
Proof.
  destruct fo as [e|r]; cbn [executeRequest].
  { apply executeRequest_catch_effects. constructor. }
  destruct (res_json r) as [rawJson|v]; [| apply executeRequest_catch_effects; constructor].
  destruct (deserialize (transformer client) rawJson) as [j|e];
    [| apply executeRequest_catch_effects; constructor].
  destruct (get j "ok") as [ok|e]; [| apply executeRequest_catch_effects; constructor].
  destruct (truthy ok).
  - pose proof (call_hook_effects (onSuccess (opts client)) HookOnSuccess j (fun _ => eq_refl)) as Hc.
    destruct (call_hook (onSuccess (opts client)) HookOnSuccess j) as [effs [t|]]; cbn in *.
    + now apply executeRequest_catch_effects.
    + exact Hc.
  - destruct (get (prop j "error") "message");
      [constructor | apply executeRequest_catch_effects; constructor].
Qed.

(** A failing fetch or body never yields [{ok: true}], whatever the hooks do. *)
Lemma executeRequest_fetch_fails (fo : fetch_outcome) :
  fetch_fails fo = true ->
  forall effs data, executeRequest client fo <> (effs, Returns (LOk data)).
Proof.
  assert (Hcatch : forall r j pre caught effs data,
             executeRequest_catch client r j pre caught <> (effs, Returns (LOk data))).
  { intros r j pre caught effs data. unfold executeRequest_catch.
    set (w := match caught with
              | ExnClient e => Returns e
              | ExnValue v => _
              end).
    destruct w as [error|t]; [| intros Heq; inversion Heq].
    destruct (call_hook (onError (opts client)) HookOnError error) as [effs' [t|]];
      intros Heq; inversion Heq. }
  intros Hf effs data. destruct fo as [e|r]; cbn [executeRequest fetch_fails] in *; [apply Hcatch |].
  destruct (res_json r) as [rawJson|v]; [discriminate | apply Hcatch].
Qed.

(** *** One step *)

Lemma Request_cancel_settled (r : Request) :
  settled r = true -> Request_cancel r = (r, []).
Proof. intros Hs. unfold Request_cancel. now rewrite Hs. Qed.

Lemma Request_cancel_unsettled (r : Request) :
  settled r = false ->
  Request_cancel r
  = ({| req_url := req_url r; req_init := req_init r; ac := fst (abort (ac r));
        aborted := true; settled := false; in_flight := in_flight r;
        responsePromise := responsePromise r |}, snd (abort (ac r))).
Proof.
  intros Hs. unfold Request_cancel. rewrite Hs. now destruct (abort (ac r)).
Qed.

Lemma Request_cancel_idempotent (r : Request) :
  Request_cancel (fst (Request_cancel r)) = (fst (Request_cancel r), []).
Proof.
  destruct (settled r) eqn:Hs.
  - rewrite (Request_cancel_settled r Hs). cbn. now apply Request_cancel_settled.
  - rewrite (Request_cancel_unsettled r Hs). cbn [fst].
    rewrite Request_cancel_unsettled by reflexivity. cbn.
    destruct (ac r) as [[|]|]; reflexivity.
Qed.

(** What a step does to the variables of the request. *)
Lemma Request_step_settled (r : Request) (ev : request_event) :
  settled r = true -> in_flight r = false -> Request_step client r ev = (r, []).
Proof.
  intros Hs Hf. destruct ev as [fo|]; cbn.
  - unfold Request_outcome, Request_executed. now rewrite Hf.
  - now apply Request_cancel_settled.
Qed.

Lemma Request_outcome_idle (r : Request) (fo : fetch_outcome) :
  in_flight r = false -> Request_outcome client r fo = (r, [], None).
Proof. intros Hf. unfold Request_outcome, Request_executed. now rewrite Hf. Qed.

(** The shape of a delivery to a request in flight. *)
Lemma Request_outcome_in_flight (r : Request) (fo : fetch_outcome) :
  in_flight r = true ->
  exists heffs,
    Forall (fun e => is_hook e = true) heffs
    /\ ((exists t, executeRequest client fo = (heffs, Throws t)
         /\ Request_outcome client r fo
            = (Request_finished r (settled r) (responsePromise r), heffs, None))
        \/ (exists data, executeRequest client fo = (heffs, Returns (LOk data))
            /\ Request_outcome client r fo
               = (Request_finished r true (Resolved data),
                  heffs ++ [Resolve data], Some (inl data)))
        \/ (exists error, executeRequest client fo = (heffs, Returns (LErr error))
            /\ Request_outcome client r fo
               = (Request_finished r true (Rejected error),
                  heffs ++ [Reject error], Some (inr error)))).
Proof.
  intros Hf. unfold Request_outcome, Request_executed, Request_then. rewrite Hf.
  pose proof (executeRequest_effects_hooks fo) as Hh.
  destruct (executeRequest client fo) as [heffs [[data|error]|t]]; cbn in Hh;
    exists heffs; (split; [exact Hh |]); eauto 6.
Qed.

(** Case analysis on the delivery of [fo] to [r]. *)
Ltac outcome_cases r fo :=
  let Hf := fresh "Hflight" in
  let heffs := fresh "heffs" in
  let Hh := fresh "Hhooks" in
  let He := fresh "Hexec" in
  let Hr := fresh "Hout" in
  destruct (in_flight r) eqn:Hf;
  [ destruct (Request_outcome_in_flight r fo Hf)
      as (heffs & Hh & [(? & He & Hr) | [(? & He & Hr) | (? & He & Hr)]])
  | pose proof (Request_outcome_idle r fo Hf) as Hr ];
  cbn [Request_step]; rewrite Hr; unfold Request_finished; cbn [fst snd].

Lemma count_hooks_abort (effs : list effect) :
  Forall (fun e => is_hook e = true) effs -> count is_abort effs = 0%nat.
Proof. apply count_hooks. now intros []. Qed.

Lemma count_hooks_settle (effs : list effect) :
  Forall (fun e => is_hook e = true) effs -> count is_settle effs = 0%nat.
Proof. apply count_hooks. now intros []. Qed.

Lemma Request_step_raised (r : Request) (ev : request_event) :
  ac r = Some true ->
  ac (fst (Request_step client r ev)) = Some true
  /\ count is_abort (snd (Request_step client r ev)) = 0%nat.
Proof.
  intros Hac. destruct ev as [fo|].
  - outcome_cases r fo; cbn [ac]; (split; [exact Hac |]);
      rewrite ?count_app, ?count_hooks_abort by assumption; reflexivity.
  - cbn [Request_step]. destruct (settled r) eqn:Hs.
    + rewrite Request_cancel_settled by assumption. now split.
    + rewrite Request_cancel_unsettled by assumption. rewrite Hac. now split.
Qed.

Lemma Request_step_abort_count (r : Request) (ev : request_event) :
  ac r = Some false ->
  (ac (fst (Request_step client r ev)) = Some false
   /\ count is_abort (snd (Request_step client r ev)) = 0%nat)
  \/ (ac (fst (Request_step client r ev)) = Some true
      /\ count is_abort (snd (Request_step client r ev)) = 1%nat).
Proof.
  intros Hac. destruct ev as [fo|].
  - left. outcome_cases r fo; cbn [ac]; (split; [exact Hac |]);
      rewrite ?count_app, ?count_hooks_abort by assumption; reflexivity.
  - cbn [Request_step]. destruct (settled r) eqn:Hs.
    + rewrite Request_cancel_settled by assumption. left. now split.
    + rewrite Request_cancel_unsettled by assumption. rewrite Hac. right. now split.
Qed.

Lemma Request_step_aborted (r : Request) (ev : request_event) :
  aborted r = true -> aborted (fst (Request_step client r ev)) = true.
Proof.
  intros Ha. destruct ev as [fo|].
  - outcome_cases r fo; exact Ha.
  - cbn [Request_step]. destruct (settled r) eqn:Hs.
    + now rewrite Request_cancel_settled.
    + now rewrite Request_cancel_unsettled.
Qed.

Lemma Request_step_unsettled_pending (r : Request) (ev : request_event) :
  unsettled_pending r -> unsettled_pending (fst (Request_step client r ev)).
Proof.
  unfold unsettled_pending. intros Hinv. destruct ev as [fo|].
  - outcome_cases r fo; cbn [settled responsePromise]; (assumption || discriminate).
  - cbn [Request_step]. destruct (settled r) eqn:Hs.
    + rewrite Request_cancel_settled by assumption. cbn. congruence.
    + rewrite Request_cancel_unsettled by assumption. cbn. auto.
Qed.

Lemma Request_step_not_resolved (r : Request) (ev : request_event) :
  ac r = Some true ->
  (forall d, responsePromise r <> Resolved d) ->
  match ev with
  | ReqOutcome fo => ac r = Some true -> in_flight r = true -> fetch_fails fo = true
  | ReqCancel => True
  end ->
  forall d, responsePromise (fst (Request_step client r ev)) <> Resolved d.
Proof.
  intros Hac Hnr Hhon. destruct ev as [fo|].
  - outcome_cases r fo; cbn [responsePromise]; try assumption.
    + exfalso. eapply executeRequest_fetch_fails; [now apply Hhon | eassumption].
    + discriminate.
  - cbn [Request_step]. destruct (settled r) eqn:Hs.
    + now rewrite Request_cancel_settled.
    + now rewrite Request_cancel_unsettled.
Qed.

(** *** Runs *)

Lemma Request_run_cons (r : Request) (ev : request_event) (evs : list request_event) :
  Request_run client r (ev :: evs)
  = (fst (Request_run client (fst (Request_step client r ev)) evs),
     snd (Request_step client r ev)
     ++ snd (Request_run client (fst (Request_step client r ev)) evs)).
Proof.
  cbn [Request_run]. destruct (Request_step client r ev) as [r1 e1].
  cbn [fst snd]. now destruct (Request_run client r1 evs).
Qed.

Lemma Request_run_app (r : Request) (a b : list request_event) :
  Request_run client r (a ++ b)
  = (fst (Request_run client (fst (Request_run client r a)) b),
     snd (Request_run client r a)
     ++ snd (Request_run client (fst (Request_run client r a)) b)).
Proof.
  revert r. induction a as [|ev a IH]; intros r.
  - cbn [app Request_run fst snd]. now destruct (Request_run client r b).
  - rewrite <- app_comm_cons, !Request_run_cons, IH. cbn [fst snd]. now rewrite app_assoc.
Qed.

Lemma Request_run_settled (r : Request) (evs : list request_event) :
  settled r = true -> in_flight r = false -> Request_run client r evs = (r, []).
Proof.
  intros Hs Hf. induction evs as [|ev evs IH]; [reflexivity |].
  rewrite Request_run_cons, (Request_step_settled r ev Hs Hf). cbn [fst snd]. now rewrite IH.
Qed.

Lemma Request_run_raised (r : Request) (evs : list request_event) :
  ac r = Some true ->
  ac (fst (Request_run client r evs)) = Some true
  /\ count is_abort (snd (Request_run client r evs)) = 0%nat.
Proof.
  revert r. induction evs as [|ev evs IH]; intros r Hac; [now split |].
  rewrite Request_run_cons. cbn [fst snd].
  destruct (Request_step_raised r ev Hac) as [Hac1 Hc1].
  destruct (IH _ Hac1) as [Hac2 Hc2].
  split; [exact Hac2 |]. rewrite count_app. lia.
Qed.

Lemma Request_run_abort_count (r : Request) (evs : list request_event) :
  ac r = Some false ->
  (ac (fst (Request_run client r evs)) = Some false
   /\ count is_abort (snd (Request_run client r evs)) = 0%nat)
  \/ (ac (fst (Request_run client r evs)) = Some true
      /\ count is_abort (snd (Request_run client r evs)) = 1%nat).
Proof.
  revert r. induction evs as [|ev evs IH]; intros r Hac; [left; now split |].
  rewrite Request_run_cons. cbn [fst snd]. rewrite count_app.
  destruct (Request_step_abort_count r ev Hac) as [[Hac1 Hc1] | [Hac1 Hc1]].
  - destruct (IH _ Hac1) as [[Hac2 Hc2] | [Hac2 Hc2]]; [left | right]; split; (assumption || lia).
  - destruct (Request_run_raised _ evs Hac1) as [Hac2 Hc2]. right. split; (assumption || lia).
Qed.

Lemma Request_run_aborted (r : Request) (evs : list request_event) :
  aborted r = true -> aborted (fst (Request_run client r evs)) = true.
Proof.
  revert r. induction evs as [|ev evs IH]; intros r Ha; [exact Ha |].
  rewrite Request_run_cons. cbn [fst]. apply IH. now apply Request_step_aborted.
Qed.

Lemma Request_run_unsettled_pending (r : Request) (evs : list request_event) :
  unsettled_pending r -> unsettled_pending (fst (Request_run client r evs)).
Proof.
  revert r. induction evs as [|ev evs IH]; intros r Hinv; [exact Hinv |].
  rewrite Request_run_cons. cbn [fst]. apply IH. now apply Request_step_unsettled_pending.
Qed.

Lemma Request_run_not_resolved (r : Request) (evs : list request_event) :
  ac r = Some true ->
  (forall d, responsePromise r <> Resolved d) ->
  honours_abort client r evs ->
  forall d, responsePromise (fst (Request_run client r evs)) <> Resolved d.
Proof.
  revert r. induction evs as [|ev evs IH]; intros r Hac Hnr Hhon; [exact Hnr |].
  rewrite Request_run_cons. cbn [fst]. destruct Hhon as [Hev Hrest].
  apply IH; [apply Request_step_raised, Hac | | exact Hrest].
  now apply Request_step_not_resolved.
Qed.

Lemma honours_abort_app (r : Request) (a b : list request_event) :
  honours_abort client r (a ++ b) ->
  honours_abort client (fst (Request_run client r a)) b.
Proof.
  revert r. induction a as [|ev a IH]; intros r Hhon; [exact Hhon |].
  rewrite Request_run_cons. cbn [fst]. apply IH. exact (proj2 Hhon).
Qed.

Lemma request_initial (type : ProcedureType) (input : value) (path : string) :
  let r0 := fst (request client type input path) in
  ac r0 = (if AC client then Some false else None)
  /\ settled r0 = false /\ in_flight r0 = true /\ aborted r0 = false
  /\ responsePromise r0 = Pending.
Proof. cbn. repeat split. Qed.

(** *** Settlement of the promise *)

Lemma abort_effects_not_settle (a : option bool) (p : effect -> bool) :
  p AbortSignal = false -> count p (snd (abort a)) = 0%nat.
Proof. intros Hp. destruct a as [[|]|]; cbn; [reflexivity | | reflexivity]. unfold count. cbn. now rewrite Hp. Qed.

Lemma Request_cancel_shape (r : Request) (p : effect -> bool) :
  p AbortSignal = false ->
  in_flight (fst (Request_cancel r)) = in_flight r
  /\ settled (fst (Request_cancel r)) = settled r
  /\ responsePromise (fst (Request_cancel r)) = responsePromise r
  /\ count p (snd (Request_cancel r)) = 0%nat.
Proof.
  intros Hp. destruct (settled r) eqn:Hs.
  - rewrite Request_cancel_settled by assumption. cbn. now rewrite Hs.
  - rewrite Request_cancel_unsettled by assumption. cbn [fst snd in_flight settled responsePromise].
    repeat split. now apply abort_effects_not_settle.
Qed.

Lemma Request_step_settle_idle (r : Request) (ev : request_event) :
  in_flight r = false ->
  in_flight (fst (Request_step client r ev)) = false
  /\ count is_settle (snd (Request_step client r ev)) = 0%nat.
Proof.
  intros Hf. destruct ev as [fo|]; cbn [Request_step].
  - rewrite Request_outcome_idle by assumption. now split.
  - destruct (Request_cancel_shape r is_settle eq_refl) as (Hi & _ & _ & Hc).
    rewrite Hi. now split.
Qed.

Lemma Request_run_settle_idle (r : Request) (evs : list request_event) :
  in_flight r = false ->
  in_flight (fst (Request_run client r evs)) = false
  /\ count is_settle (snd (Request_run client r evs)) = 0%nat.
Proof.
  revert r. induction evs as [|ev evs IH]; intros r Hf; [now split |].
  rewrite Request_run_cons. cbn [fst snd]. rewrite count_app.
  destruct (Request_step_settle_idle r ev Hf) as [Hf1 Hc1].
  destruct (IH _ Hf1) as [Hf2 Hc2]. split; [assumption | lia].
Qed.

Lemma Request_step_settle_count (r : Request) (ev : request_event) :
  (count is_settle (snd (Request_step client r ev)) <= 1)%nat
  /\ (in_flight (fst (Request_step client r ev)) = true ->
      count is_settle (snd (Request_step client r ev)) = 0%nat).
Proof.
  destruct ev as [fo|].
  - outcome_cases r fo; cbn [in_flight];
      rewrite ?count_app, ?count_hooks_settle by assumption; cbn;
      (split; [lia | (discriminate || reflexivity)]).
  - cbn [Request_step]. destruct (Request_cancel_shape r is_settle eq_refl) as (_ & _ & _ & Hc).
    rewrite Hc. split; [lia | reflexivity].
Qed.

Lemma Request_run_settle_count (r : Request) (evs : list request_event) :
  (count is_settle (snd (Request_run client r evs)) <= 1)%nat
  /\ (in_flight (fst (Request_run client r evs)) = true ->
      count is_settle (snd (Request_run client r evs)) = 0%nat).
Proof.
  revert r. induction evs as [|ev evs IH]; intros r; [cbn; split; [lia | reflexivity] |].
  rewrite Request_run_cons. cbn [fst snd]. rewrite count_app.
  destruct (Request_step_settle_count r ev) as [Hle Hzero].
  destruct (in_flight (fst (Request_step client r ev))) eqn:Hf1.
  - rewrite (Hzero eq_refl). destruct (IH (fst (Request_step client r ev))) as [Hle2 Hz2].
    split; [lia | intros Hf2; rewrite (Hz2 Hf2); reflexivity].
  - destruct (Request_run_settle_idle _ evs Hf1) as [Hf2 Hc2]. rewrite Hc2, Hf2.
    split; [lia | discriminate].
Qed.

Lemma Request_run_settles_once (r : Request) (pre post : list request_event)
    (fo : fetch_outcome) (heffs : list effect) (lr : LocalResult) :
  in_flight (fst (Request_run client r pre)) = true ->
  executeRequest client fo = (heffs, Returns lr) ->
  count is_settle (snd (Request_run client r (pre ++ ReqOutcome fo :: post))) = 1%nat.
Proof.
  intros Hf Hexec. rewrite Request_run_app, Request_run_cons. cbn [fst snd].
  rewrite !count_app. rewrite (proj2 (Request_run_settle_count r pre) Hf).
  set (r1 := fst (Request_run client r pre)) in *.
  assert (Hstep : in_flight (fst (Request_step client r1 (ReqOutcome fo))) = false
                  /\ count is_settle (snd (Request_step client r1 (ReqOutcome fo))) = 1%nat).
  { cbn [Request_step].
    destruct (Request_outcome_in_flight r1 fo Hf)
      as (h & Hh & [(t & He & Hr) | [(d & He & Hr) | (e & He & Hr)]]);
      rewrite Hexec in He; inversion He; subst; rewrite Hr; cbn [fst snd];
      (split; [reflexivity |]); rewrite count_app, count_hooks_settle by assumption;
      reflexivity. }
  destruct Hstep as [Hf1 Hc1]. rewrite Hc1.
  rewrite (proj2 (Request_run_settle_idle _ post Hf1)). reflexivity.
Qed.

(** *** Further invariants of a request *)

Lemma Request_step_consistent (r : Request) (ev : request_event) :
  Request_consistent r -> Request_consistent (fst (Request_step client r ev)).
Proof.
  unfold Request_consistent. intros [Hiff Hidle]. destruct ev as [fo|].
  - outcome_cases r fo; cbn [settled responsePromise in_flight].
    + split; [exact Hiff | intros _; reflexivity].
    + split; [split; intros _; (discriminate || reflexivity) | intros _; reflexivity].
    + split; [split; intros _; (discriminate || reflexivity) | intros _; reflexivity].
    + split; [exact Hiff | intros _; (assumption || reflexivity)].
  - cbn [Request_step]. destruct (Request_cancel_shape r is_settle eq_refl) as (Hi & Hs & Hp & _).
    rewrite Hi, Hs, Hp. split; assumption.
Qed.

Lemma Request_run_consistent (r : Request) (evs : list request_event) :
  Request_consistent r -> Request_consistent (fst (Request_run client r evs)).
Proof.
  revert r. induction evs as [|ev evs IH]; intros r Hinv; [exact Hinv |].
  rewrite Request_run_cons. cbn [fst]. apply IH. now apply Request_step_consistent.
Qed.

Lemma request_consistent (type : ProcedureType) (input : value) (path : string) :
  Request_consistent (fst (request client type input path)).
Proof.
  unfold Request_consistent. cbn. split; [split |]; intros Hx; (discriminate || congruence).
Qed.

(** In every state a request can reach, [settled] is true exactly when its
    promise is no longer pending, and then nothing is in flight. *)
Theorem settled_flag_tracks_promise (type : ProcedureType) (input : value) (path : string)
    (evs : list request_event) :
  Request_consistent (fst (Request_run client (fst (request client type input path)) evs)).
Proof. apply Request_run_consistent, request_consistent. Qed.

(** Once a request has settled, no cancel and no late outcome changes it or
    has any effect. *)
Theorem settled_request_is_inert (type : ProcedureType) (input : value) (path : string)
    (pre post : list request_event) :
  settled (fst (Request_run client (fst (request client type input path)) pre)) = true ->
  Request_run client (fst (Request_run client (fst (request client type input path)) pre)) post
  = (fst (Request_run client (fst (request client type input path)) pre), []).
Proof.
  intros Hs. apply Request_run_settled; [exact Hs |].
  exact (proj2 (Request_run_consistent _ pre (request_consistent type input path)) Hs).
Qed.

Lemma Request_step_no_controller (r : Request) (ev : request_event) :
  ac r = None ->
  ac (fst (Request_step client r ev)) = None
  /\ count is_abort (snd (Request_step client r ev)) = 0%nat.
Proof.
  intros Hac. destruct ev as [fo|].
  - outcome_cases r fo; cbn [ac]; (split; [exact Hac |]);
      rewrite ?count_app, ?count_hooks_abort by assumption; reflexivity.
  - cbn [Request_step]. destruct (settled r) eqn:Hs.
    + rewrite Request_cancel_settled by assumption. now split.
    + rewrite Request_cancel_unsettled by assumption. rewrite Hac. now split.
Qed.

Lemma Request_run_no_controller (r : Request) (evs : list request_event) :
  ac r = None ->
  ac (fst (Request_run client r evs)) = None
  /\ count is_abort (snd (Request_run client r evs)) = 0%nat.
Proof.
  revert r. induction evs as [|ev evs IH]; intros r Hac; [now split |].
  rewrite Request_run_cons. cbn [fst snd].
  destruct (Request_step_no_controller r ev Hac) as [Hac1 Hc1].
  destruct (IH _ Hac1) as [Hac2 Hc2].
  split; [exact Hac2 |]. rewrite count_app. lia.
Qed.

(** Over the whole life of a request the abort signal is raised at most
    once; on a client without abort controller the request carries no signal
    and [cancel] never raises one, although it still marks an unsettled
    request as aborted. *)
Theorem abort_signal_at_most_once (type : ProcedureType) (input : value) (path : string)
    (evs : list request_event) :
  let r0 := fst (request client type input path) in
  (count is_abort (snd (Request_run client r0 evs)) <= 1)%nat
  /\ (AC client = false ->
      signal (req_init r0) = false
      /\ count is_abort (snd (Request_run client r0 evs)) = 0%nat
      /\ aborted (fst (Request_cancel r0)) = true).
Proof.
  intros r0. destruct (request_initial type input path) as (Hac0 & Hs0 & _).
  fold r0 in Hac0, Hs0. destruct (AC client) eqn:HAC.
  - split; [| discriminate].
    destruct (Request_run_abort_count r0 evs Hac0) as [[_ Hc] | [_ Hc]]; rewrite Hc; lia.
  - destruct (Request_run_no_controller r0 evs Hac0) as [_ Hc]. rewrite Hc.
    split; [lia |]. intros _. split; [| split; [reflexivity |]].
    + subst r0. cbn. exact HAC.
    + rewrite (Request_cancel_unsettled r0 Hs0). reflexivity.
Qed.

Lemma Request_run_idle_promise (r : Request) (evs : list request_event) :
  in_flight r = false ->
  responsePromise (fst (Request_run client r evs)) = responsePromise r
  /\ settled (fst (Request_run client r evs)) = settled r.
Proof.
  revert r. induction evs as [|ev evs IH]; intros r Hf; [now split |].
  rewrite Request_run_cons. cbn [fst].
  assert (Hstep : in_flight (fst (Request_step client r ev)) = false
                  /\ responsePromise (fst (Request_step client r ev)) = responsePromise r
                  /\ settled (fst (Request_step client r ev)) = settled r).
  { destruct ev as [fo|]; cbn [Request_step].
    - rewrite Request_outcome_idle by assumption. now repeat split.
    - destruct (Request_cancel_shape r is_settle eq_refl) as (Hi & Hs & Hp & _).
      rewrite Hi, Hs, Hp. now repeat split. }
  destruct Hstep as (Hf1 & Hp1 & Hs1). destruct (IH _ Hf1) as [Hp2 Hs2].
  split; congruence.
Qed.

(** [cancel] alone settles nothing: however often it is called, the promise
    stays pending until the transport delivers an outcome. *)
Theorem cancel_alone_never_settles (type : ProcedureType) (input : value) (path : string)
    (n : nat) :
  let run := Request_run client (fst (request client type input path)) (repeat ReqCancel n) in
  responsePromise (fst run) = Pending
  /\ settled (fst run) = false
  /\ in_flight (fst run) = true
  /\ count is_settle (snd run) = 0%nat.
Proof.
  intros run. subst run.
  assert (Hgen : forall r, responsePromise r = Pending -> settled r = false ->
                           in_flight r = true ->
                           responsePromise (fst (Request_run client r (repeat ReqCancel n))) = Pending
                           /\ settled (fst (Request_run client r (repeat ReqCancel n))) = false
                           /\ in_flight (fst (Request_run client r (repeat ReqCancel n))) = true
                           /\ count is_settle (snd (Request_run client r (repeat ReqCancel n))) = 0%nat).
  { induction n as [|n IH]; intros r Hp Hs Hf; [now repeat split |].
    cbn [repeat]. rewrite Request_run_cons. cbn [fst snd Request_step].
    destruct (Request_cancel_shape r is_settle eq_refl) as (Hi & Hs' & Hp' & Hc).
    rewrite count_app, Hc. apply IH; congruence. }
  apply Hgen; reflexivity.
Qed.

(** *** When [executeRequest] throws *)

Lemma Request_run_executor_throws (type : ProcedureType) (input : value) (path : string)
    (fo : fetch_outcome) (effs : list effect) (t : exn) (post : list request_event) :
  executeRequest client fo = (effs, Throws t) ->
  let run := Request_run client (fst (request client type input path)) (ReqOutcome fo :: post) in
  responsePromise (fst run) = Pending
  /\ settled (fst run) = false
  /\ count is_settle (snd run) = 0%nat.
Proof.
  intros Hexec run. subst run. rewrite Request_run_cons. cbn [fst snd Request_step].
  destruct (Request_outcome_in_flight (fst (request client type input path)) fo eq_refl)
    as (heffs & Hh & [(x & He & Hr) | [(x & He & Hr) | (x & He & Hr)]]);
    rewrite Hexec in He; inversion He; subst.
  rewrite Hr. cbn [fst snd].
  destruct (Request_run_idle_promise
              (Request_finished (fst (request client type input path)) false Pending) post
              eq_refl) as [Hp Hs].
  destruct (Request_run_settle_idle
              (Request_finished (fst (request client type input path)) false Pending) post
              eq_refl) as [_ Hc].
  cbn [request fst settled responsePromise] in *.
  rewrite Hp, Hs, count_app, Hc, count_hooks_settle by assumption. repeat split.
Qed.

(** When the transport, the body parser or the transformer throws [undefined]
    or [null], reading [message] in the [catch] block throws: no hook is
    called, [executeRequest] throws, and the promise returned by [request] is
    never settled. *)
Theorem nullish_rejection_never_settles (type : ProcedureType) (input : value) (path : string)
    (fo : fetch_outcome) (v : value) (post : list request_event) :
  stage_failure client fo = Some (ExnValue v) ->
  nullish v = true ->
  (exists t, executeRequest client fo = ([], Throws t))
  /\ responsePromise
       (fst (Request_run client (fst (request client type input path)) (ReqOutcome fo :: post)))
     = Pending
  /\ count is_settle
       (snd (Request_run client (fst (request client type input path)) (ReqOutcome fo :: post)))
     = 0%nat.
Proof.
  intros Hs Hn.
  assert (Hexec : executeRequest client fo
                  = ([], Throws (ExnValue (TypeError "Cannot read properties of undefined or null")))).
  { rewrite (executeRequest_stage_failure client fo _ Hs). unfold executeRequest_catch, get.
    now rewrite Hn. }
  split; [eauto |].
  destruct (Request_run_executor_throws type input path fo _ _ post Hexec) as (Hp & _ & Hc).
  split; assumption.
Qed.

(** When the error hook throws, the error is lost: [executeRequest] throws
    what the hook threw, and the promise returned by [request] is never
    settled. *)
Theorem throwing_onError_never_settles (type : ProcedureType) (input : value) (path : string)
    (fo : fetch_outcome) (v : value) (h : callback TRPCClientError) (t : exn)
    (post : list request_event) :
  stage_failure client fo = Some (ExnValue v) ->
  nullish v = false ->
  onError (opts client) = Some h ->
  (forall err, h err = Some t) ->
  (exists err, executeRequest client fo = ([HookOnError err], Throws t))
  /\ responsePromise
       (fst (Request_run client (fst (request client type input path)) (ReqOutcome fo :: post)))
     = Pending
  /\ count is_settle
       (snd (Request_run client (fst (request client type input path)) (ReqOutcome fo :: post)))
     = 0%nat.
Proof.
  intros Hs Hn Hh Hthrow.
  assert (Hexec : exists err, executeRequest client fo = ([HookOnError err], Throws t)).
  { rewrite (executeRequest_stage_failure client fo _ Hs). unfold executeRequest_catch, get.
    rewrite Hn. unfold call_hook. rewrite Hh, Hthrow. eauto. }
  split; [exact Hexec |]. destruct Hexec as [err Hexec].
  destruct (Request_run_executor_throws type input path fo _ _ post Hexec) as (Hp & _ & Hc).
  split; assumption.
Qed.

(** *** The promise of a request, job by job *)

Lemma Settling_step_delivered_idle (s : Settling) (fo : fetch_outcome) :
  in_flight (pending_request s) = false -> Settling_step client s (Delivered fo) = (s, []).
Proof. intros Hf. cbn [Settling_step]. now rewrite Hf. Qed.

Lemma Settling_step_delivered (s : Settling) (fo : fetch_outcome) :
  in_flight (pending_request s) = true ->
  exists heffs result,
    Forall (fun e => is_hook e = true) heffs
    /\ Settling_step client s (Delivered fo)
       = ({| pending_request :=
               Request_finished (pending_request s) (settled (pending_request s))
                 (responsePromise (pending_request s));
             fulfilled := result |}, heffs)
    /\ match result with
       | Some lr => executeRequest client fo = (heffs, Returns lr)
       | None => exists t, executeRequest client fo = (heffs, Throws t)
       end.
Proof.
  intros Hf. cbn [Settling_step]. rewrite Hf. unfold Request_executed. rewrite Hf.
  pose proof (executeRequest_effects_hooks fo) as Hh.
  destruct (executeRequest client fo) as [heffs [lr|t]]; cbn in Hh.
  - exists heffs, (Some lr). repeat split; auto.
  - exists heffs, None. repeat split; eauto.
Qed.

Lemma Settling_step_then (s : Settling) (lr : LocalResult) :
  fulfilled s = Some lr ->
  Settling_step client s ThenJob
  = ({| pending_request := Request_finished (pending_request s) true (promise_of lr);
        fulfilled := None |}, [settlement_of lr]).
Proof. intros Hf. cbn [Settling_step]. rewrite Hf. destruct lr; reflexivity. Qed.

Lemma Settling_step_then_idle (s : Settling) :
  fulfilled s = None -> Settling_step client s ThenJob = (s, []).
Proof. intros Hf. cbn [Settling_step]. now rewrite Hf. Qed.

Lemma Settling_step_cancel (s : Settling) :
  Settling_step client s CancelCall
  = ({| pending_request := fst (Request_cancel (pending_request s));
        fulfilled := fulfilled s |}, snd (Request_cancel (pending_request s))).
Proof. cbn [Settling_step]. now destruct (Request_cancel (pending_request s)). Qed.

(** Case analysis on one job. *)
Ltac settling_cases s ev :=
  let fo := fresh "fo" in
  let Hf := fresh "Hflight" in
  let heffs := fresh "heffs" in
  let result := fresh "result" in
  let Hh := fresh "Hhooks" in
  let He := fresh "Hexec" in
  let Hful := fresh "Hful" in
  let lr := fresh "lr" in
  let Hstep := fresh "Hstep" in
  destruct ev as [fo| |];
  [ destruct (in_flight (pending_request s)) eqn:Hf;
    [ destruct (Settling_step_delivered s fo Hf) as (heffs & result & Hh & Hstep & He)
    | pose proof (Settling_step_delivered_idle s fo Hf) as Hstep ]
  | destruct (fulfilled s) as [lr|] eqn:Hful;
    [ pose proof (Settling_step_then s lr Hful) as Hstep
    | pose proof (Settling_step_then_idle s Hful) as Hstep ]
  | pose proof (Settling_step_cancel s) as Hstep ];
  rewrite Hstep; cbn [fst snd pending_request fulfilled].

Lemma Settling_run_cons (s : Settling) (ev : settling_event) (evs : list settling_event) :
  Settling_run client s (ev :: evs)
  = (fst (Settling_run client (fst (Settling_step client s ev)) evs),
     snd (Settling_step client s ev)
     ++ snd (Settling_run client (fst (Settling_step client s ev)) evs)).
Proof.
  cbn [Settling_run]. destruct (Settling_step client s ev) as [s1 e1].
  cbn [fst snd]. now destruct (Settling_run client s1 evs).
Qed.

Lemma Settling_run_app (s : Settling) (a b : list settling_event) :
  Settling_run client s (a ++ b)
  = (fst (Settling_run client (fst (Settling_run client s a)) b),
     snd (Settling_run client s a)
     ++ snd (Settling_run client (fst (Settling_run client s a)) b)).
Proof.
  revert s. induction a as [|ev a IH]; intros s.
  - cbn [app Settling_run fst snd]. now destruct (Settling_run client s b).
  - rewrite <- app_comm_cons, !Settling_run_cons, IH. cbn [fst snd]. now rewrite app_assoc.
Qed.








(** Invariant of the two jobs. *)
Lemma Settling_step_consistent (s : Settling) (ev : settling_event) :
  Settling_consistent s -> Settling_consistent (fst (Settling_step client s ev)).
Proof.
  intros Hinv. destruct ev as [fo| |].
  - destruct (in_flight (pending_request s)) eqn:Hf.
    + destruct (Settling_step_delivered s fo Hf) as (heffs & result & _ & Hstep & _).
      rewrite Hstep. cbn [fst]. destruct Hinv as (Hnone & Hpending & Hidle).
      destruct (Hpending (or_introl Hf)) as [Hs Hp].
      unfold Settling_consistent. cbn.
      split; [intros Hx; discriminate |].
      split; [intros _; split; assumption | intros _; reflexivity].
    + rewrite Settling_step_delivered_idle by assumption. exact Hinv.
  - destruct (fulfilled s) as [lr|] eqn:Hq.
    + rewrite (Settling_step_then s lr Hq). unfold Settling_consistent. cbn.
      split; [intros Hx; discriminate |].
      split; [intros [Hx | Hx]; [discriminate | congruence] | intros _; reflexivity].
    + rewrite Settling_step_then_idle by assumption. exact Hinv.
  - rewrite Settling_step_cancel. cbn [fst].
    unfold Settling_consistent in *. cbn [pending_request fulfilled].
    destruct (Request_cancel_shape (pending_request s) is_settle eq_refl) as (Hi & Hs & Hp & _).
    rewrite Hi, Hs, Hp. exact Hinv.
Qed.

Lemma Settling_run_consistent (s : Settling) (evs : list settling_event) :
  Settling_consistent s -> Settling_consistent (fst (Settling_run client s evs)).
Proof.
  revert s. induction evs as [|ev evs IH]; intros s Hinv; [exact Hinv |].
  rewrite Settling_run_cons. cbn [fst]. apply IH. now apply Settling_step_consistent.
Qed.

Lemma settling_request_consistent (type : ProcedureType) (input : value) (path : string) :
  Settling_consistent (settling (fst (request client type input path))).
Proof.
  unfold Settling_consistent. cbn. repeat split; congruence.
Qed.

(** Every job spends what is left to settle. *)
Lemma Settling_step_may_settle (s : Settling) (ev : settling_event) :
  (count is_settle (snd (Settling_step client s ev))
   + may_settle (fst (Settling_step client s ev)) <= may_settle s)%nat.
Proof.
  unfold may_settle. destruct ev as [fo| |].
  - destruct (in_flight (pending_request s)) eqn:Hf.
    + destruct (Settling_step_delivered s fo Hf) as (heffs & result & Hh & Hstep & _).
      rewrite Hstep. cbn [fst snd pending_request fulfilled Request_finished in_flight].
      rewrite count_hooks_settle by assumption. destruct result; lia.
    + rewrite Settling_step_delivered_idle by assumption. cbn [fst snd]. rewrite Hf.
      change (count is_settle []) with 0%nat. lia.
  - destruct (fulfilled s) as [lr|] eqn:Hq.
    + rewrite (Settling_step_then s lr Hq).
      cbn [fst snd pending_request fulfilled Request_finished in_flight].
      assert (Hc : count is_settle [settlement_of lr] = 1%nat) by now destruct lr.
      rewrite Hc. destruct (in_flight (pending_request s)); lia.
    + rewrite Settling_step_then_idle by assumption. cbn [fst snd]. rewrite Hq.
      change (count is_settle []) with 0%nat. lia.
  - rewrite Settling_step_cancel. cbn [fst snd pending_request fulfilled].
    destruct (Request_cancel_shape (pending_request s) is_settle eq_refl) as (Hi & _ & _ & Hc).
    rewrite Hi, Hc. lia.
Qed.

Lemma Settling_run_may_settle (s : Settling) (evs : list settling_event) :
  (count is_settle (snd (Settling_run client s evs))
   + may_settle (fst (Settling_run client s evs)) <= may_settle s)%nat.
Proof.
  revert s. induction evs as [|ev evs IH]; intros s; [cbn; lia |].
  rewrite Settling_run_cons. cbn [fst snd]. rewrite count_app.
  pose proof (Settling_step_may_settle s ev). pose proof (IH (fst (Settling_step client s ev))).
  lia.
Qed.

Lemma may_settle_le_1 (s : Settling) : (may_settle s <= 1)%nat.
Proof. unfold may_settle. destruct (in_flight (pending_request s)), (fulfilled s); lia. Qed.

Lemma count_zero_filter (p : effect -> bool) (effs : list effect) :
  count p effs = 0%nat -> List.filter p effs = [].
Proof. unfold count. intros Hc. now apply length_zero_iff_nil. Qed.

(** A settled promise: nothing is running, nothing is queued, and no job
    changes anything. *)
Lemma Settling_step_settled (s : Settling) (ev : settling_event) :
  Settling_consistent s -> settled (pending_request s) = true ->
  Settling_step client s ev = (s, []).
Proof.
  intros (Hnone & Hpending & Hidle) Hs.
  assert (Hf : in_flight (pending_request s) = false).
  { destruct (in_flight (pending_request s)) eqn:Hf; [| reflexivity].
    destruct (Hpending (or_introl eq_refl)). congruence. }
  assert (Hq : fulfilled s = None).
  { destruct (fulfilled s) as [lr|] eqn:Hq; [| reflexivity].
    assert (Hne : Some lr <> None) by discriminate.
    destruct (Hpending (or_intror Hne)). congruence. }
  destruct ev as [fo| |].
  - now apply Settling_step_delivered_idle.
  - now apply Settling_step_then_idle.
  - rewrite Settling_step_cancel, Request_cancel_settled by assumption.
    cbn [fst snd]. destruct s; cbn in *. now rewrite Hq.
Qed.

Lemma Settling_run_settled (s : Settling) (evs : list settling_event) :
  Settling_consistent s -> settled (pending_request s) = true ->
  Settling_run client s evs = (s, []).
Proof.
  intros Hinv Hs. induction evs as [|ev evs IH]; [reflexivity |].
  rewrite Settling_run_cons, (Settling_step_settled s ev Hinv Hs). cbn [fst snd].
  now rewrite IH.
Qed.

(** Once [executeRequest] has returned, the queued callback settles the
    promise with its result, whatever runs before it and after it. *)
Lemma Settling_run_fulfilled (s : Settling) (lr : LocalResult)
    (mid post : list settling_event) :
  Settling_consistent s ->
  fulfilled s = Some lr ->
  List.filter is_settle (snd (Settling_run client s (mid ++ ThenJob :: post)))
  = [settlement_of lr]
  /\ responsePromise (pending_request (fst (Settling_run client s (mid ++ ThenJob :: post))))
     = promise_of lr
  /\ settled (pending_request (fst (Settling_run client s (mid ++ ThenJob :: post)))) = true.
Proof.
  assert (Hthen : forall s0 rest,
             Settling_consistent s0 -> fulfilled s0 = Some lr ->
             List.filter is_settle (snd (Settling_run client s0 (ThenJob :: rest)))
             = [settlement_of lr]
             /\ responsePromise (pending_request (fst (Settling_run client s0 (ThenJob :: rest))))
                = promise_of lr
             /\ settled (pending_request (fst (Settling_run client s0 (ThenJob :: rest)))) = true).
  { intros s0 rest Hinv Hq. rewrite Settling_run_cons.
    pose proof (Settling_step_consistent s0 ThenJob Hinv) as Hinv1.
    rewrite (Settling_step_then s0 lr Hq) in *. cbn [fst snd] in *.
    rewrite Settling_run_settled by (assumption || reflexivity).
    cbn [fst snd pending_request Request_finished responsePromise settled].
    rewrite app_nil_r. repeat split. now destruct lr. }
  revert s. induction mid as [|ev mid IH]; intros s Hinv Hq; [now apply Hthen |].
  rewrite <- app_comm_cons.
  destruct ev as [fo| |].
  - assert (Hf : in_flight (pending_request s) = false).
    { apply (proj2 (proj2 Hinv)). congruence. }
    rewrite Settling_run_cons, (Settling_step_delivered_idle s fo Hf). cbn [fst snd app].
    apply IH; [exact Hinv | exact Hq].
  - destruct (Hthen s (mid ++ ThenJob :: post) Hinv Hq) as (H1 & H2 & H3).
    repeat split; assumption.
  - rewrite Settling_run_cons. cbn [fst snd].
    pose proof (Settling_step_consistent s CancelCall Hinv) as Hinv1.
    rewrite Settling_step_cancel in *. cbn [fst snd] in *.
    rewrite List.filter_app.
    destruct (Request_cancel_shape (pending_request s) is_settle eq_refl) as (_ & _ & _ & Hc).
    rewrite (count_zero_filter _ _ Hc). cbn [app].
    apply IH; [exact Hinv1 | exact Hq].
Qed.

(** While [executeRequest] is running nothing has settled. *)
Lemma Settling_step_idle_flight (s : Settling) (ev : settling_event) :
  in_flight (pending_request s) = false ->
  in_flight (pending_request (fst (Settling_step client s ev))) = false.
Proof.
  intros Hf. settling_cases s ev; cbn [Request_finished in_flight]; try congruence.
  destruct (Request_cancel_shape (pending_request s) is_settle eq_refl) as (Hi & _).
  congruence.
Qed.

Lemma Settling_run_idle_flight (s : Settling) (evs : list settling_event) :
  in_flight (pending_request s) = false ->
  in_flight (pending_request (fst (Settling_run client s evs))) = false.
Proof.
  revert s. induction evs as [|ev evs IH]; intros s Hf; [exact Hf |].
  rewrite Settling_run_cons. cbn [fst]. apply IH. now apply Settling_step_idle_flight.
Qed.

Lemma Settling_run_in_flight_quiet (s : Settling) (evs : list settling_event) :
  in_flight (pending_request (fst (Settling_run client s evs))) = true ->
  count is_settle (snd (Settling_run client s evs)) = 0%nat.
Proof.
  intros Hf.
  pose proof (Settling_run_may_settle s evs) as Hle.
  pose proof (may_settle_le_1 s) as H1.
  unfold may_settle in Hle at 1. rewrite Hf in Hle. lia.
Qed.

(** When [executeRequest] returns, the promise settles exactly once, with
    the settlement that goes with the result, whatever [cancel] and other
    jobs come before, in between and after. *)
Lemma Settling_run_settles (s : Settling) (pre mid post : list settling_event)
    (fo : fetch_outcome) (heffs : list effect) (lr : LocalResult) :
  Settling_consistent s ->
  in_flight (pending_request (fst (Settling_run client s pre))) = true ->
  executeRequest client fo = (heffs, Returns lr) ->
  List.filter is_settle
    (snd (Settling_run client s (pre ++ Delivered fo :: mid ++ ThenJob :: post)))
  = [settlement_of lr]
  /\ responsePromise
       (pending_request
          (fst (Settling_run client s (pre ++ Delivered fo :: mid ++ ThenJob :: post))))
     = promise_of lr.
Proof.
  intros Hinv Hf Hexec.
  rewrite Settling_run_app, Settling_run_cons. cbn [fst snd].
  rewrite !List.filter_app.
  rewrite (count_zero_filter _ _ (Settling_run_in_flight_quiet s pre Hf)).
  pose proof (Settling_run_consistent s pre Hinv) as Hinv1.
  set (s1 := fst (Settling_run client s pre)) in *.
  pose proof (Settling_step_consistent s1 (Delivered fo) Hinv1) as Hinv2.
  destruct (Settling_step_delivered s1 fo Hf) as (h & result & Hh & Hstep & Hres).
  rewrite Hstep in *. cbn [fst snd] in *.
  assert (Hq : result = Some lr).
  { destruct result as [lr'|].
    - rewrite Hexec in Hres. now inversion Hres.
    - destruct Hres as [t Ht]. rewrite Hexec in Ht. inversion Ht. }
  subst result.
  rewrite (count_zero_filter _ _ (count_hooks_settle h Hh)). cbn [app].
  destruct (Settling_run_fulfilled _ lr mid post Hinv2 eq_refl) as (Hfilter & Hp & _).
  split; assumption.
Qed.




(** A delivery with nothing between its two jobs is the step of the
    request as a whole. *)
Lemma Request_step_two_jobs (r : Request) (fo : fetch_outcome) :
  Settling_run client (settling r) [Delivered fo; ThenJob]
  = (settling (fst (Request_step client r (ReqOutcome fo))),
     snd (Request_step client r (ReqOutcome fo))).
Proof.
  cbn [Settling_run Settling_step Request_step settling pending_request fulfilled].
  unfold Request_outcome, Request_executed.
  destruct (in_flight r) eqn:Hf; [| reflexivity].
  destruct (executeRequest client fo) as [heffs [[data|error]|t]];
    cbn; rewrite ?app_nil_r; reflexivity.
Qed.


End RequestFacts.

(** ** One-shot subscription *)

Section OnceFacts.
Context {platform : Platform}.
Variable client : TRPCClient.

Lemma count_hooks_once_settle (effs : list effect) :
  Forall (fun e => is_hook e = true) effs -> count is_once_settle effs = 0%nat.
Proof. apply count_hooks. now intros []. Qed.

Lemma subscriptionOnce_initial (path : string) (input : value) :
  subscriptionOnce client path input
  = ({| once_path := path; once_input := input; once_stopped := false;
        currentRequest := Some (fst (request client subscription input path));
        once_promise := Pending |},
     snd (request client subscription input path)).
Proof. reflexivity. Qed.

Lemma Once_outcome_idle (o : Once) (fo : fetch_outcome) :
  Once_in_flight o = false -> Once_outcome client o fo = (o, [], None).
Proof.
  unfold Once_in_flight, Once_outcome. destruct o as [p i st [r|] pr]; cbn; [| reflexivity].
  intros Hf. now rewrite Request_outcome_idle.
Qed.

(** The shape of a delivery to a one-shot subscription whose request is in
    flight. *)
Lemma Once_outcome_in_flight (o : Once) (r : Request) (fo : fetch_outcome) :
  currentRequest o = Some r ->
  in_flight r = true ->
  exists heffs,
    Forall (fun e => is_hook e = true) heffs
    /\ ((exists t, executeRequest client fo = (heffs, Throws t)
         /\ Once_outcome client o fo
            = (set_once o (once_stopped o)
                 (Some (Request_finished r (settled r) (responsePromise r))) (once_promise o),
               heffs, None))
        \/ (exists data, executeRequest client fo = (heffs, Returns (LOk data))
            /\ Once_outcome client o fo
               = (set_once o (once_stopped o)
                    (Some (Request_finished r true (Resolved data))) (Resolved data),
                  (heffs ++ [Resolve data]) ++ [OnceResolve data], Some (inl data)))
        \/ (exists err, executeRequest client fo = (heffs, Returns (LErr err))
            /\ is_reconnect err = false
            /\ Once_outcome client o fo
               = (set_once o (once_stopped o)
                    (Some (Request_finished r true (Rejected err))) (Rejected err),
                  (heffs ++ [Reject err]) ++ [OnceReject err], Some (inr err)))
        \/ (exists err, executeRequest client fo = (heffs, Returns (LErr err))
            /\ is_reconnect err = true
            /\ once_stopped o = true
            /\ Once_outcome client o fo
               = (set_once o true
                    (Some (Request_finished r true (Rejected err))) (once_promise o),
                  (heffs ++ [Reject err]) ++ [], None))
        \/ (exists err, executeRequest client fo = (heffs, Returns (LErr err))
            /\ is_reconnect err = true
            /\ once_stopped o = false
            /\ Once_outcome client o fo
               = (set_once o false
                    (Some (fst (request client subscription (once_input o) (once_path o))))
                    (once_promise o),
                  (heffs ++ [Reject err])
                  ++ snd (request client subscription (once_input o) (once_path o)),
                  None))).
Proof.
  intros Hcur Hf. unfold Once_outcome. rewrite Hcur.
  destruct (Request_outcome_in_flight client r fo Hf)
    as (heffs & Hh & [(t & He & Hr) | [(d & He & Hr) | (e & He & Hr)]]);
    exists heffs; (split; [exact Hh |]); rewrite Hr.
  - left. eauto.
  - right; left. exists d. split; [exact He |]. reflexivity.
  - destruct (is_reconnect e) eqn:Hre.
    + unfold Once_exec. cbn [once_stopped set_once once_input once_path].
      destruct (once_stopped o) eqn:Hst.
      * right; right; right; left. exists e. repeat (split; [assumption || reflexivity |]).
        reflexivity.
      * right; right; right; right. exists e. repeat (split; [assumption || reflexivity |]).
        reflexivity.
    + right; right; left. exists e. repeat (split; [assumption |]). reflexivity.
Qed.

Lemma Once_cancel_shape (o : Once) (p : effect -> bool) :
  p AbortSignal = false ->
  Once_in_flight (fst (Once_cancel o)) = Once_in_flight o
  /\ once_promise (fst (Once_cancel o)) = once_promise o
  /\ once_stopped (fst (Once_cancel o)) = true
  /\ count p (snd (Once_cancel o)) = 0%nat.
Proof.
  intros Hp. unfold Once_cancel, Once_in_flight. destruct (currentRequest o) as [r|] eqn:Hcur.
  - destruct (Request_cancel_shape r p Hp) as (Hi & _ & _ & Hc).
    destruct (Request_cancel r) as [r' effs]. cbn in *. now rewrite Hi.
  - cbn. repeat split.
Qed.

(** Case analysis on the delivery of [fo] to [o]. *)
Ltac once_cases o fo :=
  let Hfl := fresh "Hflight" in
  let Hcur := fresh "Hcur" in
  let r := fresh "r" in
  let heffs := fresh "heffs" in
  let Hh := fresh "Hhooks" in
  let He := fresh "Hexec" in
  let Ho := fresh "Hout" in
  let Hre := fresh "Hre" in
  let Hst := fresh "Hst" in
  let Hreq := fresh "Hreq" in
  destruct (Once_in_flight o) eqn:Hfl;
  [ pose proof Hfl as Hcur; unfold Once_in_flight in Hcur;
    destruct (currentRequest o) as [r|] eqn:Hreq; [| discriminate Hcur];
    destruct (Once_outcome_in_flight o r fo Hreq Hcur)
      as (heffs & Hh & [(? & He & Ho) | [(? & He & Ho) | [(? & He & Hre & Ho)
           | [(? & He & Hre & Hst & Ho) | (? & He & Hre & Hst & Ho)]]]])
  | pose proof (Once_outcome_idle o fo Hfl) as Ho ];
  cbn [Once_step]; rewrite Ho; cbn [fst snd].

Lemma Once_step_settle_idle (o : Once) (ev : once_event) :
  Once_in_flight o = false ->
  Once_in_flight (fst (Once_step client o ev)) = false
  /\ once_promise (fst (Once_step client o ev)) = once_promise o
  /\ count is_once_settle (snd (Once_step client o ev)) = 0%nat.
Proof.
  intros Hf. destruct ev as [fo|]; cbn [Once_step].
  - rewrite Once_outcome_idle by assumption. now repeat split.
  - destruct (Once_cancel_shape o is_once_settle eq_refl) as (Hi & Hp & _ & Hc).
    rewrite Hi, Hp, Hc. now repeat split.
Qed.

Lemma Once_step_settle_count (o : Once) (ev : once_event) :
  (count is_once_settle (snd (Once_step client o ev)) <= 1)%nat
  /\ (Once_in_flight (fst (Once_step client o ev)) = true ->
      count is_once_settle (snd (Once_step client o ev)) = 0%nat).
Proof.
  destruct ev as [fo|].
  - once_cases o fo; unfold Once_in_flight; cbn [set_once currentRequest Request_finished in_flight];
      rewrite ?count_app, ?count_hooks_once_settle by assumption; cbn;
      (split; [lia | (discriminate || reflexivity)]).
  - cbn [Once_step]. destruct (Once_cancel_shape o is_once_settle eq_refl) as (_ & _ & _ & Hc).
    rewrite Hc. split; [lia | reflexivity].
Qed.

Lemma Once_step_in_flight_pending (o : Once) (ev : once_event) :
  in_flight_pending o -> in_flight_pending (fst (Once_step client o ev)).
Proof.
  unfold in_flight_pending. intros Hinv. destruct ev as [fo|].
  - once_cases o fo; unfold Once_in_flight;
      cbn [set_once currentRequest Request_finished in_flight once_promise];
      intros Hx; try discriminate Hx; try (unfold Once_in_flight in *; congruence); auto.
  - cbn [Once_step]. destruct (Once_cancel_shape o is_once_settle eq_refl) as (Hi & Hp & _ & _).
    rewrite Hi, Hp. exact Hinv.
Qed.

Lemma Once_run_cons (o : Once) (ev : once_event) (evs : list once_event) :
  Once_run client o (ev :: evs)
  = (fst (Once_run client (fst (Once_step client o ev)) evs),
     snd (Once_step client o ev) ++ snd (Once_run client (fst (Once_step client o ev)) evs)).
Proof.
  cbn [Once_run]. destruct (Once_step client o ev) as [o1 e1].
  cbn [fst snd]. now destruct (Once_run client o1 evs).
Qed.

Lemma Once_run_app (o : Once) (a b : list once_event) :
  Once_run client o (a ++ b)
  = (fst (Once_run client (fst (Once_run client o a)) b),
     snd (Once_run client o a) ++ snd (Once_run client (fst (Once_run client o a)) b)).
Proof.
  revert o. induction a as [|ev a IH]; intros o.
  - cbn [app Once_run fst snd]. now destruct (Once_run client o b).
  - rewrite <- app_comm_cons, !Once_run_cons, IH. cbn [fst snd]. now rewrite app_assoc.
Qed.

Lemma Once_run_settle_idle (o : Once) (evs : list once_event) :
  Once_in_flight o = false ->
  Once_in_flight (fst (Once_run client o evs)) = false
  /\ once_promise (fst (Once_run client o evs)) = once_promise o
  /\ count is_once_settle (snd (Once_run client o evs)) = 0%nat.
Proof.
  revert o. induction evs as [|ev evs IH]; intros o Hf; [now repeat split |].
  rewrite Once_run_cons. cbn [fst snd]. rewrite count_app.
  destruct (Once_step_settle_idle o ev Hf) as (Hf1 & Hp1 & Hc1).
  destruct (IH _ Hf1) as (Hf2 & Hp2 & Hc2).
  split; [assumption |]. split; [congruence | lia].
Qed.

Lemma Once_run_settle_count (o : Once) (evs : list once_event) :
  (count is_once_settle (snd (Once_run client o evs)) <= 1)%nat
  /\ (Once_in_flight (fst (Once_run client o evs)) = true ->
      count is_once_settle (snd (Once_run client o evs)) = 0%nat).
Proof.
  revert o. induction evs as [|ev evs IH]; intros o; [cbn; split; [lia | reflexivity] |].
  rewrite Once_run_cons. cbn [fst snd]. rewrite count_app.
  destruct (Once_step_settle_count o ev) as [Hle Hzero].
  destruct (Once_in_flight (fst (Once_step client o ev))) eqn:Hf1.
  - rewrite (Hzero eq_refl). destruct (IH (fst (Once_step client o ev))) as [Hle2 Hz2].
    split; [lia | intros Hf2; rewrite (Hz2 Hf2); reflexivity].
  - destruct (Once_run_settle_idle _ evs Hf1) as (Hf2 & _ & Hc2). rewrite Hc2, Hf2.
    split; [lia | discriminate].
Qed.

Lemma Once_run_in_flight_pending (o : Once) (evs : list once_event) :
  in_flight_pending o -> in_flight_pending (fst (Once_run client o evs)).
Proof.
  revert o. induction evs as [|ev evs IH]; intros o Hinv; [exact Hinv |].
  rewrite Once_run_cons. cbn [fst]. apply IH. now apply Once_step_in_flight_pending.
Qed.

Lemma Once_run_settles_once (o : Once) (pre post : list once_event) (fo : fetch_outcome)
    (heffs : list effect) (lr : LocalResult) :
  Once_in_flight (fst (Once_run client o pre)) = true ->
  executeRequest client fo = (heffs, Returns lr) ->
  passes_on lr = true ->
  count is_once_settle (snd (Once_run client o (pre ++ OnceOutcome fo :: post))) = 1%nat.
Proof.
  intros Hf Hexec Hpass. rewrite Once_run_app, Once_run_cons. cbn [fst snd].
  rewrite !count_app. rewrite (proj2 (Once_run_settle_count o pre) Hf).
  set (o1 := fst (Once_run client o pre)) in *.
  assert (Hstep : Once_in_flight (fst (Once_step client o1 (OnceOutcome fo))) = false
                  /\ count is_once_settle (snd (Once_step client o1 (OnceOutcome fo))) = 1%nat).
  { once_cases o1 fo; try discriminate;
      rewrite Hexec in *;
      match goal with Heq : (_, _) = (_, _) |- _ => inversion Heq; subst end;
      cbn [passes_on] in Hpass; try (rewrite Hre in Hpass; discriminate Hpass);
      unfold Once_in_flight; cbn [set_once currentRequest Request_finished in_flight];
      (split; [reflexivity |]);
      rewrite !count_app, count_hooks_once_settle by assumption; reflexivity. }
  destruct Hstep as [Hf1 Hc1]. rewrite Hc1.
  rewrite (proj2 (proj2 (Once_run_settle_idle _ post Hf1))). reflexivity.
Qed.

Lemma Once_run_stopped_reconnect (o : Once) (pre post : list once_event) (fo : fetch_outcome)
    (heffs : list effect) (err : TRPCClientError) :
  in_flight_pending o ->
  Once_in_flight (fst (Once_run client o pre)) = true ->
  once_stopped (fst (Once_run client o pre)) = true ->
  executeRequest client fo = (heffs, Returns (LErr err)) ->
  is_reconnect err = true ->
  count is_once_settle (snd (Once_run client o (pre ++ OnceOutcome fo :: post))) = 0%nat
  /\ once_promise (fst (Once_run client o (pre ++ OnceOutcome fo :: post))) = Pending
  /\ Once_in_flight (fst (Once_run client o (pre ++ OnceOutcome fo :: post))) = false.
Proof.
  intros Hinv Hf Hst Hexec Hre.
  rewrite Once_run_app, Once_run_cons. cbn [fst snd].
  rewrite !count_app. rewrite (proj2 (Once_run_settle_count o pre) Hf).
  pose proof (Once_run_in_flight_pending o pre Hinv Hf) as Hp.
  set (o1 := fst (Once_run client o pre)) in *.
  assert (Hstep : Once_in_flight (fst (Once_step client o1 (OnceOutcome fo))) = false
                  /\ once_promise (fst (Once_step client o1 (OnceOutcome fo))) = Pending
                  /\ count is_once_settle (snd (Once_step client o1 (OnceOutcome fo))) = 0%nat).
  { once_cases o1 fo; try discriminate;
      rewrite Hexec in *;
      match goal with Heq : (_, _) = (_, _) |- _ => inversion Heq; subst end;
      try congruence;
      unfold Once_in_flight;
      cbn [set_once currentRequest Request_finished in_flight once_promise];
      (split; [reflexivity |]); (split; [exact Hp |]);
      rewrite !count_app, count_hooks_once_settle by assumption; reflexivity. }
  destruct Hstep as (Hf1 & Hp1 & Hc1).
  destruct (Once_run_settle_idle _ post Hf1) as (Hf2 & Hp2 & Hc2).
  rewrite Hc1, Hc2, Hp2, Hp1, Hf2. repeat split.
Qed.

Lemma Once_outcome_settled_idle (o o' : Once) (fo : fetch_outcome) (effs : list effect)
    (s : value + TRPCClientError) :
  Once_outcome client o fo = (o', effs, Some s) -> Once_in_flight o' = false.
Proof.
  intros Hres. destruct (Once_in_flight o) eqn:Hfl.
  - unfold Once_in_flight in Hfl. destruct (currentRequest o) as [r|] eqn:Hreq; [| discriminate].
    destruct (Once_outcome_in_flight o r fo Hreq Hfl)
      as (heffs & Hh & [(? & He & Ho) | [(? & He & Ho) | [(? & He & Hre & Ho)
           | [(? & He & Hre & Hst & Ho) | (? & He & Hre & Hst & Ho)]]]]);
      rewrite Ho in Hres; inversion Hres; subst; reflexivity.
  - rewrite (Once_outcome_idle o fo Hfl) in Hres. inversion Hres.
Qed.

Lemma Once_step_input (o : Once) (ev : once_event) :
  once_input (fst (Once_step client o ev)) = once_input o
  /\ once_path (fst (Once_step client o ev)) = once_path o.
Proof.
  destruct ev as [fo|].
  - once_cases o fo; now split.
  - cbn [Once_step]. unfold Once_cancel. destruct (currentRequest o) as [r|]; [| now split].
    destruct (Request_cancel r). now split.
Qed.

Lemma Once_run_input (o : Once) (evs : list once_event) :
  once_input (fst (Once_run client o evs)) = once_input o
  /\ once_path (fst (Once_run client o evs)) = once_path o.
Proof.
  revert o. induction evs as [|ev evs IH]; intros o; [now split |].
  rewrite Once_run_cons. cbn [fst].
  destruct (IH (fst (Once_step client o ev))) as [Hi Hp].
  destruct (Once_step_input o ev) as [Hi1 Hp1]. split; congruence.
Qed.

Lemma subscriptionOnce_in_flight_pending (path : string) (input : value) :
  in_flight_pending (fst (subscriptionOnce client path input)).
Proof. intros _. reflexivity. Qed.

(** A delivery that is passed on settles the promise of [subscriptionOnce]
    exactly once, with the data or the error of the result. *)
Lemma Once_run_settles_with (o : Once) (pre post : list once_event) (fo : fetch_outcome)
    (heffs : list effect) (lr : LocalResult) :
  Once_in_flight (fst (Once_run client o pre)) = true ->
  executeRequest client fo = (heffs, Returns lr) ->
  passes_on lr = true ->
  List.filter is_once_settle (snd (Once_run client o (pre ++ OnceOutcome fo :: post)))
  = [once_settlement_of lr]
  /\ once_promise (fst (Once_run client o (pre ++ OnceOutcome fo :: post))) = promise_of lr.
Proof.
  intros Hf Hexec Hpass. rewrite Once_run_app, Once_run_cons. cbn [fst snd].
  rewrite !List.filter_app.
  rewrite (count_zero_filter _ _ (proj2 (Once_run_settle_count o pre) Hf)).
  set (o1 := fst (Once_run client o pre)) in *.
  assert (Hstep : Once_in_flight (fst (Once_step client o1 (OnceOutcome fo))) = false
                  /\ List.filter is_once_settle (snd (Once_step client o1 (OnceOutcome fo)))
                     = [once_settlement_of lr]
                  /\ once_promise (fst (Once_step client o1 (OnceOutcome fo)))
                     = promise_of lr).
  { once_cases o1 fo; try discriminate;
      rewrite Hexec in *;
      match goal with Heq : (_, _) = (_, _) |- _ => inversion Heq; subst end;
      cbn [passes_on] in Hpass; try (rewrite Hre in Hpass; discriminate Hpass);
      unfold Once_in_flight;
      cbn [set_once currentRequest Request_finished in_flight once_promise];
      (split; [reflexivity |]);
      rewrite !List.filter_app, (count_zero_filter _ _ (count_hooks_once_settle _ Hhooks));
      split; reflexivity. }
  destruct Hstep as (Hf1 & Hfilter & Hp1). rewrite Hfilter.
  destruct (Once_run_settle_idle _ post Hf1) as (_ & Hp2 & Hc2).
  rewrite (count_zero_filter _ _ Hc2), Hp2. split; [reflexivity | exact Hp1].
Qed.

(** C3 (amended): the promise of [request], followed job by job, and the
    promise of [subscriptionOnce] settle at most once along every run.  When
    [executeRequest] returns, the promise of [request] settles exactly once,
    by [resolve] with the data of an [{ok: true}] result and by [reject] with
    the error of an [{ok: false}] result, whatever [cancel] and other jobs
    come before it, between the return and the settlement, and after it.
    The promise of [subscriptionOnce] settles exactly once, in the same way,
    when [executeRequest] returns data or an error that is not a reconnect
    signal; when the call has been cancelled and the request in flight fails
    with a reconnect signal, the promise stays pending and no request is in
    flight any more. *)
Theorem C3_settles_at_most_once (type : ProcedureType) (input : value) (path : string) :
  let s0 := settling (fst (request client type input path)) in
  let o0 := fst (subscriptionOnce client path input) in
  (forall evs, (count is_settle (snd (Settling_run client s0 evs)) <= 1)%nat)
  /\ (forall pre fo mid post heffs lr,
      in_flight (pending_request (fst (Settling_run client s0 pre))) = true ->
      executeRequest client fo = (heffs, Returns lr) ->
      List.filter is_settle
        (snd (Settling_run client s0 (pre ++ Delivered fo :: mid ++ ThenJob :: post)))
      = [settlement_of lr]
      /\ responsePromise
           (pending_request
              (fst (Settling_run client s0 (pre ++ Delivered fo :: mid ++ ThenJob :: post))))
         = promise_of lr)
  /\ (forall evs, (count is_once_settle (snd (Once_run client o0 evs)) <= 1)%nat)
  /\ (forall pre fo post heffs lr,
      Once_in_flight (fst (Once_run client o0 pre)) = true ->
      executeRequest client fo = (heffs, Returns lr) ->
      passes_on lr = true ->
      List.filter is_once_settle (snd (Once_run client o0 (pre ++ OnceOutcome fo :: post)))
      = [once_settlement_of lr]
      /\ once_promise (fst (Once_run client o0 (pre ++ OnceOutcome fo :: post)))
         = promise_of lr)
  /\ (forall pre fo post heffs err,
      Once_in_flight (fst (Once_run client o0 pre)) = true ->
      once_stopped (fst (Once_run client o0 pre)) = true ->
      executeRequest client fo = (heffs, Returns (LErr err)) ->
      is_reconnect err = true ->
      count is_once_settle (snd (Once_run client o0 (pre ++ OnceOutcome fo :: post))) = 0%nat
      /\ once_promise (fst (Once_run client o0 (pre ++ OnceOutcome fo :: post))) = Pending
      /\ Once_in_flight (fst (Once_run client o0 (pre ++ OnceOutcome fo :: post))) = false).
Proof.
  intros s0 o0. split; [| split; [| split; [| split]]].
  - intros evs. pose proof (Settling_run_may_settle client s0 evs).
    pose proof (may_settle_le_1 s0). lia.
  - intros pre fo mid post heffs lr Hf Hexec.
    apply (Settling_run_settles client s0 pre mid post fo heffs lr); try assumption.
    apply settling_request_consistent.
  - intros evs. apply Once_run_settle_count.
  - intros pre fo post heffs lr. apply Once_run_settles_with.
  - intros pre fo post heffs err Hf Hst Hexec Hre.
    eapply Once_run_stopped_reconnect; eauto. apply subscriptionOnce_in_flight_pending.
Qed.

(** C1 (amended): while a call of [subscriptionOnce] has not been cancelled,
    a request that fails with a well-formed failure envelope whose own
    [statusCode] property (next to [ok], not inside [error]) is 408 rejects
    the promise of that request only and calls no hook: the only further
    effect is the transport call the subscription started with, issued at
    once, and the promise of [subscriptionOnce] stays pending.  A failure
    envelope with another [statusCode], and every other error that is not a
    reconnect signal, rejects the promise of [subscriptionOnce] with that
    error. *)
Theorem C1_reconnect_on_408 (path : string) (input : value) (pre : list once_event)
    (resp : Response) (rawJson j m : value) :
  let o := fst (Once_run client (fst (subscriptionOnce client path input)) pre) in
  let err := new_TRPCClientError m (Some resp) j None in
  Once_in_flight o = true ->
  res_json resp = inl rawJson ->
  deserialize (transformer client) rawJson = Returns j ->
  nullish j = false ->
  truthy (prop j "ok") = false ->
  get (prop j "error") "message" = Returns m ->
  (strict_eq_num (prop j "statusCode") 408 = true ->
   once_stopped o = false ->
   snd (Once_step client o (OnceOutcome (FetchResolves resp)))
   = Reject err :: snd (subscriptionOnce client path input)
   /\ snd (subscriptionOnce client path input)
      = [Fetch (req_url (fst (request client subscription input path)))
               (req_init (fst (request client subscription input path)))]
   /\ once_promise (fst (Once_step client o (OnceOutcome (FetchResolves resp)))) = Pending
   /\ Once_in_flight (fst (Once_step client o (OnceOutcome (FetchResolves resp)))) = true)
  /\ (strict_eq_num (prop j "statusCode") 408 = false ->
      snd (Once_step client o (OnceOutcome (FetchResolves resp)))
      = [Reject err; OnceReject err]
      /\ once_promise (fst (Once_step client o (OnceOutcome (FetchResolves resp))))
         = Rejected err)
  /\ (forall fo heffs err',
      executeRequest client fo = (heffs, Returns (LErr err')) ->
      is_reconnect err' = false ->
      snd (Once_step client o (OnceOutcome fo)) = (heffs ++ [Reject err']) ++ [OnceReject err']
      /\ once_promise (fst (Once_step client o (OnceOutcome fo))) = Rejected err').
Proof.
  intros o err Hf Hr Hd Hn Hok Hm.
  assert (Hexec : executeRequest client (FetchResolves resp) = ([], Returns (LErr err))).
  { cbn [executeRequest]. rewrite Hr, Hd. unfold get at 1. rewrite Hn, Hok, Hm. reflexivity. }
  assert (Hre : is_reconnect err = strict_eq_num (prop j "statusCode") 408).
  { unfold is_reconnect, err, optchain. cbn [json new_TRPCClientError]. now rewrite Hn. }
  assert (Hp : once_promise o = Pending).
  { apply (Once_run_in_flight_pending _ pre (subscriptionOnce_in_flight_pending path input) Hf). }
  destruct (Once_run_input (fst (subscriptionOnce client path input)) pre) as [Hin Hpa].
  fold o in Hin, Hpa. cbn in Hin, Hpa.
  assert (Hgen : forall fo heffs err',
             executeRequest client fo = (heffs, Returns (LErr err')) ->
             (is_reconnect err' = false ->
              snd (Once_step client o (OnceOutcome fo))
              = (heffs ++ [Reject err']) ++ [OnceReject err']
              /\ once_promise (fst (Once_step client o (OnceOutcome fo))) = Rejected err')
             /\ (is_reconnect err' = true -> once_stopped o = false ->
                 snd (Once_step client o (OnceOutcome fo))
                 = (heffs ++ [Reject err']) ++ snd (subscriptionOnce client path input)
                 /\ once_promise (fst (Once_step client o (OnceOutcome fo))) = Pending
                 /\ Once_in_flight (fst (Once_step client o (OnceOutcome fo))) = true)).
  { clear Hexec Hre. clearbody o. intros fo heffs err' He.
    once_cases o fo; try congruence;
      rewrite He in *;
      match goal with Heq : (_, _) = (_, _) |- _ => inversion Heq; subst end;
      (split; [intros Hx | intros Hx Hy]); try congruence.
    - now split.
    - unfold Once_in_flight. cbn. now rewrite Hp. }
  split; [| split].
  - intros H408 Hst. rewrite <- Hre in H408.
    destruct (proj2 (Hgen _ _ _ Hexec) H408 Hst) as (Heffs & Hpend & Hfl).
    repeat split; assumption.
  - intros H408. rewrite <- Hre in H408.
    exact (proj1 (Hgen _ _ _ Hexec) H408).
  - intros fo heffs err' He Hn'. exact (proj1 (Hgen _ _ _ He) Hn').
Qed.

(** *** Further facts on the one-shot subscription *)

Lemma Forall_hooks_impl (P : effect -> Prop) (effs : list effect) :
  (forall e, is_hook e = true -> P e) ->
  Forall (fun e => is_hook e = true) effs -> Forall P effs.
Proof. intros HP Hall. eapply Forall_impl; [exact Hall | exact HP]. Qed.

Lemma request_effects (type : ProcedureType) (input : value) (path : string) :
  snd (request client type input path)
  = [Fetch (req_url (fst (request client type input path)))
           (req_init (fst (request client type input path)))].
Proof. reflexivity. Qed.

Lemma Once_step_fetches (o : Once) (ev : once_event) :
  Forall (fun e => is_fetch e = true ->
                   [e] = snd (request client subscription (once_input o) (once_path o)))
         (snd (Once_step client o ev)).
Proof.
  assert (Hhook : forall heffs, Forall (fun e => is_hook e = true) heffs ->
            Forall (fun e => is_fetch e = true ->
                             [e] = snd (request client subscription (once_input o) (once_path o)))
                   heffs).
  { intros heffs. apply Forall_hooks_impl. intros [] He; discriminate. }
  destruct ev as [fo|].
  - once_cases o fo; rewrite ?Forall_app; repeat split;
      try (apply Hhook; assumption);
      try (constructor; [discriminate | constructor]);
      try (constructor; fail).
    rewrite request_effects. constructor; [reflexivity | constructor].
  - cbn [Once_step]. unfold Once_cancel. destruct (currentRequest o) as [r|]; [| constructor].
    destruct (settled r) eqn:Hs.
    + rewrite Request_cancel_settled by assumption. constructor.
    + rewrite Request_cancel_unsettled by assumption. cbn [snd].
      destruct (ac r) as [[|]|]; cbn; repeat constructor; discriminate.
Qed.

(** Every transport call of one [subscriptionOnce] call goes to the same
    place: whatever outcomes and cancels arrive, a request it sends is a
    PATCH request to base/path. *)
Theorem subscriptionOnce_requests_same_endpoint (path : string) (input : value)
    (evs : list once_event) :
  Forall (fun e => is_fetch e = true ->
                   exists init,
                     e = Fetch (url (opts client) +:+ "/" +:+ path)%string init
                     /\ method init = "PATCH"%string)
         (snd (Once_run client (fst (subscriptionOnce client path input)) evs)).
Proof.
  assert (Hgen : forall o, once_input o = input -> once_path o = path ->
            Forall (fun e => is_fetch e = true ->
                             exists init,
                               e = Fetch (url (opts client) +:+ "/" +:+ path)%string init
                               /\ method init = "PATCH"%string)
                   (snd (Once_run client o evs))).
  { induction evs as [|ev evs IH]; intros o Hi Hp; [constructor |].
    rewrite Once_run_cons. cbn [snd]. apply Forall_app. split.
    - pose proof (Once_step_fetches o ev) as Hstep. rewrite Hi, Hp in Hstep.
      eapply Forall_impl; [exact Hstep |].
      intros e Hsame Hfetch. specialize (Hsame Hfetch).
      rewrite request_effects in Hsame. inversion Hsame; subst e.
      eexists. split; reflexivity.
    - destruct (Once_step_input o ev) as [Hi1 Hp1]. apply IH; congruence. }
  apply Hgen; reflexivity.
Qed.

Lemma count_hooks_fetch (effs : list effect) :
  Forall (fun e => is_hook e = true) effs -> count is_fetch effs = 0%nat.
Proof. apply count_hooks. now intros []. Qed.

Lemma count_hooks_timeout (effs : list effect) :
  Forall (fun e => is_hook e = true) effs -> count is_timeout effs = 0%nat.
Proof. apply count_hooks. now intros []. Qed.

(** Reconnecting has no bound and no delay: [n] reconnect signals in a row
    are answered by [n] immediate transport calls, without any timer, and the
    promise is still pending. *)
Theorem reconnect_is_unbounded (path : string) (input : value) (fo : fetch_outcome)
    (heffs : list effect) (err : TRPCClientError) (n : nat) :
  executeRequest client fo = (heffs, Returns (LErr err)) ->
  is_reconnect err = true ->
  let run := Once_run client (fst (subscriptionOnce client path input))
               (repeat (OnceOutcome fo) n) in
  count is_fetch (snd run) = n
  /\ count is_timeout (snd run) = 0%nat
  /\ count is_once_settle (snd run) = 0%nat
  /\ once_promise (fst run) = Pending
  /\ Once_in_flight (fst run) = true.
Proof.
  intros Hexec Hre run. subst run.
  assert (Hgen : forall o, once_stopped o = false -> Once_in_flight o = true ->
                           once_promise o = Pending ->
            count is_fetch (snd (Once_run client o (repeat (OnceOutcome fo) n))) = n
            /\ count is_timeout (snd (Once_run client o (repeat (OnceOutcome fo) n))) = 0%nat
            /\ count is_once_settle (snd (Once_run client o (repeat (OnceOutcome fo) n))) = 0%nat
            /\ once_promise (fst (Once_run client o (repeat (OnceOutcome fo) n))) = Pending
            /\ Once_in_flight (fst (Once_run client o (repeat (OnceOutcome fo) n))) = true).
  { induction n as [|n IH]; intros o Hst Hf Hp; [now repeat split |].
    cbn [repeat]. rewrite Once_run_cons. cbn [fst snd].
    assert (Hstep : once_stopped (fst (Once_step client o (OnceOutcome fo))) = false
                    /\ Once_in_flight (fst (Once_step client o (OnceOutcome fo))) = true
                    /\ once_promise (fst (Once_step client o (OnceOutcome fo))) = Pending
                    /\ count is_fetch (snd (Once_step client o (OnceOutcome fo))) = 1%nat
                    /\ count is_timeout (snd (Once_step client o (OnceOutcome fo))) = 0%nat
                    /\ count is_once_settle (snd (Once_step client o (OnceOutcome fo))) = 0%nat).
    { once_cases o fo; try congruence;
        rewrite Hexec in *;
        match goal with Heq : (_, _) = (_, _) |- _ => inversion Heq; subst end;
        try congruence.
      unfold Once_in_flight. cbn [set_once once_stopped currentRequest once_promise].
      rewrite request_effects.
      rewrite !count_app, count_hooks_fetch, count_hooks_timeout, count_hooks_once_settle
        by assumption.
      repeat split; (assumption || reflexivity). }
    destruct Hstep as (Hst1 & Hf1 & Hp1 & Hc1 & Ht1 & Hs1).
    destruct (IH _ Hst1 Hf1 Hp1) as (Hc2 & Ht2 & Hs2 & Hp2 & Hf2).
    rewrite !count_app, Hc1, Ht1, Hs1, Hc2, Ht2, Hs2. repeat split; assumption. }
  apply Hgen; reflexivity.
Qed.



(** [cancel] of [subscriptionOnce] is idempotent, and never touches the
    promise. *)
Theorem Once_cancel_idempotent (o : Once) :
  Once_cancel (fst (Once_cancel o)) = (fst (Once_cancel o), [])
  /\ once_promise (fst (Once_cancel o)) = once_promise o
  /\ once_stopped (fst (Once_cancel o)) = true.
Proof.
  split; [| split].
  - unfold Once_cancel at 2 3. destruct (currentRequest o) as [r|] eqn:Hcur.
    + pose proof (Request_cancel_idempotent r) as Hidem.
      destruct (Request_cancel r) as [r' effs]. cbn [fst] in *.
      unfold Once_cancel. cbn [currentRequest set_once once_promise]. now rewrite Hidem.
    + reflexivity.
  - apply (Once_cancel_shape o is_settle eq_refl).
  - apply (Once_cancel_shape o is_settle eq_refl).
Qed.


(** *** Effects seen from the loop *)

Lemma count_forall (q p : effect -> bool) (effs : list effect) :
  (forall e, q e = true -> p e = false) ->
  Forall (fun e => q e = true) effs -> count p effs = 0%nat.
Proof.
  intros Hp Hall. unfold count. induction Hall as [|e l He _ IH]; [reflexivity |].
  cbn. now rewrite (Hp e He).
Qed.

Lemma timeouts_app (a b : list effect) : timeouts (a ++ b) = timeouts a ++ timeouts b.
Proof.
  induction a as [|e a IH]; [reflexivity |].
  destruct e; cbn; rewrite IH; reflexivity.
Qed.

Lemma timeouts_below_loop (effs : list effect) :
  Forall (fun e => below_loop e = true) effs -> timeouts effs = [].
Proof.
  intros Hall. induction Hall as [|e l He _ IH]; [reflexivity |].
  destruct e; cbn in *; (discriminate || assumption).
Qed.

Lemma hooks_below_loop (effs : list effect) :
  Forall (fun e => is_hook e = true) effs -> Forall (fun e => below_loop e = true) effs.
Proof. apply Forall_hooks_impl. now intros []. Qed.

Lemma Once_outcome_below_loop (o : Once) (fo : fetch_outcome) :
  Forall (fun e => below_loop e = true) (snd (Once_step client o (OnceOutcome fo))).
Proof.
  once_cases o fo; rewrite ?Forall_app; repeat split;
    try (apply hooks_below_loop; assumption);
    try (repeat constructor; fail).
Qed.

Lemma Once_cancel_below_loop (o : Once) :
  Forall (fun e => below_loop e = true) (snd (Once_cancel o)).
Proof.
  unfold Once_cancel. destruct (currentRequest o) as [r|]; [| constructor].
  destruct (settled r) eqn:Hs.
  - rewrite Request_cancel_settled by assumption. constructor.
  - rewrite Request_cancel_unsettled by assumption. cbn [snd].
    destruct (ac r) as [[|]|]; cbn; repeat constructor.
Qed.

Lemma subscriptionOnce_below_loop (path : string) (input : value) :
  Forall (fun e => below_loop e = true) (snd (subscriptionOnce client path input)).
Proof. cbn. repeat constructor. Qed.

Lemma Once_step_effects (o : Once) (fo : fetch_outcome) :
  snd (Once_step client o (OnceOutcome fo)) = snd (fst (Once_outcome client o fo))
  /\ fst (Once_step client o (OnceOutcome fo)) = fst (fst (Once_outcome client o fo)).
Proof. cbn [Once_step]. now destruct (Once_outcome client o fo) as [[o' effs] s]. Qed.

(** A stopped one-shot subscription sends nothing more and is idle after any
    delivery. *)
Lemma Once_outcome_stopped (o : Once) (fo : fetch_outcome) :
  once_stopped o = true ->
  Once_in_flight (fst (Once_step client o (OnceOutcome fo))) = false
  /\ count is_fetch (snd (Once_step client o (OnceOutcome fo))) = 0%nat.
Proof.
  intros Hst. once_cases o fo; try congruence;
    unfold Once_in_flight; cbn [set_once currentRequest Request_finished in_flight];
    rewrite ?count_app, ?count_hooks_fetch by assumption; split; try reflexivity.
  exact Hflight.
Qed.

(** A delivery that fails and is not a reconnect signal rejects. *)
Lemma Once_outcome_rejects (o : Once) (fo : fetch_outcome) (heffs : list effect)
    (err : TRPCClientError) :
  Once_in_flight o = true ->
  executeRequest client fo = (heffs, Returns (LErr err)) ->
  is_reconnect err = false ->
  exists o', Once_outcome client o fo
             = (o', (heffs ++ [Reject err]) ++ [OnceReject err], Some (inr err))
             /\ Once_in_flight o' = false.
Proof.
  intros Hf Hexec Hre. unfold Once_in_flight in Hf.
  destruct (currentRequest o) as [r|] eqn:Hreq; [| discriminate].
  destruct (Once_outcome_in_flight o r fo Hreq Hf)
    as (h & Hh & [(? & He & Ho) | [(? & He & Ho) | [(? & He & Hre' & Ho)
         | [(? & He & Hre' & Hst & Ho) | (? & He & Hre' & Hst & Ho)]]]]);
    rewrite Hexec in He; inversion He; subst; try congruence.
  eexists. split; [exact Ho | reflexivity].
Qed.

End OnceFacts.

(** ** Subscription loop *)

Section LoopFacts.
Context {platform : Platform}.
Variable client : TRPCClient.
Variable sopts : SubscriptionOpts.

Lemma retryDelay_values :
  retryDelay 0 = 0 /\ retryDelay 1 = 2000 /\ retryDelay 2 = 4000 /\ retryDelay 3 = 8000
  /\ retryDelay 4 = 16000 /\ retryDelay 5 = 30000.
Proof. repeat split. Qed.

Lemma retryDelay_bounds (n : nat) : 0 <= retryDelay n <= 30000.
Proof.
  unfold retryDelay. destruct (Nat.eqb n 0); [lia |].
  assert (0 < 2 ^ Z.of_nat n) by (apply Z.pow_pos_nonneg; lia). lia.
Qed.

Lemma retryDelay_capped (n : nat) : (5 <= n)%nat -> retryDelay n = 30000.
Proof.
  intros Hn. unfold retryDelay. destruct (Nat.eqb_spec n 0); [lia |].
  assert (2 ^ 5 <= 2 ^ Z.of_nat n) by (apply Z.pow_le_mono_r; lia).
  change (2 ^ 5) with 32 in *. lia.
Qed.

Lemma call_onError_sub (e : exn) :
  (forall h, sub_onError sopts = Some h -> h e = None) ->
  call_hook (sub_onError sopts) OnError e = (sub_onError_effects sopts e, None).
Proof.
  intros Hret. unfold call_hook, sub_onError_effects.
  destruct (sub_onError sopts) as [h|]; [| reflexivity]. now rewrite (Hret h eq_refl).
Qed.

Lemma call_onData_sub (data : value) :
  (forall h, sub_onData sopts = Some h -> h data = None) ->
  call_hook (sub_onData sopts) OnData data = (sub_onData_effects sopts data, None).
Proof.
  intros Hret. unfold call_hook, sub_onData_effects.
  destruct (sub_onData sopts) as [h|]; [| reflexivity]. now rewrite (Hret h eq_refl).
Qed.

(** The [catch] block of a loop that is not stopped, with an error callback
    that returns. *)
Lemma Loop_catch_running (l : Loop) (input : value) (e : exn) :
  stopped l = false ->
  (forall h, sub_onError sopts = Some h -> h e = None) ->
  Loop_catch sopts l input e
  = (set_loop l false (S (attemptIndex l)) (has_currentPromise l) (cycle l) (Some input),
     sub_onError_effects sopts e ++ [SetTimeout (retryDelay (S (attemptIndex l))) input]).
Proof.
  intros Hst Hret. unfold Loop_catch. rewrite Hst, (call_onError_sub e Hret). reflexivity.
Qed.

Lemma Loop_catch_stopped (l : Loop) (input : value) (e : exn) :
  stopped l = true -> Loop_catch sopts l input e = (l, []).
Proof. intros Hst. unfold Loop_catch. now rewrite Hst. Qed.

Lemma Loop_timer_pending (l : Loop) (input : value) :
  timer l = Some input ->
  Loop_timer client l
  = (set_loop l (stopped l) (attemptIndex l) true
       (fst (subscriptionOnce client (sub_path l) input)) None,
     snd (subscriptionOnce client (sub_path l) input)).
Proof. intros Ht. unfold Loop_timer. rewrite Ht. reflexivity. Qed.

(** The [catch] block of a loop that is not stopped, with an error callback
    that throws: nothing follows the call. *)
Lemma Loop_catch_onError_throws (l : Loop) (input : value) (e t : exn)
    (h : callback exn) :
  stopped l = false ->
  sub_onError sopts = Some h ->
  h e = Some t ->
  Loop_catch sopts l input e = (l, [OnError e]).
Proof.
  intros Hst Hh Hthrow. unfold Loop_catch, call_hook. now rewrite Hst, Hh, Hthrow.
Qed.

(** The [catch] block never lowers [attemptIndex] and raises it by one at
    most. *)
Lemma Loop_catch_attemptIndex (l : Loop) (input : value) (e : exn) :
  (attemptIndex l <= attemptIndex (fst (Loop_catch sopts l input e)) <= S (attemptIndex l))%nat.
Proof.
  unfold Loop_catch. destruct (stopped l); [cbn; lia |].
  destruct (call_hook (sub_onError sopts) OnError e) as [effs [t|]]; cbn; lia.
Qed.

(** C9 (amended): [retryDelay] is 0 at 0 and [min (1000 * 2^n) 30000]
    elsewhere.  In a loop that is not stopped, a cycle whose one-shot
    subscription is rejected hands the error to [onError]; when [onError] is
    absent or returns, [attemptIndex] is incremented by one and a retry of the
    same input is scheduled, as the last effect, after [retryDelay] of the new
    index, and when the timer fires the transport call of that input is
    issued again; when [onError] throws, [attemptIndex] is left as it is and
    no retry is scheduled.  A cycle that resolves sets [attemptIndex] to 0
    before the callbacks run: afterwards it is 0 when the callbacks return
    and never more than 1. *)
Theorem C9_retry_backoff :
  (retryDelay 0 = 0
   /\ forall n, n <> 0%nat -> retryDelay n = Z.min (1000 * 2 ^ Z.of_nat n) 30000)
  /\ (forall l fo o effs err,
      stopped l = false ->
      Once_outcome client (cycle l) fo = (o, effs, Some (inr err)) ->
      (forall h, sub_onError sopts = Some h -> h (ExnClient err) = None) ->
      attemptIndex (fst (Loop_outcome client sopts l fo)) = S (attemptIndex l)
      /\ timer (fst (Loop_outcome client sopts l fo)) = Some (once_input (cycle l))
      /\ snd (Loop_outcome client sopts l fo)
         = effs ++ sub_onError_effects sopts (ExnClient err)
                ++ [SetTimeout (retryDelay (S (attemptIndex l))) (once_input (cycle l))]
      /\ snd (Loop_timer client (fst (Loop_outcome client sopts l fo)))
         = snd (subscriptionOnce client (sub_path l) (once_input (cycle l))))
  /\ (forall l fo o effs err h t,
      stopped l = false ->
      Once_outcome client (cycle l) fo = (o, effs, Some (inr err)) ->
      sub_onError sopts = Some h ->
      h (ExnClient err) = Some t ->
      attemptIndex (fst (Loop_outcome client sopts l fo)) = attemptIndex l
      /\ timer (fst (Loop_outcome client sopts l fo)) = timer l
      /\ snd (Loop_outcome client sopts l fo) = effs ++ [OnError (ExnClient err)])
  /\ (forall l fo o effs data,
      Once_outcome client (cycle l) fo = (o, effs, Some (inl data)) ->
      (attemptIndex (fst (Loop_outcome client sopts l fo)) <= 1)%nat
      /\ (forall next,
          (forall h, sub_onData sopts = Some h -> h data = None) ->
          nextInput sopts data = Returns next ->
          attemptIndex (fst (Loop_outcome client sopts l fo)) = 0%nat)).
Proof.
  split; [| split; [| split]].
  - split; [reflexivity |]. intros n Hn. unfold retryDelay.
    now destruct (Nat.eqb_spec n 0).
  - intros l fo o effs err Hst Hout Hret. unfold Loop_outcome. rewrite Hout.
    cbn [stopped attemptIndex has_currentPromise timer set_loop].
    rewrite Loop_catch_running by (cbn; assumption).
    cbn [fst snd attemptIndex timer set_loop cycle]. repeat split.
  - intros l fo o effs err h t Hst Hout Hh Hthrow. unfold Loop_outcome. rewrite Hout.
    rewrite (Loop_catch_onError_throws _ _ _ t h) by (cbn; assumption).
    cbn [fst snd attemptIndex timer set_loop]. repeat split.
  - intros l fo o effs data Hout. split.
    + unfold Loop_outcome. rewrite Hout.
      destruct (call_hook (sub_onData sopts) OnData data) as [effs1 [e|]].
      * match goal with
        | |- context [Loop_catch sopts ?l2 ?i e] =>
            pose proof (Loop_catch_attemptIndex l2 i e) as Hle;
            destruct (Loop_catch sopts l2 i e) as [l3 effs2]
        end.
        cbn [fst attemptIndex set_loop] in *. lia.
      * destruct (nextInput sopts data) as [next|e].
        -- cbn. lia.
        -- match goal with
           | |- context [Loop_catch sopts ?l2 ?i e] =>
               pose proof (Loop_catch_attemptIndex l2 i e) as Hle;
               destruct (Loop_catch sopts l2 i e) as [l3 effs2]
           end.
           cbn [fst attemptIndex set_loop] in *. lia.
    + intros next Hret Hnext. unfold Loop_outcome. rewrite Hout.
      rewrite (call_onData_sub data Hret), Hnext. reflexivity.
Qed.

(** A delivery that resolves the one-shot subscription comes from a request
    in flight for which [executeRequest] returned the data. *)
Lemma Once_outcome_resolved (o o' : Once) (fo : fetch_outcome) (effs : list effect)
    (data : value) :
  Once_outcome client o fo = (o', effs, Some (inl data)) ->
  exists heffs, executeRequest client fo = (heffs, Returns (LOk data))
                /\ effs = (heffs ++ [Resolve data]) ++ [OnceResolve data].
Proof.
  intros Hres.
  destruct (Once_in_flight o) eqn:Hfl.
  - unfold Once_in_flight in Hfl. destruct (currentRequest o) as [r|] eqn:Hreq; [| discriminate].
    destruct (Once_outcome_in_flight client o r fo Hreq Hfl)
      as (heffs & Hh & [(? & He & Ho) | [(? & He & Ho) | [(? & He & Hre & Ho)
           | [(? & He & Hre & Hst & Ho) | (? & He & Hre & Hst & Ho)]]]]);
      rewrite Ho in Hres; inversion Hres; subst. eauto.
  - rewrite (Once_outcome_idle client o fo Hfl) in Hres. inversion Hres.
Qed.

(** A fresh one-shot subscription resolves as soon as [executeRequest]
    returns data. *)
Lemma subscriptionOnce_resolves (path : string) (input : value) (fo : fetch_outcome)
    (heffs : list effect) (data : value) :
  executeRequest client fo = (heffs, Returns (LOk data)) ->
  exists o', Once_outcome client (fst (subscriptionOnce client path input)) fo
             = (o', (heffs ++ [Resolve data]) ++ [OnceResolve data], Some (inl data)).
Proof.
  intros Hexec.
  destruct (Once_outcome_in_flight client (fst (subscriptionOnce client path input))
              (fst (request client subscription input path)) fo eq_refl eq_refl)
    as (h & Hh & [(? & He & Ho) | [(? & He & Ho) | [(? & He & Hre & Ho)
         | [(? & He & Hre & Hst & Ho) | (? & He & Hre & Hst & Ho)]]]]);
    rewrite Hexec in He; inversion He; subst. eauto.
Qed.

(** Every cycle that resolves hands its data to [onData] first. *)
Lemma Loop_outcome_delivers (l : Loop) (fo : fetch_outcome) (o : Once) (effs : list effect)
    (data : value) (h : callback value) :
  Once_outcome client (cycle l) fo = (o, effs, Some (inl data)) ->
  sub_onData sopts = Some h ->
  exists rest, snd (Loop_outcome client sopts l fo) = effs ++ OnData data :: rest.
Proof.
  intros Hout Hh. unfold Loop_outcome. rewrite Hout. unfold call_hook. rewrite Hh.
  destruct (h data) as [e|].
  - destruct (Loop_catch sopts _ _ e) as [l3 effs2]. cbn. eauto.
  - destruct (nextInput sopts data) as [next|e].
    + destruct (Loop_exec client _ next) as [l3 effs2]. cbn. eauto.
    + destruct (Loop_catch sopts _ _ e) as [l3 effs2]. cbn. eauto.
Qed.

Lemma Loop_run_cons (l : Loop) (ev : loop_event) (evs : list loop_event) :
  Loop_run client sopts l (ev :: evs)
  = (fst (Loop_run client sopts (fst (Loop_step client sopts l ev)) evs),
     snd (Loop_step client sopts l ev)
     ++ snd (Loop_run client sopts (fst (Loop_step client sopts l ev)) evs)).
Proof.
  cbn [Loop_run]. destruct (Loop_step client sopts l ev) as [l1 e1].
  cbn [fst snd]. now destruct (Loop_run client sopts l1 evs).
Qed.

(** The cycle in which a callback throws, for a loop that is not stopped. *)
Lemma Loop_outcome_callback_throws (l : Loop) (fo : fetch_outcome) (o : Once)
    (effs : list effect) (data : value) (e : exn) :
  stopped l = false ->
  Once_outcome client (cycle l) fo = (o, effs, Some (inl data)) ->
  callback_throws sopts data e ->
  (forall h, sub_onError sopts = Some h -> h e = None) ->
  Loop_outcome client sopts l fo
  = (set_loop l false 1 (has_currentPromise l) o (Some (once_input (cycle l))),
     effs ++ sub_onData_effects sopts data
          ++ sub_onError_effects sopts e
          ++ [SetTimeout (retryDelay 1) (once_input (cycle l))]).
Proof.
  intros Hst Hout Hthrow Hret. unfold Loop_outcome. rewrite Hout.
  cbn [stopped attemptIndex has_currentPromise timer set_loop cycle].
  destruct Hthrow as [(h & Hh & Hhe) | [Hdata Hnext]].
  - unfold call_hook, sub_onData_effects. rewrite Hh, Hhe.
    rewrite Loop_catch_running by (cbn; assumption). cbn [set_loop attemptIndex has_currentPromise cycle].
    rewrite <- ?app_assoc. reflexivity.
  - rewrite (call_onData_sub data Hdata), Hnext.
    rewrite Loop_catch_running by (cbn; assumption). cbn [set_loop attemptIndex has_currentPromise cycle].
    rewrite <- ?app_assoc. reflexivity.
Qed.

(** The loop keeps a single chain of activations, so one slot for the
    pending retry is enough. *)
Lemma Loop_catch_single_chain (l : Loop) (input : value) (e : exn) :
  Once_in_flight (cycle l) = false -> timer l = None ->
  single_chain (fst (Loop_catch sopts l input e)).
Proof.
  intros Hidle Ht. unfold Loop_catch, single_chain.
  destruct (stopped l); [cbn; congruence |].
  destruct (call_hook (sub_onError sopts) OnError e) as [effs [t|]]; cbn; congruence.
Qed.

Lemma Loop_step_single_chain (l : Loop) (ev : loop_event) :
  single_chain l -> single_chain (fst (Loop_step client sopts l ev)).
Proof.
  intros Hinv. destruct ev as [fo| |]; cbn [Loop_step].
  - unfold Loop_outcome.
    destruct (Once_in_flight (cycle l)) eqn:Hfl.
    + assert (Ht : timer l = None).
      { destruct (timer l) eqn:Ht; [| reflexivity].
        unfold single_chain in Hinv. rewrite Ht, Hfl in Hinv.
        discriminate Hinv. discriminate. }
      destruct (Once_outcome client (cycle l) fo) as [[o effs] settlement] eqn:Hout.
      destruct settlement as [[data|err]|].
      * pose proof (Once_outcome_settled_idle client _ _ _ _ _ Hout) as Hidle.
        destruct (call_hook (sub_onData sopts) OnData data) as [effs1 [e|]].
        -- pose proof (Loop_catch_single_chain
                         (set_loop (set_loop l (stopped l) (attemptIndex l)
                                      (has_currentPromise l) o (timer l))
                                   (stopped l) 0 (has_currentPromise l) o (timer l))
                         (once_input (cycle l)) e Hidle Ht) as Hc.
           cbn [set_loop stopped attemptIndex has_currentPromise cycle timer] in *.
           destruct (Loop_catch sopts _ _ e). exact Hc.
        -- destruct (nextInput sopts data) as [next|e].
           ++ cbn. unfold single_chain. cbn. congruence.
           ++ pose proof (Loop_catch_single_chain
                            (set_loop (set_loop l (stopped l) (attemptIndex l)
                                         (has_currentPromise l) o (timer l))
                                      (stopped l) 0 (has_currentPromise l) o (timer l))
                            (once_input (cycle l)) e Hidle Ht) as Hc.
              cbn [set_loop stopped attemptIndex has_currentPromise cycle timer] in *.
              destruct (Loop_catch sopts _ _ e). exact Hc.
      * pose proof (Once_outcome_settled_idle client _ _ _ _ _ Hout) as Hidle.
        pose proof (Loop_catch_single_chain
                      (set_loop l (stopped l) (attemptIndex l) (has_currentPromise l) o (timer l))
                      (once_input (cycle l)) (ExnClient err) Hidle Ht) as Hc.
        destruct (Loop_catch sopts _ _ (ExnClient err)). exact Hc.
      * unfold single_chain. cbn. congruence.
    + rewrite (Once_outcome_idle client _ fo Hfl). unfold single_chain. cbn.
      intros Ht. exact Hfl.
  - unfold Loop_unsubscribe, single_chain.
    destruct (has_currentPromise l).
    + destruct (Once_cancel_shape (cycle l) is_settle eq_refl) as (Hi & _).
      destruct (Once_cancel (cycle l)) as [o effs]. cbn in *. now rewrite Hi.
    + cbn. exact Hinv.
  - unfold Loop_timer. destruct (timer l); [| exact Hinv].
    unfold single_chain. cbn. congruence.
Qed.

Lemma Loop_run_single_chain (path : string) (evs : list loop_event) :
  single_chain
    (fst (Loop_run client sopts (fst (client_subscription client sopts path)) evs)).
Proof.
  assert (Hgen : forall l, single_chain l -> single_chain (fst (Loop_run client sopts l evs))).
  { induction evs as [|ev evs IH]; intros l Hinv; [exact Hinv |].
    rewrite Loop_run_cons. cbn [fst]. apply IH. now apply Loop_step_single_chain. }
  apply Hgen. unfold single_chain. cbn. congruence.
Qed.

(** The cycle in which a callback throws: the thrown value goes to the
    [catch] block of [exec], [attemptIndex] being 0 already. *)
Lemma Loop_outcome_callback_catch (l : Loop) (fo : fetch_outcome) (o : Once)
    (effs : list effect) (data : value) (e : exn) :
  Once_outcome client (cycle l) fo = (o, effs, Some (inl data)) ->
  callback_throws sopts data e ->
  Loop_outcome client sopts l fo
  = (fst (Loop_catch sopts (set_loop l (stopped l) 0 (has_currentPromise l) o (timer l))
            (once_input (cycle l)) e),
     effs ++ sub_onData_effects sopts data
          ++ snd (Loop_catch sopts (set_loop l (stopped l) 0 (has_currentPromise l) o (timer l))
                    (once_input (cycle l)) e)).
Proof.
  intros Hout Hthrow. unfold Loop_outcome. rewrite Hout.
  cbn [stopped attemptIndex has_currentPromise timer set_loop cycle].
  destruct Hthrow as [(h & Hh & Hhe) | [Hdata Hnext]].
  - unfold call_hook at 1, sub_onData_effects. rewrite Hh, Hhe.
    destruct (Loop_catch sopts _ _ e) as [l3 effs2]. reflexivity.
  - rewrite (call_onData_sub data Hdata), Hnext.
    destruct (Loop_catch sopts _ _ e) as [l3 effs2]. reflexivity.
Qed.

(** C10 (amended): when [onData] or [nextInput] throws on the data of a cycle
    that resolved, the thrown value reaches the [catch] block of [exec].  In
    a loop that is not stopped it is handed to [onError]; when [onError] is
    absent or returns, [attemptIndex] becomes 1 and a retry of the same input
    is scheduled after [retryDelay 1], when the timer fires the same transport
    call is issued, and if it yields the same data again [onData] receives
    that data a second time; when [onError] throws, nothing is scheduled.  In
    a stopped loop the thrown value is dropped: [onError] is not called and
    nothing is scheduled. *)
Theorem C10_callback_throw_is_cycle_failure (l : Loop) (fo : fetch_outcome) (o : Once)
    (effs : list effect) (data : value) (e : exn) :
  Once_outcome client (cycle l) fo = (o, effs, Some (inl data)) ->
  callback_throws sopts data e ->
  (stopped l = false ->
   (forall h, sub_onError sopts = Some h -> h e = None) ->
   snd (Loop_outcome client sopts l fo)
   = effs ++ sub_onData_effects sopts data
          ++ sub_onError_effects sopts e
          ++ [SetTimeout (retryDelay 1) (once_input (cycle l))]
   /\ attemptIndex (fst (Loop_outcome client sopts l fo)) = 1%nat
   /\ timer (fst (Loop_outcome client sopts l fo)) = Some (once_input (cycle l))
   /\ snd (Loop_timer client (fst (Loop_outcome client sopts l fo)))
      = snd (subscriptionOnce client (sub_path l) (once_input (cycle l)))
   /\ (forall h, sub_onData sopts = Some h ->
       exists a b c,
         snd (Loop_run client sopts l [Outcome fo; TimerFires; Outcome fo])
         = a ++ OnData data :: b ++ OnData data :: c))
  /\ (stopped l = false ->
      forall h t, sub_onError sopts = Some h -> h e = Some t ->
      snd (Loop_outcome client sopts l fo)
      = effs ++ sub_onData_effects sopts data ++ [OnError e]
      /\ attemptIndex (fst (Loop_outcome client sopts l fo)) = 0%nat
      /\ timer (fst (Loop_outcome client sopts l fo)) = timer l)
  /\ (stopped l = true ->
      snd (Loop_outcome client sopts l fo) = effs ++ sub_onData_effects sopts data
      /\ attemptIndex (fst (Loop_outcome client sopts l fo)) = 0%nat
      /\ timer (fst (Loop_outcome client sopts l fo)) = timer l
      /\ stopped (fst (Loop_outcome client sopts l fo)) = true).
Proof.
  intros Hout Hthrow.
  pose proof (Loop_outcome_callback_catch l fo o effs data e Hout Hthrow) as Hcatch.
  split; [| split].
  - intros Hst Hret.
    pose proof (Loop_outcome_callback_throws l fo o effs data e Hst Hout Hthrow Hret) as Hstep.
    rewrite Hstep. cbn [fst snd attemptIndex timer set_loop].
    repeat (split; [reflexivity |]).
    intros h Hh.
    destruct (Once_outcome_resolved _ _ _ _ _ Hout) as (heffs & Hexec & _).
    destruct (subscriptionOnce_resolves (sub_path l) (once_input (cycle l)) fo heffs data Hexec)
      as (o2 & Hout2).
    rewrite !Loop_run_cons. cbn [Loop_step Loop_run fst snd]. rewrite Hstep. cbn [fst snd].
    rewrite (Loop_timer_pending _ (once_input (cycle l))) by reflexivity. cbn [fst snd].
    match goal with
    | |- context [Loop_outcome client sopts ?l2 fo] =>
        destruct (Loop_outcome_delivers l2 fo o2 _ data h Hout2 Hh) as (rest & Hdel)
    end.
    rewrite Hdel. unfold sub_onData_effects. rewrite Hh.
    exists effs,
      (sub_onError_effects sopts e
       ++ [SetTimeout (retryDelay 1) (once_input (cycle l))]
       ++ snd (subscriptionOnce client (sub_path l) (once_input (cycle l)))
       ++ (heffs ++ [Resolve data]) ++ [OnceResolve data]),
      rest.
    cbn [sub_path set_loop]. rewrite app_nil_r. repeat rewrite <- app_assoc.
    cbn [app]. reflexivity.
  - intros Hst h t Hh Ht. rewrite Hcatch.
    rewrite (Loop_catch_onError_throws _ _ _ t h) by (cbn; assumption).
    cbn [fst snd attemptIndex timer set_loop]. repeat split.
  - intros Hst. rewrite Hcatch.
    rewrite Loop_catch_stopped by (cbn; assumption).
    cbn [fst snd attemptIndex timer set_loop stopped]. rewrite app_nil_r.
    repeat split. exact Hst.
Qed.

(** *** Further facts on the loop *)

(** Case analysis on one delivery to the loop, down to every branch of
    [exec]. *)
Ltac loop_cases l fo :=
  let o := fresh "o" in
  let effs := fresh "effs" in
  let Hout := fresh "Hout" in
  let Hbelow := fresh "Hbelow" in
  pose proof (Once_outcome_below_loop client (cycle l) fo) as Hbelow;
  cbn [Once_step] in Hbelow;
  unfold Loop_outcome, Loop_catch, Loop_exec, call_hook;
  destruct (Once_outcome client (cycle l) fo) as [[o effs] [[?data|?err]|]] eqn:Hout;
  cbn [fst snd] in Hbelow;
  cbn [stopped attemptIndex has_currentPromise timer set_loop cycle sub_path];
  try destruct (sub_onData sopts) as [?h|] eqn:?;
  try match goal with |- context [?h ?d] =>
        match type of h with callback value => destruct (h d) as [?e|] eqn:? end end;
  try match goal with |- context [nextInput sopts ?d] =>
        destruct (nextInput sopts d) as [?next|?e] eqn:? end;
  try destruct (stopped l) eqn:?;
  try destruct (sub_onError sopts) as [?g|] eqn:?;
  try match goal with |- context [?g ?x] =>
        match type of g with callback exn => destruct (g x) as [?t|] eqn:? end end;
  try match goal with |- context [subscriptionOnce client ?p ?i] =>
        rewrite (surjective_pairing (subscriptionOnce client p i)) end;
  cbn [fst snd stopped attemptIndex has_currentPromise timer set_loop cycle sub_path].

Lemma retryDelay_succ_range (n : nat) : 2000 <= retryDelay (S n) <= 30000.
Proof.
  unfold retryDelay. cbn [Nat.eqb].
  assert (2 ^ 1 <= 2 ^ Z.of_nat (S n)) by (apply Z.pow_le_mono_r; lia).
  change (2 ^ 1) with 2 in *. lia.
Qed.

Lemma Loop_step_timeouts (l : Loop) (ev : loop_event) :
  Forall (fun ms => 2000 <= ms <= 30000) (timeouts (snd (Loop_step client sopts l ev))).
Proof.
  destruct ev as [fo| |]; cbn [Loop_step].
  - loop_cases l fo;
      rewrite ?timeouts_app, ?(timeouts_below_loop _ Hbelow),
              ?(timeouts_below_loop _ (subscriptionOnce_below_loop client _ _));
      cbn [timeouts app];
      repeat first [apply List.Forall_nil
                   | apply List.Forall_cons; [apply retryDelay_succ_range |]].
  - unfold Loop_unsubscribe. destruct (has_currentPromise l); cbn; [| constructor].
    pose proof (Once_cancel_below_loop (cycle l)) as Hc.
    destruct (Once_cancel (cycle l)) as [o effs]. cbn in *.
    rewrite (timeouts_below_loop _ Hc). constructor.
  - unfold Loop_timer. destruct (timer l); cbn; constructor.
Qed.

(** Every retry the loop schedules waits between 2 and 30 seconds: as
    [attemptIndex] is incremented before [retryDelay] is called, the delay 0
    of [retryDelay 0] is never used. *)
Theorem scheduled_delays_in_range (l : Loop) (evs : list loop_event) :
  Forall (fun ms => 2000 <= ms <= 30000) (timeouts (snd (Loop_run client sopts l evs))).
Proof.
  revert l. induction evs as [|ev evs IH]; intros l; [constructor |].
  rewrite Loop_run_cons. cbn [snd]. rewrite timeouts_app. apply Forall_app. split.
  - apply Loop_step_timeouts.
  - apply IH.
Qed.

Lemma count_below_loop (p : effect -> bool) (effs : list effect) :
  (forall e, below_loop e = true -> p e = false) ->
  Forall (fun e => below_loop e = true) effs -> count p effs = 0%nat.
Proof. apply count_forall. Qed.

Lemma below_not_onError (e : effect) : below_loop e = true -> is_onError e = false.
Proof. now destruct e. Qed.

Lemma below_not_subscriber_call (e : effect) :
  below_loop e = true -> is_subscriber_call e = false.
Proof. now destruct e. Qed.

Lemma Once_outcome_step (o o' : Once) (fo : fetch_outcome) (effs : list effect)
    (s : option (value + TRPCClientError)) :
  Once_outcome client o fo = (o', effs, s) ->
  Once_step client o (OnceOutcome fo) = (o', effs).
Proof. intros Hout. cbn [Once_step]. now rewrite Hout. Qed.

Lemma Loop_step_stopped (l : Loop) (ev : loop_event) :
  stopped l = true ->
  stopped (fst (Loop_step client sopts l ev)) = true
  /\ count is_onError (snd (Loop_step client sopts l ev)) = 0%nat
  /\ timeouts (snd (Loop_step client sopts l ev)) = [].
Proof.
  intros Hst. destruct ev as [fo| |]; cbn [Loop_step].
  - loop_cases l fo; try discriminate;
      rewrite ?timeouts_app, ?count_app, ?(timeouts_below_loop _ Hbelow),
              ?(count_below_loop _ _ below_not_onError Hbelow),
              ?(timeouts_below_loop _ (subscriptionOnce_below_loop client _ _)),
              ?(count_below_loop _ _ below_not_onError (subscriptionOnce_below_loop client _ _));
      repeat split.
  - unfold Loop_unsubscribe.
    pose proof (Once_cancel_below_loop (cycle l)) as Hc.
    destruct (has_currentPromise l); [| now repeat split].
    destruct (Once_cancel (cycle l)) as [o effs]. cbn [fst snd stopped set_loop] in *.
    rewrite (timeouts_below_loop _ Hc), (count_below_loop _ _ below_not_onError Hc).
    now repeat split.
  - unfold Loop_timer. destruct (timer l); [| now repeat split].
    unfold Loop_exec. rewrite (surjective_pairing (subscriptionOnce client _ _)).
    cbn [fst snd stopped set_loop].
    rewrite (timeouts_below_loop _ (subscriptionOnce_below_loop client _ _)),
            (count_below_loop _ _ below_not_onError (subscriptionOnce_below_loop client _ _)).
    now repeat split.
Qed.


Lemma Loop_run_stays_stopped (l : Loop) (evs : list loop_event) :
  stopped l = true -> stopped (fst (Loop_run client sopts l evs)) = true.
Proof.
  revert l. induction evs as [|ev evs IH]; intros l Hst; [exact Hst |].
  rewrite Loop_run_cons. cbn [fst]. apply IH. apply (Loop_step_stopped l ev Hst).
Qed.

Lemma Loop_step_idle (l : Loop) (ev : loop_event) :
  Loop_idle l ->
  Loop_idle (fst (Loop_step client sopts l ev))
  /\ stopped (fst (Loop_step client sopts l ev))
     = match ev with Unsubscribe => true | _ => stopped l end
  /\ count is_fetch (snd (Loop_step client sopts l ev)) = 0%nat
  /\ count is_subscriber_call (snd (Loop_step client sopts l ev)) = 0%nat
  /\ timeouts (snd (Loop_step client sopts l ev)) = [].
Proof.
  intros [Hidle Ht]. destruct ev as [fo| |]; cbn [Loop_step].
  - unfold Loop_outcome. rewrite (Once_outcome_idle client _ fo Hidle).
    cbn. now repeat split.
  - unfold Loop_unsubscribe, Loop_idle.
    destruct (has_currentPromise l); [| cbn; now repeat split].
    destruct (Once_cancel_shape (cycle l) is_fetch eq_refl) as (Hi & _ & _ & Hc1).
    destruct (Once_cancel_shape (cycle l) is_subscriber_call eq_refl) as (_ & _ & _ & Hc2).
    pose proof (Once_cancel_below_loop (cycle l)) as Hb.
    destruct (Once_cancel (cycle l)) as [o effs].
    cbn [fst snd stopped set_loop cycle timer] in *.
    rewrite Hi, (timeouts_below_loop _ Hb). now repeat split.
  - unfold Loop_timer. rewrite Ht. cbn. now repeat split.
Qed.

Lemma Loop_run_idle (l : Loop) (evs : list loop_event) :
  Loop_idle l ->
  Loop_idle (fst (Loop_run client sopts l evs))
  /\ count is_fetch (snd (Loop_run client sopts l evs)) = 0%nat
  /\ count is_subscriber_call (snd (Loop_run client sopts l evs)) = 0%nat
  /\ timeouts (snd (Loop_run client sopts l evs)) = [].
Proof.
  revert l. induction evs as [|ev evs IH]; intros l Hidle;
    [split; [exact Hidle | now repeat split] |].
  rewrite Loop_run_cons. cbn [fst snd].
  destruct (Loop_step_idle l ev Hidle) as (Hi1 & _ & Hf1 & Hs1 & Ht1).
  destruct (IH _ Hi1) as (Hi2 & Hf2 & Hs2 & Ht2).
  rewrite !count_app, timeouts_app, Hf1, Hf2, Hs1, Hs2, Ht1, Ht2.
  split; [exact Hi2 | now repeat split].
Qed.

Lemma Loop_step_current_while_running (l : Loop) (ev : loop_event) :
  current_while_running l -> current_while_running (fst (Loop_step client sopts l ev)).
Proof.
  unfold current_while_running. intros Hinv. destruct ev as [fo| |]; cbn [Loop_step].
  - loop_cases l fo; try (intros _; reflexivity); try discriminate; auto.
  - unfold Loop_unsubscribe. destruct (has_currentPromise l);
      [destruct (Once_cancel (cycle l)) |]; cbn; discriminate.
  - unfold Loop_timer. destruct (timer l); [| exact Hinv].
    unfold Loop_exec. rewrite (surjective_pairing (subscriptionOnce client _ _)). cbn. reflexivity.
Qed.

Lemma Loop_run_current_while_running (path : string) (evs : list loop_event) :
  current_while_running
    (fst (Loop_run client sopts (fst (client_subscription client sopts path)) evs)).
Proof.
  assert (Hgen : forall l, current_while_running l ->
                           current_while_running (fst (Loop_run client sopts l evs))).
  { induction evs as [|ev evs IH]; intros l Hinv; [exact Hinv |].
    rewrite Loop_run_cons. cbn [fst]. apply IH. now apply Loop_step_current_while_running. }
  apply Hgen. intros _. reflexivity.
Qed.

(** [unsubscribe] while a request is in flight, with a transport that then
    fails the request (as it does when it honours the abort signal), ends the
    loop for good: no callback is called, no retry is scheduled and no
    request is sent, whatever arrives later. *)
Theorem unsubscribe_in_flight_ends_loop (path : string) (pre post : list loop_event)
    (fo : fetch_outcome) :
  let l := fst (Loop_run client sopts (fst (client_subscription client sopts path)) pre) in
  stopped l = false ->
  Once_in_flight (cycle l) = true ->
  fetch_fails fo = true ->
  let run := Loop_run client sopts l (Unsubscribe :: Outcome fo :: post) in
  stopped (fst run) = true
  /\ Loop_idle (fst run)
  /\ count is_subscriber_call (snd run) = 0%nat
  /\ count is_fetch (snd run) = 0%nat
  /\ timeouts (snd run) = [].
Proof.
  intros l Hst Hfl Hfails run. subst run.
  assert (Hhas : has_currentPromise l = true).
  { exact (Loop_run_current_while_running path pre Hst). }
  assert (Ht : timer l = None).
  { pose proof (Loop_run_single_chain path pre) as Hsc. fold l in Hsc.
    unfold single_chain in Hsc. destruct (timer l); [| reflexivity].
    rewrite Hfl in Hsc. discriminate Hsc. discriminate. }
  clearbody l.
  rewrite !Loop_run_cons. cbn [fst snd Loop_step].
  unfold Loop_unsubscribe. rewrite Hhas.
  destruct (Once_cancel_shape (cycle l) is_fetch eq_refl) as (Hi & _ & Hst1 & Hc1).
  destruct (Once_cancel_shape (cycle l) is_subscriber_call eq_refl) as (_ & _ & _ & Hc2).
  pose proof (Once_cancel_below_loop (cycle l)) as Hb1.
  destruct (Once_cancel (cycle l)) as [o1 effs1].
  cbn [fst snd cycle set_loop] in *.
  unfold Loop_outcome. cbn [cycle set_loop stopped attemptIndex has_currentPromise timer].
  destruct (Once_outcome_stopped client o1 fo Hst1) as [Hidle2 Hf2].
  pose proof (Once_outcome_below_loop client o1 fo) as Hb2.
  destruct (Once_outcome client o1 fo) as [[o2 effs2] s] eqn:Hout.
  rewrite (Once_outcome_step _ _ _ _ _ Hout) in Hidle2, Hf2, Hb2. cbn [fst snd] in *.
  assert (Hfinal : forall l2 effs3,
             Loop_idle l2 -> stopped l2 = true -> effs3 = effs2 ->
             stopped (fst (Loop_run client sopts l2 post)) = true
             /\ Loop_idle (fst (Loop_run client sopts l2 post))
             /\ count is_subscriber_call
                  (effs1 ++ effs3 ++ snd (Loop_run client sopts l2 post)) = 0%nat
             /\ count is_fetch (effs1 ++ effs3 ++ snd (Loop_run client sopts l2 post)) = 0%nat
             /\ timeouts (effs1 ++ effs3 ++ snd (Loop_run client sopts l2 post)) = []).
  { intros l2 effs3 Hidle Hst2 ->.
    destruct (Loop_run_idle l2 post Hidle) as (Hi3 & Hf3 & Hs3 & Ht3).
    pose proof (Loop_run_stays_stopped l2 post Hst2) as Hst3.
    rewrite !count_app, !timeouts_app, Hc1, Hc2, Hf2, Hf3, Hs3, Ht3,
      (timeouts_below_loop _ Hb1), (timeouts_below_loop _ Hb2),
      (count_below_loop _ _ below_not_subscriber_call Hb2).
    split; [assumption | split; [assumption | repeat split]]. }
  destruct s as [[data|err]|].
  - exfalso. destruct (Once_outcome_resolved _ _ _ _ _ Hout) as (heffs & Hexec & _).
    exact (executeRequest_fetch_fails client fo Hfails _ _ Hexec).
  - rewrite Loop_catch_stopped by reflexivity. cbn [fst snd]. rewrite app_nil_r.
    apply Hfinal; [split; assumption | reflexivity | reflexivity].
  - cbn [fst snd]. apply Hfinal; [split; assumption | reflexivity | reflexivity].
Qed.

Lemma rejection_sends_nothing (fo : fetch_outcome) (heffs : list effect)
    (err : TRPCClientError) :
  executeRequest client fo = (heffs, Returns (LErr err)) ->
  count is_fetch ((heffs ++ [Reject err]) ++ [OnceReject err]) = 0%nat.
Proof.
  intros Hexec. pose proof (executeRequest_effects_hooks client fo) as Hh.
  rewrite Hexec in Hh. cbn [fst] in Hh.
  rewrite !count_app, (count_hooks_fetch _ Hh). reflexivity.
Qed.

Lemma reachable_in_flight_no_timer (path : string) (pre : list loop_event) :
  Once_in_flight
    (cycle (fst (Loop_run client sopts (fst (client_subscription client sopts path)) pre)))
  = true ->
  timer (fst (Loop_run client sopts (fst (client_subscription client sopts path)) pre)) = None.
Proof.
  intros Hfl. pose proof (Loop_run_single_chain path pre) as Hsc.
  unfold single_chain in Hsc.
  destruct (timer _); [| reflexivity]. rewrite Hfl in Hsc. discriminate Hsc. discriminate.
Qed.

(** When [onError] of the subscription throws, nothing is scheduled: the loop
    stops polling for good although it was never unsubscribed. *)
Theorem throwing_subscription_onError_ends_loop (path : string) (pre post : list loop_event)
    (fo : fetch_outcome) (heffs : list effect) (err : TRPCClientError)
    (g : callback exn) (t : exn) :
  let l := fst (Loop_run client sopts (fst (client_subscription client sopts path)) pre) in
  stopped l = false ->
  Once_in_flight (cycle l) = true ->
  executeRequest client fo = (heffs, Returns (LErr err)) ->
  is_reconnect err = false ->
  sub_onError sopts = Some g ->
  g (ExnClient err) = Some t ->
  let run := Loop_run client sopts l (Outcome fo :: post) in
  Loop_idle (fst run)
  /\ count is_subscriber_call (snd run) = 1%nat
  /\ count is_fetch (snd run) = 0%nat
  /\ timeouts (snd run) = [].
Proof.
  intros l Hst Hfl Hexec Hre Hg Hthrow run. subst run.
  pose proof (reachable_in_flight_no_timer path pre Hfl) as Ht. fold l in Ht.
  clearbody l.
  destruct (Once_outcome_rejects client (cycle l) fo heffs err Hfl Hexec Hre)
    as (o' & Hout & Hidle).
  pose proof (Once_outcome_below_loop client (cycle l) fo) as Hb.
  pose proof (rejection_sends_nothing fo heffs err Hexec) as Hf.
  rewrite (Once_outcome_step _ _ _ _ _ Hout) in Hb. cbn [snd] in Hb.
  rewrite Loop_run_cons. cbn [fst snd Loop_step].
  unfold Loop_outcome. rewrite Hout.
  cbn [stopped attemptIndex has_currentPromise timer set_loop cycle].
  unfold Loop_catch. cbn [stopped set_loop]. rewrite Hst. unfold call_hook.
  rewrite Hg, Hthrow. cbn [fst snd].
  assert (Hidle1 : Loop_idle (set_loop l false (attemptIndex l) (has_currentPromise l) o'
                                (timer l))).
  { split; [exact Hidle | exact Ht]. }
  destruct (Loop_run_idle _ post Hidle1) as (Hi2 & Hf2 & Hs2 & Ht2).
  set (rejection := (heffs ++ [Reject err]) ++ [OnceReject err]) in *.
  rewrite !count_app, !timeouts_app, Hf, Hf2, Hs2, Ht2,
    (timeouts_below_loop _ Hb), (count_below_loop _ _ below_not_subscriber_call Hb).
  split; [exact Hi2 | repeat split].
Qed.

Lemma Loop_run_app_events (l : Loop) (a b : list loop_event) :
  Loop_run client sopts l (a ++ b)
  = (fst (Loop_run client sopts (fst (Loop_run client sopts l a)) b),
     snd (Loop_run client sopts l a)
     ++ snd (Loop_run client sopts (fst (Loop_run client sopts l a)) b)).
Proof.
  revert l. induction a as [|ev a IH]; intros l.
  - cbn [app Loop_run fst snd]. now destruct (Loop_run client sopts l b).
  - rewrite <- app_comm_cons, !Loop_run_cons, IH. cbn [fst snd]. now rewrite app_assoc.
Qed.

Lemma sub_onError_effects_quiet (e : exn) :
  timeouts (sub_onError_effects sopts e) = []
  /\ count is_fetch (sub_onError_effects sopts e) = 0%nat.
Proof. unfold sub_onError_effects. destruct (sub_onError sopts); now split. Qed.

(** One failed cycle followed by the firing of its retry timer. *)
Lemma failing_round (l : Loop) (fo : fetch_outcome) (heffs : list effect)
    (err : TRPCClientError) :
  stopped l = false ->
  Once_in_flight (cycle l) = true ->
  executeRequest client fo = (heffs, Returns (LErr err)) ->
  is_reconnect err = false ->
  (forall h, sub_onError sopts = Some h -> h (ExnClient err) = None) ->
  let run := Loop_run client sopts l [Outcome fo; TimerFires] in
  stopped (fst run) = false
  /\ Once_in_flight (cycle (fst run)) = true
  /\ attemptIndex (fst run) = S (attemptIndex l)
  /\ once_input (cycle (fst run)) = once_input (cycle l)
  /\ sub_path (fst run) = sub_path l
  /\ timeouts (snd run) = [retryDelay (S (attemptIndex l))]
  /\ snd run
     = ((heffs ++ [Reject err]) ++ [OnceReject err])
       ++ (sub_onError_effects sopts (ExnClient err)
           ++ [SetTimeout (retryDelay (S (attemptIndex l))) (once_input (cycle l))])
       ++ snd (subscriptionOnce client (sub_path l) (once_input (cycle l))).
Proof.
  intros Hst Hfl Hexec Hre Hret run. subst run.
  destruct (Once_outcome_rejects client (cycle l) fo heffs err Hfl Hexec Hre)
    as (o' & Hout & Hidle).
  pose proof (Once_outcome_below_loop client (cycle l) fo) as Hb.
  rewrite (Once_outcome_step _ _ _ _ _ Hout) in Hb. cbn [snd] in Hb.
  rewrite !Loop_run_cons. cbn [Loop_run fst snd Loop_step].
  unfold Loop_outcome. rewrite Hout.
  cbn [stopped attemptIndex has_currentPromise timer set_loop cycle].
  rewrite Loop_catch_running by (cbn; assumption).
  cbn [fst snd stopped attemptIndex has_currentPromise timer set_loop cycle].
  rewrite (Loop_timer_pending _ (once_input (cycle l))) by reflexivity.
  cbn [fst snd stopped attemptIndex has_currentPromise timer set_loop cycle sub_path].
  rewrite app_nil_r. repeat split.
  - set (rejection := (heffs ++ [Reject err]) ++ [OnceReject err]) in *.
    rewrite !timeouts_app, (timeouts_below_loop _ Hb),
      (proj1 (sub_onError_effects_quiet _)).
    reflexivity.
  - now rewrite <- !app_assoc.
Qed.

(** Consecutive failures back off: after [n] failed cycles, each followed by
    its retry, [attemptIndex] is [n], the delays scheduled were
    [retryDelay 1], ..., [retryDelay n] in this order, and the loop is
    polling the same input again. *)
Theorem consecutive_failures_back_off (path : string) (fo : fetch_outcome)
    (heffs : list effect) (err : TRPCClientError) (n : nat) :
  executeRequest client fo = (heffs, Returns (LErr err)) ->
  is_reconnect err = false ->
  (forall h, sub_onError sopts = Some h -> h (ExnClient err) = None) ->
  let run := Loop_run client sopts (fst (client_subscription client sopts path))
               (failing_rounds fo n) in
  attemptIndex (fst run) = n
  /\ timeouts (snd run) = map (fun k => retryDelay (S k)) (seq 0 n)
  /\ stopped (fst run) = false
  /\ Once_in_flight (cycle (fst run)) = true
  /\ once_input (cycle (fst run)) = initialInput sopts.
Proof.
  intros Hexec Hre Hret run. subst run.
  assert (Hgen : forall l, stopped l = false -> Once_in_flight (cycle l) = true ->
            attemptIndex (fst (Loop_run client sopts l (failing_rounds fo n)))
            = (attemptIndex l + n)%nat
            /\ timeouts (snd (Loop_run client sopts l (failing_rounds fo n)))
               = map (fun k => retryDelay (S k)) (seq (attemptIndex l) n)
            /\ stopped (fst (Loop_run client sopts l (failing_rounds fo n))) = false
            /\ Once_in_flight (cycle (fst (Loop_run client sopts l (failing_rounds fo n)))) = true
            /\ once_input (cycle (fst (Loop_run client sopts l (failing_rounds fo n))))
               = once_input (cycle l)).
  { induction n as [|n IH]; intros l Hst Hfl.
    - cbn. rewrite Nat.add_0_r. repeat split; assumption.
    - destruct (failing_round l fo heffs err Hst Hfl Hexec Hre Hret)
        as (Hst1 & Hfl1 & Hai1 & Hin1 & _ & Ht1 & _).
      change (failing_rounds fo (S n)) with ([Outcome fo; TimerFires] ++ failing_rounds fo n).
      rewrite Loop_run_app_events. cbn [fst snd].
      destruct (IH _ Hst1 Hfl1) as (Hai2 & Ht2 & Hst2 & Hfl2 & Hin2).
      rewrite timeouts_app, Ht1, Ht2, Hai2, Hai1, Hin2, Hin1. cbn [seq map app].
      repeat split; (assumption || lia). }
  destruct (Hgen (fst (client_subscription client sopts path)) eq_refl eq_refl)
    as (Hai & Ht & Hst & Hfl & Hin).
  repeat split; assumption.
Qed.

Lemma Once_outcome_resolves (o : Once) (fo : fetch_outcome) (heffs : list effect)
    (data : value) :
  Once_in_flight o = true ->
  executeRequest client fo = (heffs, Returns (LOk data)) ->
  exists o', Once_outcome client o fo
             = (o', (heffs ++ [Resolve data]) ++ [OnceResolve data], Some (inl data)).
Proof.
  intros Hf Hexec. unfold Once_in_flight in Hf.
  destruct (currentRequest o) as [r|] eqn:Hreq; [| discriminate].
  destruct (Once_outcome_in_flight client o r fo Hreq Hf)
    as (h & Hh & [(? & He & Ho) | [(? & He & Ho) | [(? & He & Hre' & Ho)
         | [(? & He & Hre' & Hst & Ho) | (? & He & Hre' & Hst & Ho)]]]]);
    rewrite Hexec in He; inversion He; subst. eauto.
Qed.

(** A cycle that resolves, with callbacks that return, polls again at once:
    the data goes to [onData], the request for [nextInput data] is sent in
    the same step, nothing is scheduled and [attemptIndex] is 0. *)
Theorem resolved_cycle_polls_next_input (l : Loop) (fo : fetch_outcome) (heffs : list effect)
    (data next : value) :
  Once_in_flight (cycle l) = true ->
  executeRequest client fo = (heffs, Returns (LOk data)) ->
  (forall h, sub_onData sopts = Some h -> h data = None) ->
  nextInput sopts data = Returns next ->
  snd (Loop_outcome client sopts l fo)
  = ((heffs ++ [Resolve data]) ++ [OnceResolve data])
    ++ sub_onData_effects sopts data
    ++ snd (subscriptionOnce client (sub_path l) next)
  /\ timeouts (snd (Loop_outcome client sopts l fo)) = []
  /\ attemptIndex (fst (Loop_outcome client sopts l fo)) = 0%nat
  /\ once_input (cycle (fst (Loop_outcome client sopts l fo))) = next
  /\ Once_in_flight (cycle (fst (Loop_outcome client sopts l fo))) = true
  /\ timer (fst (Loop_outcome client sopts l fo)) = timer l.
Proof.
  intros Hfl Hexec Hret Hnext.
  destruct (Once_outcome_resolves (cycle l) fo heffs data Hfl Hexec) as (o' & Hout).
  pose proof (Once_outcome_below_loop client (cycle l) fo) as Hb.
  rewrite (Once_outcome_step _ _ _ _ _ Hout) in Hb. cbn [snd] in Hb.
  unfold Loop_outcome. rewrite Hout, (call_onData_sub data Hret), Hnext.
  unfold Loop_exec. rewrite (surjective_pairing (subscriptionOnce client _ _)).
  cbn [fst snd stopped attemptIndex has_currentPromise timer set_loop cycle sub_path].
  split; [reflexivity |]. split; [| repeat split].
  set (resolution := (heffs ++ [Resolve data]) ++ [OnceResolve data]) in *.
  rewrite !timeouts_app, (timeouts_below_loop _ Hb).
  unfold sub_onData_effects. destruct (sub_onData sopts); reflexivity.
Qed.

(** [retryDelay] never decreases, stays between 0 and 30 seconds, doubles
    from 2 to 16 seconds over the first four retries and is 30 seconds from
    the fifth retry on. *)
Theorem retryDelay_monotone_and_capped :
  (forall n m, (n <= m)%nat -> retryDelay n <= retryDelay m)
  /\ (forall n, 0 <= retryDelay n <= 30000)
  /\ retryDelay 1 = 2000
  /\ (forall n, (1 <= n <= 3)%nat -> retryDelay (S n) = 2 * retryDelay n)
  /\ (forall n, (5 <= n)%nat -> retryDelay n = 30000).
Proof.
  split; [| split; [exact retryDelay_bounds
                   | split; [reflexivity | split; [| exact retryDelay_capped]]]].
  - intros n m Hle. unfold retryDelay.
    destruct (Nat.eqb_spec n 0) as [-> | Hn].
    + destruct (Nat.eqb m 0); [lia |].
      assert (0 < 2 ^ Z.of_nat m) by (apply Z.pow_pos_nonneg; lia). lia.
    + destruct (Nat.eqb_spec m 0) as [-> | Hm]; [lia |].
      assert (2 ^ Z.of_nat n <= 2 ^ Z.of_nat m) by (apply Z.pow_le_mono_r; lia). lia.
  - intros n Hn.
    assert (Hcases : n = 1%nat \/ n = 2%nat \/ n = 3%nat) by lia.
    destruct Hcases as [-> | [-> | ->]]; reflexivity.
Qed.

(** The cycles of a subscription are sequential: in every state the loop can
    reach, a retry is pending only while no request is in flight. *)
Theorem loop_cycles_are_sequential (path : string) (evs : list loop_event) :
  let l := fst (Loop_run client sopts (fst (client_subscription client sopts path)) evs) in
  (timer l <> None -> Once_in_flight (cycle l) = false)
  /\ (Once_in_flight (cycle l) = true -> timer l = None).
Proof.
  intros l. split.
  - exact (Loop_run_single_chain path evs).
  - exact (reachable_in_flight_no_timer path evs).
Qed.

End LoopFacts.

(** ** Request executor: edge cases *)

Section ExecutorEdgeFacts.
Variable client : TRPCClient.

Lemma executeRequest_catch_not_ok (r : option Response) (j : value) (pre : list effect)
    (caught : exn) (effs : list effect) (data : value) :
  executeRequest_catch client r j pre caught <> (effs, Returns (LOk data)).
Proof.
  unfold executeRequest_catch.
  set (w := match caught with
            | ExnClient e => Returns e
            | ExnValue v => _
            end).
  destruct w as [error|t]; [| intros Heq; inversion Heq].
  destruct (call_hook (onError (opts client)) HookOnError error) as [effs' [t|]];
    intros Heq; inversion Heq.
Qed.

Lemma get_returns (v : value) (k : string) :
  nullish v = false -> get v k = Returns (prop v k).
Proof. intros Hn. unfold get. now rewrite Hn. Qed.

Lemma get_throws (v : value) (k : string) :
  nullish v = true ->
  get v k = Throws (ExnValue (TypeError "Cannot read properties of undefined or null")).
Proof. intros Hn. unfold get. now rewrite Hn. Qed.

Lemma optchain_present (v : value) (k : string) :
  nullish v = false -> optchain v k = prop v k.
Proof. intros Hn. unfold optchain. now rewrite Hn. Qed.

Lemma catch_onError_returns (r : option Response) (j : value) (pre : list effect)
    (v : value) :
  nullish v = false ->
  (forall h e, onError (opts client) = Some h -> h e = None) ->
  executeRequest_catch client r j pre (ExnValue v)
  = (pre ++ onError_effects client
              (new_TRPCClientError (prop v "message") r
                 (if truthy (optchain j "ok") then VNull else j) (Some v)),
     Returns (LErr (new_TRPCClientError (prop v "message") r
                      (if truthy (optchain j "ok") then VNull else j) (Some v)))).
Proof.
  intros Hv Hret. unfold executeRequest_catch. rewrite (get_returns v _ Hv).
  unfold call_hook, onError_effects.
  destruct (onError (opts client)) as [h|] eqn:Hh; [| reflexivity].
  now rewrite (Hret h _ eq_refl).
Qed.

(** [executeRequest] returns [{ok: true}] exactly for a body that is parsed
    and deserialized to an envelope with a truthy [ok], handing that envelope
    to the success hook (if any) and nothing to the error hook; the data is
    the [data] property of the envelope. *)
Theorem executeRequest_ok_iff_success_envelope (fo : fetch_outcome) (effs : list effect)
    (data : value) :
  (executeRequest client fo = (effs, Returns (LOk data)) ->
   exists r rawJson j,
     fo = FetchResolves r
     /\ res_json r = inl rawJson
     /\ deserialize (transformer client) rawJson = Returns j
     /\ nullish j = false
     /\ truthy (prop j "ok") = true
     /\ data = prop j "data"
     /\ effs = onSuccess_effects client j)
  /\ (forall r rawJson j,
      res_json r = inl rawJson ->
      deserialize (transformer client) rawJson = Returns j ->
      nullish j = false ->
      truthy (prop j "ok") = true ->
      (forall h, onSuccess (opts client) = Some h -> h j = None) ->
      executeRequest client (FetchResolves r)
      = (onSuccess_effects client j, Returns (LOk (prop j "data")))).
Proof.
  split.
  - intros Hexec. destruct fo as [e|r]; cbn [executeRequest] in Hexec.
    { exfalso. eapply executeRequest_catch_not_ok; eassumption. }
    destruct (res_json r) as [rawJson|v] eqn:Hr;
      [| exfalso; eapply executeRequest_catch_not_ok; eassumption].
    destruct (deserialize (transformer client) rawJson) as [j|e] eqn:Hd;
      [| exfalso; eapply executeRequest_catch_not_ok; eassumption].
    destruct (nullish j) eqn:Hn.
    { rewrite (get_throws j _ Hn) in Hexec.
      exfalso. eapply executeRequest_catch_not_ok; eassumption. }
    rewrite (get_returns j _ Hn) in Hexec.
    destruct (truthy (prop j "ok")) eqn:Hok.
    + unfold call_hook in Hexec. unfold onSuccess_effects.
      destruct (onSuccess (opts client)) as [h|].
      * destruct (h j) as [e|].
        -- exfalso. eapply executeRequest_catch_not_ok; eassumption.
        -- inversion Hexec; subst. exists r, rawJson, j. repeat split; assumption.
      * inversion Hexec; subst. exists r, rawJson, j. repeat split; assumption.
    + destruct (get (prop j "error") "message") as [m|e].
      * inversion Hexec.
      * exfalso. eapply executeRequest_catch_not_ok; eassumption.
  - intros r rawJson j Hr Hd Hn Hok Hret. cbn [executeRequest].
    rewrite Hr, Hd, (get_returns j _ Hn), Hok. unfold call_hook, onSuccess_effects.
    destruct (onSuccess (opts client)) as [h|]; [| reflexivity].
    now rewrite (Hret h eq_refl).
Qed.

(** A body that deserializes to [null] or [undefined], or to a value with a
    falsy [ok] and no [error] object, is not an envelope the [try] block can
    read: the TypeError is caught, the client error keeps the response and
    the deserialized value as [json], and the error hook is called once. *)
Theorem executeRequest_malformed_envelope (r : Response) (rawJson j : value) :
  res_json r = inl rawJson ->
  deserialize (transformer client) rawJson = Returns j ->
  nullish j = true \/ (truthy (prop j "ok") = false /\ nullish (prop j "error") = true) ->
  (forall h e, onError (opts client) = Some h -> h e = None) ->
  exists msg,
    let err := new_TRPCClientError (VStr msg) (Some r) j (Some (TypeError msg)) in
    executeRequest client (FetchResolves r) = (onError_effects client err, Returns (LErr err))
    /\ json err = j
    /\ shape err = optchain j "error".
Proof.
  intros Hr Hd Hbad Hret.
  exists "Cannot read properties of undefined or null"%string.
  cbn zeta. split; [| split; reflexivity].
  cbn [executeRequest]. rewrite Hr, Hd.
  destruct Hbad as [Hn | [Hok Herr]].
  - rewrite (get_throws j _ Hn).
    rewrite catch_onError_returns by (reflexivity || assumption).
    unfold optchain. rewrite Hn. reflexivity.
  - destruct (nullish j) eqn:Hn.
    + rewrite (get_throws j _ Hn).
      rewrite catch_onError_returns by (reflexivity || assumption).
      unfold optchain. rewrite Hn. reflexivity.
    + rewrite (get_returns j _ Hn), Hok, (get_throws _ _ Herr).
      rewrite catch_onError_returns by (reflexivity || assumption).
      rewrite (optchain_present j _ Hn), Hok. reflexivity.
Qed.


(** A [TRPCClientError] thrown by the transport, by [res.json()] or by the
    transformer is not wrapped: it is handed to the error hook and returned
    as it is. *)
Theorem executeRequest_client_error_passes_through (fo : fetch_outcome)
    (e : TRPCClientError) :
  stage_failure client fo = Some (ExnClient e) ->
  (forall h, onError (opts client) = Some h -> h e = None) ->
  executeRequest client fo = (onError_effects client e, Returns (LErr e)).
Proof.
  intros Hs Hret.
  assert (Hcatch : forall r j,
             executeRequest_catch client r j [] (ExnClient e)
             = (onError_effects client e, Returns (LErr e))).
  { intros r j. unfold executeRequest_catch, call_hook, onError_effects.
    destruct (onError (opts client)) as [h|]; [| reflexivity].
    now rewrite (Hret h eq_refl). }
  destruct fo as [x|r]; cbn [executeRequest stage_failure] in *.
  - inversion Hs; subst. apply Hcatch.
  - destruct (res_json r) as [rawJson|x]; [| inversion Hs; subst; apply Hcatch].
    destruct (deserialize (transformer client) rawJson) as [j|x]; [discriminate |].
    inversion Hs; subst. apply Hcatch.
Qed.

Lemma executeRequest_catch_error_invariants (r : option Response) (j : value)
    (pre effs : list effect) (caught : exn) (err : TRPCClientError) :
  (forall e, caught <> ExnClient e) ->
  executeRequest_catch client r j pre caught = (effs, Returns (LErr err)) ->
  truthy (optchain (json err) "ok") = false
  /\ shape err = optchain (json err) "error"
  /\ res err = r.
Proof.
  intros Hnc. unfold executeRequest_catch. destruct caught as [e|v]; [now destruct (Hnc e) |].
  destruct (get v "message") as [m|t]; [| intros Heq; inversion Heq].
  destruct (call_hook (onError (opts client)) HookOnError _) as [effs' [t|]];
    intros Heq; inversion Heq; subst; cbn [json shape res new_TRPCClientError].
  repeat split. destruct (truthy (optchain j "ok")) eqn:Hok; [reflexivity | exact Hok].
Qed.

(** As long as nothing throws a [TRPCClientError] of its own, every error
    returned by [executeRequest] has a [shape] that is the [error] property of
    its [json], never carries an envelope with a truthy [ok], and has a
    response exactly when the transport resolved. *)
Theorem executeRequest_error_invariants (fo : fetch_outcome) (effs : list effect)
    (err : TRPCClientError) :
  throws_no_client_error client fo ->
  executeRequest client fo = (effs, Returns (LErr err)) ->
  truthy (optchain (json err) "ok") = false
  /\ shape err = optchain (json err) "error"
  /\ res err = match fo with
               | FetchRejects _ => None
               | FetchResolves r => Some r
               end.
Proof.
  intros [Hstage Hhook] Hexec.
  destruct fo as [e|r]; cbn [executeRequest stage_failure] in *.
  { eapply executeRequest_catch_error_invariants; [| eassumption].
    intros x Hx. subst. now apply (Hstage x). }
  destruct (res_json r) as [rawJson|e] eqn:Hr.
  2: { eapply executeRequest_catch_error_invariants; [| eassumption].
       intros x Hx. subst. now apply (Hstage x). }
  destruct (deserialize (transformer client) rawJson) as [j|e] eqn:Hd.
  2: { eapply executeRequest_catch_error_invariants; [| eassumption].
       intros x Hx. subst. now apply (Hstage x). }
  destruct (nullish j) eqn:Hn.
  { rewrite (get_throws j _ Hn) in Hexec.
    eapply executeRequest_catch_error_invariants; [| eassumption]. discriminate. }
  rewrite (get_returns j _ Hn) in Hexec.
  destruct (truthy (prop j "ok")) eqn:Hok.
  - unfold call_hook in Hexec. destruct (onSuccess (opts client)) as [h|] eqn:Hh.
    + destruct (h j) as [e|] eqn:Hhj; [| inversion Hexec].
      eapply executeRequest_catch_error_invariants; [| eassumption].
      intros x Hx. subst. now apply (Hhook h j x).
    + inversion Hexec.
  - destruct (get (prop j "error") "message") as [m|e] eqn:Hm.
    + inversion Hexec; subst. cbn [json shape res new_TRPCClientError].
      rewrite (optchain_present j _ Hn), Hok. repeat split.
    + eapply executeRequest_catch_error_invariants; [| eassumption].
      unfold get in Hm. destruct (nullish (prop j "error")); inversion Hm. discriminate.
Qed.


End ExecutorEdgeFacts.

(** ** Request builder: absent and null input *)

(** An [undefined] input is never handed to the transformer: a mutation or
    subscription posts the JSON text of an object without [input] property,
    and a query has no parameter; a [null] input is serialized by the
    transformer for a mutation or subscription, while a query drops it. *)
Theorem absent_and_null_input (client : TRPCClient) (path : string) :
  ro_body (reqOptsMap (platform := reference_platform) client mutation VUndef path)
  = Some "{}"%string
  /\ ro_body (reqOptsMap (platform := reference_platform) client subscription VUndef path)
     = Some "{}"%string
  /\ ro_url (reqOptsMap (platform := reference_platform) client query VUndef path)
     = (url (opts client) +:+ "/" +:+ path)%string
  /\ (forall (platform : Platform) (type : ProcedureType),
      type <> query ->
      ro_body (reqOptsMap client type VNull path)
      = JSON_stringify (VObj [("input"%string, serialize (transformer client) VNull)]))
  /\ (forall platform : Platform,
      ro_url (reqOptsMap client query VNull path)
      = ro_url (reqOptsMap client query VUndef path)).
Proof.
  repeat split.
  - cbn. apply append_empty_r.
  - intros platform type Hq. destruct type; [congruence | reflexivity | reflexivity].
Qed.

(** * Concrete runs *)

#[local] Existing Instance reference_platform.

(** C7, as stated, fails for the input [null]: it is a present input (not
    [undefined]), yet the query URL carries no [?input=] parameter. *)
Lemma C7_null_input_has_no_param :
  defined VNull = true
  /\ ro_url (reqOptsMap sample_client query VNull "getUser")
     = "http://localhost/trpc/getUser"%string.
Proof. split; reflexivity. Qed.

Lemma C7_query_param_witness :
  nullish (VObj [("id"%string, VNum 1)]) = false
  /\ ro_url (reqOptsMap sample_client query
               (VObj [("id"%string, VNum 1)]) "getUser")
     = "http://localhost/trpc/getUser?input=%7B%22id%22%3A1%7D"%string.
Proof.
  split; [reflexivity |].
  apply (proj2 (C7_query_param_omitted_iff_nullish (platform := reference_platform) sample_client
                  "getUser" (VObj [("id"%string, VNum 1)]))).
  reflexivity.
Defined.

Lemma C8_wire_contract_witness :
  body (req_init (fst (request boxing_client mutation
                         (VObj [("name"%string, VStr "B")]) "createUser")))
  = stringify (VObj [("input"%string,
                      VObj [("boxed"%string, VObj [("name"%string, VStr "B")])])])
  /\ headers (req_init (fst (request boxing_client mutation
                               (VObj [("name"%string, VStr "B")]) "createUser")))
     !! "authorization"%string = Some (Some "Bearer t"%string)
  /\ headers (req_init (fst (request boxing_client mutation
                               (VObj [("name"%string, VStr "B")]) "createUser")))
     !! "content-type"%string = Some (Some "application/json"%string)
  /\ headers (req_init (fst (request boxing_client mutation
                               (VObj [("name"%string, VStr "B")]) "createUser")))
     !! "accept"%string = None.
Proof.
  pose proof (C8_wire_contract (platform := reference_platform) boxing_client mutation
                "createUser" (VObj [("name"%string, VStr "B")])) as Hwire.
  cbn zeta in Hwire. destruct Hwire as (_ & _ & (_ & Hbody) & Hheaders).
  split; [exact Hbody |].
  split; [exact (Hheaders "authorization"%string) |].
  split; [exact (Hheaders "content-type"%string) | exact (Hheaders "accept"%string)].
Defined.

(** C8, as stated, fails when the caller supplies a [content-type] of its
    own: the properties of [getHeaders()] are spread after the default, so the
    request carries the caller's value and not [application/json]. *)
Lemma C8_caller_content_type_wins :
  getHeaders (opts plain_text_client)
  = Some {[ "content-type"%string := Some "text/plain"%string ]}
  /\ headers (req_init (fst (request plain_text_client mutation
                               (VObj [("name"%string, VStr "B")]) "createUser")))
     !! "content-type"%string = Some (Some "text/plain"%string).
Proof. split; reflexivity. Qed.



(** C6 fails on a failure envelope: with an error hook configured, the
    response [{ok: false, error: {message: 'conflict', statusCode: 409}}] is
    returned as [{ok: false, error}] and no hook is called. *)
Theorem C6_failure_envelope_skips_onError :
  is_Some (onError (opts sample_client))
  /\ executeRequest sample_client (responds 409 (nested_failure_envelope 409 "conflict"))
     = ([], Returns (LErr (new_TRPCClientError (VStr "conflict")
                             (Some (Build_Response 409 (inl (nested_failure_envelope 409 "conflict"))))
                             (nested_failure_envelope 409 "conflict") None))).
Proof. split; [eexists; reflexivity | reflexivity]. Qed.



(** C1, as stated, fails for a failure envelope that carries [statusCode: 408]
    inside its [error] object: the error has [shape.statusCode] 408, yet the
    promise of [subscriptionOnce] is rejected with it and no request follows. *)
Lemma C1_nested_408_is_surfaced :
  prop (shape (envelope_error 408 "reconnect" (nested_failure_envelope 408 "reconnect")))
       "statusCode" = VNum 408
  /\ snd (Once_run sample_client
            (fst (subscriptionOnce sample_client "poll" (VNum 0)))
            [OnceOutcome (responds 408 (nested_failure_envelope 408 "reconnect"))])
     = [Reject (envelope_error 408 "reconnect" (nested_failure_envelope 408 "reconnect"));
        OnceReject (envelope_error 408 "reconnect" (nested_failure_envelope 408 "reconnect"))].
Proof. split; reflexivity. Qed.

Lemma C1_reconnect_witness :
  snd (Once_step sample_client
         (fst (subscriptionOnce sample_client "poll" (VNum 0)))
         (OnceOutcome (responds 408 (failure_envelope 408 "reconnect"))))
  = Reject (envelope_error 408 "reconnect" (failure_envelope 408 "reconnect"))
    :: snd (subscriptionOnce sample_client "poll" (VNum 0)).
Proof.
  apply (C1_reconnect_on_408 (platform := reference_platform) sample_client "poll" (VNum 0) []
           (Build_Response 408 (inl (failure_envelope 408 "reconnect")))
           (failure_envelope 408 "reconnect") (failure_envelope 408 "reconnect")
           (VStr "reconnect"));
    reflexivity.
Defined.

(** C3, as stated, fails for [subscriptionOnce]: on a client without abort
    controller, [cancel] followed by a reconnect signal leaves the promise
    pending with no request in flight, so it settles zero times. *)
Lemma C3_cancelled_reconnect_never_settles :
  count is_once_settle
    (snd (Once_run legacy_client
            (fst (subscriptionOnce legacy_client "poll" (VNum 0)))
            [OnceCancel; OnceOutcome (responds 408 (failure_envelope 408 "reconnect"))]))
  = 0%nat
  /\ once_promise
       (fst (Once_run legacy_client
               (fst (subscriptionOnce legacy_client "poll" (VNum 0)))
               [OnceCancel; OnceOutcome (responds 408 (failure_envelope 408 "reconnect"))]))
     = Pending
  /\ Once_in_flight
       (fst (Once_run legacy_client
               (fst (subscriptionOnce legacy_client "poll" (VNum 0)))
               [OnceCancel; OnceOutcome (responds 408 (failure_envelope 408 "reconnect"))]))
     = false.
Proof. repeat split; reflexivity. Qed.

Lemma C3_settles_witness :
  in_flight
    (pending_request
       (fst (Settling_run sample_client
               (settling (fst (request sample_client mutation
                                 (VObj [("name"%string, VStr "B")]) "createUser")))
               [CancelCall]))) = true
  /\ List.filter is_settle
       (snd (Settling_run sample_client
               (settling (fst (request sample_client mutation
                                 (VObj [("name"%string, VStr "B")]) "createUser")))
               ([CancelCall]
                ++ Delivered (responds 409 (failure_envelope 409 "conflict"))
                   :: [CancelCall] ++ ThenJob :: [CancelCall; ThenJob])))
     = [Reject (envelope_error 409 "conflict" (failure_envelope 409 "conflict"))].
Proof.
  split; [reflexivity |].
  apply (proj1 (proj2 (C3_settles_at_most_once (platform := reference_platform) sample_client
                         mutation (VObj [("name"%string, VStr "B")]) "createUser"))
           [CancelCall] (responds 409 (failure_envelope 409 "conflict")) [CancelCall]
           [CancelCall; ThenJob]
           [] (LErr (envelope_error 409 "conflict" (failure_envelope 409 "conflict"))));
    reflexivity.
Defined.

Lemma C9_retry_backoff_witness :
  attemptIndex
    (fst (Loop_outcome sample_client sample_subscription
            (fst (client_subscription sample_client sample_subscription "poll"))
            (FetchRejects network_error)))
  = 1%nat
  /\ timer
       (fst (Loop_outcome sample_client sample_subscription
               (fst (client_subscription sample_client sample_subscription "poll"))
               (FetchRejects network_error)))
     = Some (VNum 0).
Proof.
  assert (Hret : forall e h, sub_onError sample_subscription = Some h -> h e = None).
  { intros e h Heq. inversion Heq. reflexivity. }
  destruct (proj1 (proj2 (C9_retry_backoff (platform := reference_platform) sample_client
                            sample_subscription))
              (fst (client_subscription sample_client sample_subscription "poll"))
              (FetchRejects network_error) _ _ _ eq_refl eq_refl (Hret _))
    as (Hindex & Htimer & _).
  split; [exact Hindex | exact Htimer].
Defined.

(** C9, as stated, fails when [onError] throws: the cycle failed with status
    500, the loop is not stopped, yet [attemptIndex] stays 0 and no retry is
    scheduled, because the statements that follow the call of [onError] in
    the [catch] block are not reached. *)
Lemma C9_throwing_onError_skips_retry :
  stopped (fst (client_subscription sample_client throwing_onError_subscription "poll")) = false
  /\ is_reconnect (envelope_error 500 "boom" (failure_envelope 500 "boom")) = false
  /\ snd (Loop_outcome sample_client throwing_onError_subscription
            (fst (client_subscription sample_client throwing_onError_subscription "poll"))
            (responds 500 (failure_envelope 500 "boom")))
     = [Reject (envelope_error 500 "boom" (failure_envelope 500 "boom"));
        OnceReject (envelope_error 500 "boom" (failure_envelope 500 "boom"));
        OnError (ExnClient (envelope_error 500 "boom" (failure_envelope 500 "boom")))]
  /\ attemptIndex
       (fst (Loop_outcome sample_client throwing_onError_subscription
               (fst (client_subscription sample_client throwing_onError_subscription "poll"))
               (responds 500 (failure_envelope 500 "boom"))))
     = 0%nat
  /\ timer
       (fst (Loop_outcome sample_client throwing_onError_subscription
               (fst (client_subscription sample_client throwing_onError_subscription "poll"))
               (responds 500 (failure_envelope 500 "boom"))))
     = None.
Proof. repeat split; reflexivity. Qed.

Lemma C10_callback_throw_witness :
  snd (Loop_outcome sample_client fragile_subscription
         (fst (client_subscription sample_client fragile_subscription "poll"))
         (responds 200 (success_envelope (VArr [VNum 1; VNum 2; VNum 3]))))
  = [HookOnSuccess (success_envelope (VArr [VNum 1; VNum 2; VNum 3]));
     Resolve (VArr [VNum 1; VNum 2; VNum 3]);
     OnceResolve (VArr [VNum 1; VNum 2; VNum 3]);
     OnData (VArr [VNum 1; VNum 2; VNum 3]);
     OnError cursor_error;
     SetTimeout 2000 (VNum 0)].
Proof.
  assert (Hret : forall h, sub_onError fragile_subscription = Some h -> h cursor_error = None).
  { intros h Heq. inversion Heq. reflexivity. }
  assert (Hthrow : callback_throws fragile_subscription (VArr [VNum 1; VNum 2; VNum 3])
                     cursor_error).
  { right. split; [| reflexivity]. intros h Heq. inversion Heq. reflexivity. }
  exact (proj1 (proj1 (C10_callback_throw_is_cycle_failure (platform := reference_platform)
                         sample_client fragile_subscription
                         (fst (client_subscription sample_client fragile_subscription "poll"))
                         (responds 200 (success_envelope (VArr [VNum 1; VNum 2; VNum 3])))
                         _ _ _ _ eq_refl Hthrow) eq_refl Hret)).
Defined.

(** C10, as stated, fails in a stopped loop.  On a client without abort
    controller, [unsubscribe] during a request does not stop the request;
    when it succeeds, [onData] still receives the data, and the value thrown
    by [nextInput] is dropped by the [catch] block: [onError] is not called,
    [attemptIndex] stays 0 and nothing is retried. *)
Lemma C10_stopped_loop_swallows_throw :
  nextInput fragile_subscription (VArr [VNum 1; VNum 2; VNum 3]) = Throws cursor_error
  /\ snd (Loop_run legacy_client fragile_subscription
            (fst (client_subscription legacy_client fragile_subscription "poll"))
            [Unsubscribe;
             Outcome (responds 200 (success_envelope (VArr [VNum 1; VNum 2; VNum 3])))])
     = [HookOnSuccess (success_envelope (VArr [VNum 1; VNum 2; VNum 3]));
        Resolve (VArr [VNum 1; VNum 2; VNum 3]);
        OnceResolve (VArr [VNum 1; VNum 2; VNum 3]);
        OnData (VArr [VNum 1; VNum 2; VNum 3])]
  /\ attemptIndex
       (fst (Loop_run legacy_client fragile_subscription
               (fst (client_subscription legacy_client fragile_subscription "poll"))
               [Unsubscribe;
                Outcome (responds 200 (success_envelope (VArr [VNum 1; VNum 2; VNum 3])))]))
     = 0%nat
  /\ timer
       (fst (Loop_run legacy_client fragile_subscription
               (fst (client_subscription legacy_client fragile_subscription "poll"))
               [Unsubscribe;
                Outcome (responds 200 (success_envelope (VArr [VNum 1; VNum 2; VNum 3])))]))
     = None.
Proof. repeat split; reflexivity. Qed.

(** C2 fails when a retry is pending: after a cycle failed with status 500
    and [unsubscribe] was called during the backoff, the timer still fires,
    [exec] issues the request again, and on its success [onData] is called
    and the next cycle is started. *)
Theorem C2_pending_retry_runs_after_unsubscribe :
  stopped
    (fst (Loop_run sample_client sample_subscription
            (fst (client_subscription sample_client sample_subscription "poll"))
            [Outcome (responds 500 (failure_envelope 500 "boom")); Unsubscribe]))
  = true
  /\ snd (Loop_run sample_client sample_subscription
            (fst (Loop_run sample_client sample_subscription
                    (fst (client_subscription sample_client sample_subscription "poll"))
                    [Outcome (responds 500 (failure_envelope 500 "boom")); Unsubscribe]))
            [TimerFires;
             Outcome (responds 200 (success_envelope (VArr [VNum 1; VNum 2; VNum 3])))])
     = snd (subscriptionOnce sample_client "poll" (VNum 0))
       ++ [HookOnSuccess (success_envelope (VArr [VNum 1; VNum 2; VNum 3]));
           Resolve (VArr [VNum 1; VNum 2; VNum 3]);
           OnceResolve (VArr [VNum 1; VNum 2; VNum 3]);
           OnData (VArr [VNum 1; VNum 2; VNum 3])]
       ++ snd (subscriptionOnce sample_client "poll" (VNum 3))
  /\ count is_fetch
       (snd (Loop_run sample_client sample_subscription
               (fst (Loop_run sample_client sample_subscription
                       (fst (client_subscription sample_client sample_subscription "poll"))
                       [Outcome (responds 500 (failure_envelope 500 "boom")); Unsubscribe]))
               [TimerFires;
                Outcome (responds 200 (success_envelope (VArr [VNum 1; VNum 2; VNum 3])))]))
     = 2%nat
  /\ count is_subscriber_call
       (snd (Loop_run sample_client sample_subscription
               (fst (Loop_run sample_client sample_subscription
                       (fst (client_subscription sample_client sample_subscription "poll"))
                       [Outcome (responds 500 (failure_envelope 500 "boom")); Unsubscribe]))
               [TimerFires;
                Outcome (responds 200 (success_envelope (VArr [VNum 1; VNum 2; VNum 3])))]))
     = 1%nat.
Proof. repeat split; reflexivity. Qed.

(** ** Scenarios *)

(** [query('getUser', {id: 1})] answered with a success envelope resolves
    with its data. *)
Example query_resolves_with_data :
  Request_run sample_client
    (fst (client_query sample_client "getUser" (VObj [("id"%string, VNum 1)])))
    [ReqOutcome (responds 200 (success_envelope
                                 (VObj [("id"%string, VNum 1); ("name"%string, VStr "A")])))]
  = (Request_finished
       (fst (client_query sample_client "getUser" (VObj [("id"%string, VNum 1)])))
       true (Resolved (VObj [("id"%string, VNum 1); ("name"%string, VStr "A")])),
     [HookOnSuccess (success_envelope
                       (VObj [("id"%string, VNum 1); ("name"%string, VStr "A")]));
      Resolve (VObj [("id"%string, VNum 1); ("name"%string, VStr "A")])]).
Proof. reflexivity. Qed.

(** [mutation('createUser', {name: 'B'})] answered with a failure envelope
    rejects with a client error that has the message and the shape of the
    envelope. *)
Example mutation_rejects_with_envelope_error :
  responsePromise
    (fst (Request_run sample_client
            (fst (client_mutation sample_client "createUser" (VObj [("name"%string, VStr "B")])))
            [ReqOutcome (responds 409 (nested_failure_envelope 409 "conflict"))]))
  = Rejected (envelope_error 409 "conflict" (nested_failure_envelope 409 "conflict"))
  /\ message (envelope_error 409 "conflict" (nested_failure_envelope 409 "conflict"))
     = VStr "conflict"
  /\ prop (shape (envelope_error 409 "conflict" (nested_failure_envelope 409 "conflict")))
          "statusCode" = VNum 409.
Proof. repeat split; reflexivity. Qed.

(** A subscription whose first request is answered with a reconnect signal
    and whose second request is answered with data calls [onData] once and
    [onError] never, and polls again with the next input. *)
Example subscription_reconnects_then_delivers :
  snd (Loop_run sample_client sample_subscription
         (fst (client_subscription sample_client sample_subscription "poll"))
         [Outcome (responds 408 (failure_envelope 408 "reconnect"));
          Outcome (responds 200 (success_envelope (VArr [VNum 1; VNum 2; VNum 3])))])
  = [Reject (envelope_error 408 "reconnect" (failure_envelope 408 "reconnect"))]
    ++ snd (subscriptionOnce sample_client "poll" (VNum 0))
    ++ [HookOnSuccess (success_envelope (VArr [VNum 1; VNum 2; VNum 3]));
        Resolve (VArr [VNum 1; VNum 2; VNum 3]);
        OnceResolve (VArr [VNum 1; VNum 2; VNum 3]);
        OnData (VArr [VNum 1; VNum 2; VNum 3])]
    ++ snd (subscriptionOnce sample_client "poll" (VNum 3)).
Proof. reflexivity. Qed.

(** The request sent for the initial poll. *)
Example subscription_first_request :
  snd (client_subscription sample_client sample_subscription "poll")
  = [Fetch "http://localhost/trpc/poll"
       {| method := "PATCH";
          body := Some (String.append "{" (String.append dquote (String.append "input"
                    (String.append dquote ":0}"))));
          signal := true;
          headers := client_getHeaders sample_client |}].
Proof. reflexivity. Qed.

(** A transport that ignores the abort signal can still resolve a cancelled
    request: nothing in [request] looks at [aborted] before resolving. *)
Example cancelled_request_resolves_if_signal_ignored :
  responsePromise
    (fst (Request_run sample_client
            (fst (client_query sample_client "getUser" (VNum 1)))
            [ReqCancel; ReqOutcome (responds 200 (success_envelope (VStr "A")))]))
  = Resolved (VStr "A")
  /\ aborted
       (fst (Request_run sample_client
               (fst (client_query sample_client "getUser" (VNum 1)))
               [ReqCancel; ReqOutcome (responds 200 (success_envelope (VStr "A")))]))
     = true.
Proof. split; reflexivity. Qed.

(** With an abort controller and a transport that honours it, [unsubscribe]
    during a request ends the loop silently. *)
Example unsubscribe_in_flight_is_silent :
  snd (Loop_run sample_client sample_subscription
         (fst (client_subscription sample_client sample_subscription "poll"))
         [Unsubscribe; Outcome (FetchRejects abort_error); TimerFires])
  = [AbortSignal;
     HookOnError (new_TRPCClientError (VStr "The operation was aborted") None VNull
                    (Some (VObj [("name"%string, VStr "AbortError");
                                 ("message"%string, VStr "The operation was aborted")])));
     Reject (new_TRPCClientError (VStr "The operation was aborted") None VNull
               (Some (VObj [("name"%string, VStr "AbortError");
                            ("message"%string, VStr "The operation was aborted")])));
     OnceReject (new_TRPCClientError (VStr "The operation was aborted") None VNull
                   (Some (VObj [("name"%string, VStr "AbortError");
                                ("message"%string, VStr "The operation was aborted")])))].
Proof. reflexivity. Qed.

(** ** Instances of the further properties *)

Lemma sample_client_hooks_return : hooks_return sample_client.
Proof. split; intros h x Heq; inversion Heq; reflexivity. Qed.

Lemma executeRequest_ok_witness :
  executeRequest sample_client (responds 200 (success_envelope (VNum 7)))
  = ([HookOnSuccess (success_envelope (VNum 7))], Returns (LOk (VNum 7))).
Proof.
  apply (proj2 (executeRequest_ok_iff_success_envelope sample_client
                  (responds 200 (success_envelope (VNum 7))) [] VUndef)
           (Build_Response 200 (inl (success_envelope (VNum 7))))
           (success_envelope (VNum 7)) (success_envelope (VNum 7)));
    try reflexivity.
  intros h Heq. inversion Heq. reflexivity.
Defined.

Lemma executeRequest_malformed_witness :
  exists msg,
    executeRequest sample_client (responds 500 bare_failure)
    = ([HookOnError (new_TRPCClientError (VStr msg)
                       (Some (Build_Response 500 (inl bare_failure)))
                       bare_failure (Some (TypeError msg)))],
       Returns (LErr (new_TRPCClientError (VStr msg)
                        (Some (Build_Response 500 (inl bare_failure)))
                        bare_failure (Some (TypeError msg))))).
Proof.
  destruct (executeRequest_malformed_envelope sample_client
              (Build_Response 500 (inl bare_failure)) bare_failure bare_failure
              eq_refl eq_refl (or_intror (conj eq_refl eq_refl))
              (proj2 sample_client_hooks_return)) as (msg & Hexec & _).
  exists msg. exact Hexec.
Defined.


Lemma executeRequest_passes_through_witness :
  executeRequest sample_client
    (FetchResolves (Build_Response 502 (inr (ExnClient own_client_error))))
  = ([HookOnError own_client_error], Returns (LErr own_client_error)).
Proof.
  apply (executeRequest_client_error_passes_through sample_client
           (FetchResolves (Build_Response 502 (inr (ExnClient own_client_error))))
           own_client_error eq_refl).
  intros h Heq. inversion Heq. reflexivity.
Defined.

Lemma executeRequest_error_invariants_witness :
  res (envelope_error 409 "conflict" (failure_envelope 409 "conflict"))
  = Some (Build_Response 409 (inl (failure_envelope 409 "conflict")))
  /\ shape (envelope_error 409 "conflict" (failure_envelope 409 "conflict"))
     = VObj [("message"%string, VStr "conflict")].
Proof.
  assert (Hno : throws_no_client_error sample_client
                  (responds 409 (failure_envelope 409 "conflict"))).
  { split; [intros e; discriminate |].
    intros h j e Heq. inversion Heq. discriminate. }
  destruct (executeRequest_error_invariants sample_client
              (responds 409 (failure_envelope 409 "conflict")) []
              (envelope_error 409 "conflict" (failure_envelope 409 "conflict"))
              Hno eq_refl) as (_ & Hshape & Hres).
  split; [exact Hres | exact Hshape].
Defined.


Lemma absent_and_null_input_witness :
  ro_body (reqOptsMap sample_client mutation VNull "createUser")
  = Some (String.append "{" (String.append dquote (String.append "input"
            (String.append dquote ":null}")))).
Proof.
  rewrite (proj1 (proj2 (proj2 (proj2 (absent_and_null_input sample_client "createUser"))))
             reference_platform mutation); [reflexivity | discriminate].
Defined.

Lemma settled_request_is_inert_witness :
  Request_run sample_client
    (fst (Request_run sample_client (fst (client_query sample_client "getUser" (VNum 1)))
            [ReqOutcome (responds 200 (success_envelope (VStr "A")))]))
    [ReqCancel; ReqOutcome (FetchRejects abort_error); ReqCancel]
  = (fst (Request_run sample_client (fst (client_query sample_client "getUser" (VNum 1)))
            [ReqOutcome (responds 200 (success_envelope (VStr "A")))]), []).
Proof.
  apply (settled_request_is_inert (platform := reference_platform) sample_client query
           (VNum 1) "getUser" [ReqOutcome (responds 200 (success_envelope (VStr "A")))]
           [ReqCancel; ReqOutcome (FetchRejects abort_error); ReqCancel]).
  reflexivity.
Defined.

Lemma abort_signal_witness :
  count is_abort
    (snd (Request_run legacy_client (fst (client_query legacy_client "getUser" (VNum 1)))
            [ReqCancel; ReqCancel]))
  = 0%nat
  /\ aborted (fst (Request_cancel (fst (client_query legacy_client "getUser" (VNum 1))))) = true.
Proof.
  destruct (proj2 (abort_signal_at_most_once (platform := reference_platform) legacy_client
                     query (VNum 1) "getUser" [ReqCancel; ReqCancel]) eq_refl)
    as (_ & Hcount & Haborted).
  split; [exact Hcount | exact Haborted].
Defined.

Lemma nullish_rejection_witness :
  responsePromise
    (fst (Request_run sample_client (fst (client_query sample_client "getUser" (VNum 1)))
            [ReqOutcome (FetchRejects (ExnValue VNull)); ReqCancel]))
  = Pending.
Proof.
  exact (proj1 (proj2 (nullish_rejection_never_settles (platform := reference_platform)
                         sample_client query (VNum 1) "getUser"
                         (FetchRejects (ExnValue VNull)) VNull [ReqCancel] eq_refl eq_refl))).
Defined.

Lemma throwing_onError_witness :
  responsePromise
    (fst (Request_run throwing_onError_client
            (fst (client_query throwing_onError_client "getUser" (VNum 1)))
            [ReqOutcome (FetchRejects network_error)]))
  = Pending.
Proof.
  exact (proj1 (proj2 (throwing_onError_never_settles (platform := reference_platform)
                         throwing_onError_client query (VNum 1) "getUser"
                         (FetchRejects network_error)
                         (VObj [("name"%string, VStr "TypeError");
                                ("message"%string, VStr "Failed to fetch")])
                         (fun _ => Some cursor_error) cursor_error []
                         eq_refl eq_refl eq_refl (fun _ => eq_refl)))).
Defined.

Lemma reconnect_is_unbounded_witness :
  count is_fetch
    (snd (Once_run sample_client (fst (subscriptionOnce sample_client "poll" (VNum 0)))
            (repeat (OnceOutcome (responds 408 (failure_envelope 408 "reconnect"))) 3)))
  = 3%nat.
Proof.
  exact (proj1 (reconnect_is_unbounded (platform := reference_platform) sample_client "poll"
                  (VNum 0) (responds 408 (failure_envelope 408 "reconnect")) []
                  (envelope_error 408 "reconnect" (failure_envelope 408 "reconnect")) 3
                  eq_refl eq_refl)).
Defined.




Lemma unsubscribe_in_flight_witness :
  count is_subscriber_call
    (snd (Loop_run sample_client sample_subscription
            (fst (Loop_run sample_client sample_subscription
                    (fst (client_subscription sample_client sample_subscription "poll"))
                    []))
            (Unsubscribe :: Outcome (FetchRejects abort_error) :: [TimerFires])))
  = 0%nat.
Proof.
  exact (proj1 (proj2 (proj2 (unsubscribe_in_flight_ends_loop (platform := reference_platform)
                                sample_client sample_subscription "poll" [] [TimerFires]
                                (FetchRejects abort_error) eq_refl eq_refl eq_refl)))).
Defined.

Lemma throwing_subscription_onError_witness :
  count is_fetch
    (snd (Loop_run sample_client throwing_onError_subscription
            (fst (Loop_run sample_client throwing_onError_subscription
                    (fst (client_subscription sample_client throwing_onError_subscription
                            "poll"))
                    []))
            (Outcome (responds 500 (failure_envelope 500 "boom")) :: [TimerFires])))
  = 0%nat.
Proof.
  exact (proj1 (proj2 (proj2 (throwing_subscription_onError_ends_loop
                                (platform := reference_platform) sample_client
                                throwing_onError_subscription "poll" [] [TimerFires]
                                (responds 500 (failure_envelope 500 "boom")) []
                                (envelope_error 500 "boom" (failure_envelope 500 "boom"))
                                (fun _ => Some cursor_error) cursor_error
                                eq_refl eq_refl eq_refl eq_refl eq_refl eq_refl)))).
Defined.

Lemma consecutive_failures_witness :
  timeouts
    (snd (Loop_run sample_client sample_subscription
            (fst (client_subscription sample_client sample_subscription "poll"))
            (failing_rounds (responds 500 (failure_envelope 500 "boom")) 6)))
  = [2000; 4000; 8000; 16000; 30000; 30000].
Proof.
  assert (Hret : forall h, sub_onError sample_subscription = Some h ->
                           h (ExnClient (envelope_error 500 "boom" (failure_envelope 500 "boom")))
                           = None).
  { intros h Heq. inversion Heq. reflexivity. }
  exact (proj1 (proj2 (consecutive_failures_back_off (platform := reference_platform)
                         sample_client sample_subscription "poll"
                         (responds 500 (failure_envelope 500 "boom")) []
                         (envelope_error 500 "boom" (failure_envelope 500 "boom")) 6
                         eq_refl eq_refl Hret))).
Defined.

Lemma resolved_cycle_witness :
  once_input
    (cycle (fst (Loop_outcome sample_client sample_subscription
                   (fst (client_subscription sample_client sample_subscription "poll"))
                   (responds 200 (success_envelope (VArr [VNum 1; VNum 2; VNum 3]))))))
  = VNum 3.
Proof.
  assert (Hret : forall h, sub_onData sample_subscription = Some h ->
                           h (VArr [VNum 1; VNum 2; VNum 3]) = None).
  { intros h Heq. inversion Heq. reflexivity. }
  exact (proj1 (proj2 (proj2 (proj2 (resolved_cycle_polls_next_input
                                       (platform := reference_platform) sample_client
                                       sample_subscription
                                       (fst (client_subscription sample_client
                                               sample_subscription "poll"))
                                       (responds 200
                                          (success_envelope (VArr [VNum 1; VNum 2; VNum 3])))
                                       [HookOnSuccess
                                          (success_envelope (VArr [VNum 1; VNum 2; VNum 3]))]
                                       (VArr [VNum 1; VNum 2; VNum 3]) (VNum 3)
                                       eq_refl eq_refl Hret eq_refl))))).
Defined.

Lemma retryDelay_witness : retryDelay 3 <= retryDelay 7 /\ retryDelay 7 = 30000.
Proof.
  split.
  - apply (proj1 retryDelay_monotone_and_capped 3%nat 7%nat). lia.
  - apply (proj2 (proj2 (proj2 (proj2 retryDelay_monotone_and_capped))) 7%nat). lia.
Defined.
